(** * md-to-epub: a shallow embedding of the document-to-package pipeline

    The development follows the TypeScript sources:
    - [types.ts]            the records [Config], [EpubMetadata], [ImageReference], [Chapter];
    - [markdown-parser.ts]  the footnote extensions, the image renderer hook and [parseMarkdown];
    - [epub-generator.ts]   [downloadImage], the staging functions, the archive step and the
                            XML generators;
    - [converter.ts]        the single-document and the chapter-mode drivers.

    Strings are Rocq strings, JavaScript [undefined] is [None], the file system is a finite
    map from paths to nodes, and the module-level variables of the parser are an explicit
    state record over a store of arrays. *)

From Stdlib Require Import String Ascii ZArith List Lia DecimalString DecimalNat.
From stdpp Require Import gmap strings list.

Open Scope string_scope.

(** ** Text helpers *)

(** The double-quote and line-feed characters, as one-character strings. *)
Definition dq : string := String (ascii_of_nat 34) EmptyString.
Definition nl : string := String (ascii_of_nat 10) EmptyString.

(** An attribute value between double quotes. *)
Definition q (s : string) : string := dq +:+ s +:+ dq.

(** JavaScript's template rendering of a non-negative integer. *)
Definition show_nat (n : nat) : string := NilZero.string_of_uint (Nat.to_uint n).

(** [Array.prototype.join]. *)
Definition join (sep : string) (l : list string) : string := String.concat sep l.

(** [String.prototype.startsWith]. *)
Definition startsWith (s pre : string) : bool := String.prefix pre s.

(** Truthiness of an optional string: [undefined] and the empty string are falsy. *)
Definition truthy (o : option string) : bool :=
  match o with
  | Some (String _ _) => true
  | _ => false
  end.

(** [a || b] where [a] is an optional string and [b] a string. *)
Definition or_else (a : option string) (b : string) : string :=
  match a with
  | Some (String c s) => String c s
  | _ => b
  end.

(** Number of (possibly overlapping) occurrences of [pat] in [s]. *)
Fixpoint occurrences (pat s : string) : nat :=
  match s with
  | EmptyString => 0
  | String _ s' => (if String.prefix pat s then 1 else 0) + occurrences pat s'
  end.

(** ** Node's [path] module (POSIX flavour)

    The functions below follow the loops of [path.posix.basename] and
    [path.posix.extname]: indices are integers, [-1] is the "not yet seen" mark. *)
Module Path.

Definition slash : ascii := ascii_of_nat 47.
Definition dot : ascii := ascii_of_nat 46.

Definition charAt (p : string) (i : Z) : ascii :=
  match String.get (Z.to_nat i) p with
  | Some c => c
  | None => zero
  end.

Definition len (p : string) : Z := Z.of_nat (String.length p).

(** [p.slice(a, b)] for [0 <= a]. *)
Definition slice (p : string) (a b : Z) : string :=
  substring (Z.to_nat a) (Z.to_nat (b - a)) p.

Definition is_slash (c : ascii) : bool := bool_decide (c = slash).
Definition is_dot (c : ascii) : bool := bool_decide (c = dot).

(** *** [basename(path)] *)
Record bstate := BState {
  b_start : Z; b_end : Z; b_matchedSlash : bool; b_break : bool }.

Definition bstep (p : string) (i : Z) (st : bstate) : bstate :=
  if b_break st then st
  else if is_slash (charAt p i) then
    if negb (b_matchedSlash st)
    then BState (i + 1) (b_end st) (b_matchedSlash st) true
    else st
  else if (b_end st =? -1)%Z
    then BState (b_start st) (i + 1) false false
    else st.

(** [for (i = n - 1; i >= 0; --i)] *)
Fixpoint down {S : Type} (step : Z -> S -> S) (n : nat) (st : S) : S :=
  match n with
  | O => st
  | Datatypes.S k => down step k (step (Z.of_nat k) st)
  end.

Definition basename (p : string) : string :=
  let st := down (bstep p) (String.length p) (BState 0 (-1) true false) in
  if (b_end st =? -1)%Z then EmptyString
  else slice p (b_start st) (b_end st).

(** *** [extname(path)] *)
Record estate := EState {
  e_startDot : Z; e_startPart : Z; e_end : Z;
  e_matchedSlash : bool; e_preDotState : Z; e_break : bool }.

Definition estep (p : string) (i : Z) (st : estate) : estate :=
  if e_break st then st
  else
    let code := charAt p i in
    if is_slash code then
      if negb (e_matchedSlash st)
      then EState (e_startDot st) (i + 1) (e_end st)
                  (e_matchedSlash st) (e_preDotState st) true
      else st
    else
      let st1 :=
        if (e_end st =? -1)%Z
        then EState (e_startDot st) (e_startPart st) (i + 1)
                    false (e_preDotState st) false
        else st in
      if is_dot code then
        if (e_startDot st1 =? -1)%Z
        then EState i (e_startPart st1) (e_end st1)
                    (e_matchedSlash st1) (e_preDotState st1) false
        else if negb (e_preDotState st1 =? 1)%Z
        then EState (e_startDot st1) (e_startPart st1) (e_end st1)
                    (e_matchedSlash st1) 1 false
        else st1
      else if negb (e_startDot st1 =? -1)%Z
      then EState (e_startDot st1) (e_startPart st1) (e_end st1)
                  (e_matchedSlash st1) (-1) false
      else st1.

Definition extname (p : string) : string :=
  let st := down (estep p) (String.length p) (EState (-1) 0 (-1) true 0 false) in
  if ((e_startDot st =? -1) || (e_end st =? -1) || (e_preDotState st =? 0)
      || ((e_preDotState st =? 1)
          && (e_startDot st =? e_end st - 1)
          && (e_startDot st =? e_startPart st + 1)))%Z
  then EmptyString
  else slice p (e_startDot st) (e_end st).

(** *** [basename(path, suffix)] *)
Record sstate := SState {
  s_start : Z; s_end : Z; s_matchedSlash : bool;
  s_extIdx : Z; s_firstNonSlashEnd : Z; s_break : bool }.

Definition sstep (p suffix : string) (i : Z) (st : sstate) : sstate :=
  if s_break st then st
  else
    let code := charAt p i in
    if is_slash code then
      if negb (s_matchedSlash st)
      then SState (i + 1) (s_end st) (s_matchedSlash st)
                  (s_extIdx st) (s_firstNonSlashEnd st) true
      else st
    else
      let st1 :=
        if (s_firstNonSlashEnd st =? -1)%Z
        then SState (s_start st) (s_end st) false (s_extIdx st) (i + 1) false
        else st in
      if (0 <=? s_extIdx st1)%Z then
        if bool_decide (code = charAt suffix (s_extIdx st1)) then
          let k := (s_extIdx st1 - 1)%Z in
          if (k =? -1)%Z
          then SState (s_start st1) i (s_matchedSlash st1) k
                      (s_firstNonSlashEnd st1) false
          else SState (s_start st1) (s_end st1) (s_matchedSlash st1) k
                      (s_firstNonSlashEnd st1) false
        else SState (s_start st1) (s_firstNonSlashEnd st1) (s_matchedSlash st1)
                    (-1) (s_firstNonSlashEnd st1) false
      else st1.

Definition basename_suffix (p suffix : string) : string :=
  if ((0 <? len suffix) && (len suffix <=? len p))%Z then
    if bool_decide (suffix = p) then EmptyString
    else
      let st := down (sstep p suffix) (String.length p)
                     (SState 0 (-1) true (len suffix - 1) (-1) false) in
      let e := if (s_start st =? s_end st)%Z then s_firstNonSlashEnd st
               else if (s_end st =? -1)%Z then len p
               else s_end st in
      slice p (s_start st) e
  else basename p.

(** [path.basename(p, path.extname(p))]: the file name without its extension. *)
Definition stem (p : string) : string := basename_suffix p (extname p).

(** *** [dirname(path)] *)
Record dstate := DState { d_end : Z; d_matchedSlash : bool; d_break : bool }.

Definition dstep (p : string) (i : Z) (st : dstate) : dstate :=
  if d_break st then st
  else if is_slash (charAt p i) then
    if negb (d_matchedSlash st) then DState i (d_matchedSlash st) true else st
  else DState (d_end st) false false.

(** [for (i = n - 1; i >= 1; --i)] *)
Fixpoint down1 {S : Type} (step : Z -> S -> S) (n : nat) (st : S) : S :=
  match n with
  | O => st
  | Datatypes.S O => st
  | Datatypes.S k => down1 step k (step (Z.of_nat k) st)
  end.

Definition dirname (p : string) : string :=
  if (len p =? 0)%Z then "."
  else
    let hasRoot := is_slash (charAt p 0) in
    let st := down1 (dstep p) (String.length p) (DState (-1) true false) in
    if (d_end st =? -1)%Z then (if hasRoot then "/" else ".")
    else if hasRoot && (d_end st =? 1)%Z then "//"
    else slice p 0 (d_end st).

(** *** Joining and resolving

    [join] glues its non-empty parts with a slash.  Node also normalises the
    result; here normalisation happens once, in [resolve], which every file-system
    operation applies to the path it is given. *)
Definition nonempty (s : string) : bool :=
  match s with EmptyString => false | _ => true end.

Definition join (parts : list string) : string :=
  match List.filter nonempty parts with
  | [] => "."
  | ps => String.concat "/" ps
  end.

(** The segments of a path text: the pieces between slashes. *)
Fixpoint split_go (cur : string) (p : string) : list string :=
  match p with
  | EmptyString => [cur]
  | String c rest =>
      if is_slash c then cur :: split_go EmptyString rest
      else split_go (cur +:+ String c EmptyString) rest
  end.

Definition split (p : string) : list string := split_go EmptyString p.

(** One segment applied to the stack of segments seen so far. *)
Definition push_segment (stack : list string) (seg : string) : list string :=
  if bool_decide (seg = EmptyString) then stack
  else if bool_decide (seg = ".") then stack
  else if bool_decide (seg = "..") then removelast stack
  else stack ++ [seg].

Definition normalize (segs : list string) : list string :=
  foldl push_segment [] segs.

Definition isAbsolute (p : string) : bool :=
  match p with
  | String c _ => is_slash c
  | EmptyString => false
  end.

(** [path.resolve(p)] as the list of segments of the absolute result, for a
    process whose working directory is [cwd]. *)
Definition resolve (cwd : list string) (p : string) : list string :=
  normalize ((if isAbsolute p then [] else cwd) ++ split p).

(** [path.resolve(base, p)] as text. *)
Definition resolve2 (cwd : list string) (base p : string) : string :=
  "/" +:+ String.concat "/"
    (if isAbsolute p then resolve cwd p
     else normalize (resolve cwd base ++ split p)).

End Path.

(** ** Data model ([types.ts]) *)

Record Config := mkConfig {
  c_author : option string;
  c_language : option string;
  c_publisher : option string;
  c_cover : option string;
  c_outputDir : option string;
  c_title : option string;
  c_description : option string;
  c_rights : option string;
  c_identifier : option string }.

Record EpubMetadata := mkEpubMetadata {
  m_title : string;
  m_author : string;
  m_language : string;
  m_publisher : option string;
  m_description : option string;
  m_rights : option string;
  m_identifier : string;
  m_cover : option string;
  m_createdDate : string }.

Record ImageReference := mkImageReference {
  img_src : string;
  img_resolvedPath : string;
  img_mediaType : string;
  img_id : string }.

Record MarkdownContent := mkMarkdownContent {
  mc_html : string;
  mc_images : list ImageReference;
  mc_title : option string }.

Record Chapter := mkChapter {
  ch_title : string;
  ch_html : string;
  ch_id : string;
  ch_order : nat }.

(** [config?.field]: the field of an optional configuration. *)
Definition cfg {A} (config : option Config) (f : Config -> option A) : option A :=
  match config with
  | Some c => f c
  | None => None
  end.

(** ** XML generators ([epub-generator.ts]) *)

(** [escapeXml]: each of the five special characters is replaced by its entity. *)
Definition escapeXml_char (c : ascii) : string :=
  if bool_decide (c = "&"%char) then "&amp;"
  else if bool_decide (c = "<"%char) then "&lt;"
  else if bool_decide (c = ">"%char) then "&gt;"
  else if bool_decide (c = ascii_of_nat 34) then "&quot;"
  else if bool_decide (c = "'"%char) then "&apos;"
  else String c EmptyString.

Fixpoint escapeXml (text : string) : string :=
  match text with
  | EmptyString => EmptyString
  | String c s => escapeXml_char c +:+ escapeXml s
  end.

Definition getContainerXml : string :=
  "<?xml version=" +:+ q "1.0" +:+ " encoding=" +:+ q "UTF-8" +:+ "?>" +:+ nl +:+
  "<container version=" +:+ q "1.0" +:+ " xmlns="
    +:+ q "urn:oasis:names:tc:opendocument:xmlns:container" +:+ ">" +:+ nl +:+
  "  <rootfiles>" +:+ nl +:+
  "    <rootfile full-path=" +:+ q "OEBPS/content.opf" +:+ " media-type="
    +:+ q "application/oebps-package+xml" +:+ "/>" +:+ nl +:+
  "  </rootfiles>" +:+ nl +:+
  "</container>".

(** One [<item>] of the package manifest, and one [<itemref>] of the spine. *)
Record Item := mkItem {
  item_id : string;
  item_href : string;
  item_mediaType : string }.

Definition renderItem (it : Item) : string :=
  "    <item id=" +:+ q (item_id it) +:+ " href=" +:+ q (item_href it)
    +:+ " media-type=" +:+ q (item_mediaType it) +:+ "/>".

Definition renderItemref (idref : string) : string :=
  "    <itemref idref=" +:+ q idref +:+ "/>".

(** [images.map((img, idx) => ...)]: one manifest item per element of the image list. *)
Definition imageItem (idx : nat) (img : ImageReference) : Item :=
  mkItem ("image-" +:+ show_nat idx)
         ("images/" +:+ Path.basename (img_src img))
         (img_mediaType img).

Definition imageItems (images : list ImageReference) : list Item :=
  imap imageItem images.

Definition imageManifest (images : list ImageReference) : string :=
  join nl (renderItem <$> imageItems images).

(** [metadata.cover ? item + newline : ''] *)
Definition coverItems (metadata : EpubMetadata) : list Item :=
  match m_cover metadata with
  | Some (String c s) =>
      [mkItem "cover-image" ("images/cover" +:+ Path.extname (String c s)) "image/jpeg"]
  | _ => []
  end.

Definition coverItem (metadata : EpubMetadata) : string :=
  match coverItems metadata with
  | it :: _ => renderItem it +:+ nl
  | [] => EmptyString
  end.

Definition ncxItem : Item := mkItem "ncx" "toc.ncx" "application/x-dtbncx+xml".
Definition styleItem : Item := mkItem "style" "css/style.css" "text/css".
Definition contentItem : Item := mkItem "content" "content.xhtml" "application/xhtml+xml".

(** An optional Dublin Core element: present only for a truthy value. *)
Definition optionalElement (tag : string) (v : option string) : string :=
  match v with
  | Some (String c s) =>
      "<" +:+ tag +:+ ">" +:+ escapeXml (String c s) +:+ "</" +:+ tag +:+ ">"
  | _ => EmptyString
  end.

(** The text of both package documents up to and including the opening of the
    manifest; [today] is [new Date().toISOString().split('T')[0]]. *)
Definition opfHead (metadata : EpubMetadata) (today : string) : string :=
  "<?xml version=" +:+ q "1.0" +:+ " encoding=" +:+ q "UTF-8" +:+ "?>" +:+ nl +:+
  "<package xmlns=" +:+ q "http://www.idpf.org/2007/opf" +:+ " version=" +:+ q "3.0"
    +:+ " xml:lang=" +:+ q (m_language metadata)
    +:+ " unique-identifier=" +:+ q "pub-id" +:+ ">" +:+ nl +:+
  "  <metadata xmlns:dc=" +:+ q "http://purl.org/dc/elements/1.1/" +:+ ">" +:+ nl +:+
  "    <dc:identifier id=" +:+ q "pub-id" +:+ ">" +:+ m_identifier metadata
    +:+ "</dc:identifier>" +:+ nl +:+
  "    <dc:title>" +:+ escapeXml (m_title metadata) +:+ "</dc:title>" +:+ nl +:+
  "    <dc:language>" +:+ m_language metadata +:+ "</dc:language>" +:+ nl +:+
  "    <dc:creator>" +:+ escapeXml (m_author metadata) +:+ "</dc:creator>" +:+ nl +:+
  "    " +:+ optionalElement "dc:publisher" (m_publisher metadata) +:+ nl +:+
  "    " +:+ optionalElement "dc:description" (m_description metadata) +:+ nl +:+
  "    " +:+ optionalElement "dc:rights" (m_rights metadata) +:+ nl +:+
  "    <dc:date>" +:+ m_createdDate metadata +:+ "</dc:date>" +:+ nl +:+
  "    <meta property=" +:+ q "dcterms:modified" +:+ ">" +:+ today +:+ "</meta>" +:+ nl +:+
  "  </metadata>" +:+ nl +:+
  "  <manifest>" +:+ nl.

Definition getContentOpf (metadata : EpubMetadata) (images : list ImageReference)
    (today : string) : string :=
  opfHead metadata today +:+
  renderItem ncxItem +:+ nl +:+
  renderItem styleItem +:+ nl +:+
  renderItem contentItem +:+ nl +:+
  coverItem metadata +:+ imageManifest images +:+ nl +:+
  "  </manifest>" +:+ nl +:+
  "  <spine toc=" +:+ q "ncx" +:+ ">" +:+ nl +:+
  renderItemref "content" +:+ nl +:+
  "  </spine>" +:+ nl +:+
  "</package>".

(** The head of both navigation files, up to the opening of the [navMap]. *)
Definition ncxHead (metadata : EpubMetadata) : string :=
  "<?xml version=" +:+ q "1.0" +:+ " encoding=" +:+ q "UTF-8" +:+ "?>" +:+ nl +:+
  "<ncx xmlns=" +:+ q "http://www.daisy.org/z3986/2005/ncx/" +:+ " version="
    +:+ q "2005-1" +:+ ">" +:+ nl +:+
  "  <head>" +:+ nl +:+
  "    <meta name=" +:+ q "dtb:uid" +:+ " content=" +:+ q (m_identifier metadata)
    +:+ "/>" +:+ nl +:+
  "    <meta name=" +:+ q "dtb:depth" +:+ " content=" +:+ q "1" +:+ "/>" +:+ nl +:+
  "    <meta name=" +:+ q "dtb:totalPageCount" +:+ " content=" +:+ q "0" +:+ "/>" +:+ nl +:+
  "    <meta name=" +:+ q "dtb:maxPageNumber" +:+ " content=" +:+ q "0" +:+ "/>" +:+ nl +:+
  "  </head>" +:+ nl +:+
  "  <docTitle>" +:+ nl +:+
  "    <text>" +:+ escapeXml (m_title metadata) +:+ "</text>" +:+ nl +:+
  "  </docTitle>" +:+ nl +:+
  "  <navMap>" +:+ nl.

(** One [<navPoint>]: its 1-based position, its label and its target file. *)
Definition navPoint (n : nat) (label src : string) : string :=
  "    <navPoint id=" +:+ q ("navpoint-" +:+ show_nat n) +:+ " playOrder="
    +:+ q (show_nat n) +:+ ">" +:+ nl +:+
  "      <navLabel>" +:+ nl +:+
  "        <text>" +:+ escapeXml label +:+ "</text>" +:+ nl +:+
  "      </navLabel>" +:+ nl +:+
  "      <content src=" +:+ q src +:+ "/>" +:+ nl +:+
  "    </navPoint>".

Definition getTocNcx (metadata : EpubMetadata) : string :=
  ncxHead metadata +:+
  navPoint 1 (m_title metadata) "content.xhtml" +:+ nl +:+
  "  </navMap>" +:+ nl +:+
  "</ncx>".

Definition chapterItem (chapter : Chapter) : Item :=
  mkItem (ch_id chapter) (ch_id chapter +:+ ".xhtml") "application/xhtml+xml".

Definition chapterManifest (chapters : list Chapter) : string :=
  join nl (renderItem <$> (chapterItem <$> chapters)).

Definition chapterSpine (chapters : list Chapter) : string :=
  join nl (renderItemref <$> (ch_id <$> chapters)).

Definition getMultiChapterContentOpf (metadata : EpubMetadata)
    (images : list ImageReference) (chapters : list Chapter) (today : string) : string :=
  opfHead metadata today +:+
  renderItem ncxItem +:+ nl +:+
  renderItem styleItem +:+ nl +:+
  chapterManifest chapters +:+ nl +:+
  coverItem metadata +:+ imageManifest images +:+ nl +:+
  "  </manifest>" +:+ nl +:+
  "  <spine toc=" +:+ q "ncx" +:+ ">" +:+ nl +:+
  chapterSpine chapters +:+ nl +:+
  "  </spine>" +:+ nl +:+
  "</package>".

Definition navPoints (chapters : list Chapter) : string :=
  join nl (imap (fun idx chapter =>
                   navPoint (idx + 1) (ch_title chapter) (ch_id chapter +:+ ".xhtml"))
                chapters).

Definition getMultiChapterTocNcx (metadata : EpubMetadata) (chapters : list Chapter)
    : string :=
  ncxHead metadata +:+
  navPoints chapters +:+ nl +:+
  "  </navMap>" +:+ nl +:+
  "</ncx>".

Definition getContentXhtml (htmlContent title : string) : string :=
  "<?xml version=" +:+ q "1.0" +:+ " encoding=" +:+ q "UTF-8" +:+ "?>" +:+ nl +:+
  "<!DOCTYPE html>" +:+ nl +:+
  "<html xmlns=" +:+ q "http://www.w3.org/1999/xhtml" +:+ " xmlns:epub="
    +:+ q "http://www.idpf.org/2007/ops" +:+ ">" +:+ nl +:+
  "<head>" +:+ nl +:+
  "  <title>" +:+ escapeXml title +:+ "</title>" +:+ nl +:+
  "  <link rel=" +:+ q "stylesheet" +:+ " type=" +:+ q "text/css" +:+ " href="
    +:+ q "css/style.css" +:+ "/>" +:+ nl +:+
  "</head>" +:+ nl +:+
  "<body>" +:+ nl +:+
  htmlContent +:+ nl +:+
  "</body>" +:+ nl +:+
  "</html>".

(** *** The manifest and the spine as data

    The items the two package documents list, in document order, and the ids their
    spines refer to.  [getContentOpf] and [getMultiChapterContentOpf] render exactly
    these items with [renderItem] and [renderItemref]. *)
Definition manifestItems (metadata : EpubMetadata) (images : list ImageReference)
    : list Item :=
  [ncxItem; styleItem; contentItem] ++ coverItems metadata ++ imageItems images.

Definition spineIdrefs : list string := ["content"].

Definition multiChapterManifestItems (metadata : EpubMetadata)
    (images : list ImageReference) (chapters : list Chapter) : list Item :=
  [ncxItem; styleItem] ++ (chapterItem <$> chapters)
    ++ coverItems metadata ++ imageItems images.

Definition multiChapterSpineIdrefs (chapters : list Chapter) : list string :=
  ch_id <$> chapters.


(** ** The stylesheet ([getEpubCSS]) *)
Definition getEpubCSS : string :=
  "
body {
  font-family: Georgia, serif;
  line-height: 1.6;
  margin: 1em;
  color: #000;
}

h1, h2, h3, h4, h5, h6 {
  font-family: Arial, sans-serif;
  margin-top: 1em;
  margin-bottom: 0.5em;
  page-break-after: avoid;
}

h1 {
  font-size: 2em;
  border-bottom: 1px solid #ccc;
}

h2 {
  font-size: 1.5em;
}

p {
  margin: 0.5em 0;
  text-align: justify;
  text-indent: 1em;
}

p:first-of-type,
h1 + p,
h2 + p,
h3 + p,
h4 + p,
h5 + p,
h6 + p {
  text-indent: 0;
}

img {
  max-width: 100%;
  height: auto;
  display: block;
  margin: 1em auto;
}

code {
  font-family: 'Courier New', monospace;
  background-color: #f4f4f4;
  padding: 0.2em 0.4em;
  border-radius: 3px;
}

pre {
  background-color: #f4f4f4;
  padding: 1em;
  overflow-x: auto;
  border-radius: 5px;
}

pre code {
  background-color: transparent;
  padding: 0;
}

blockquote {
  margin: 1em 2em;
  padding-left: 1em;
  border-left: 3px solid #ccc;
  font-style: italic;
}

ul, ol {
  margin: 0.5em 0;
  padding-left: 2em;
}

table {
  border-collapse: collapse;
  width: 100%;
  margin: 1em 0;
}

th, td {
  border: 1px solid #ddd;
  padding: 0.5em;
  text-align: left;
}

th {
  background-color: #f4f4f4;
  font-weight: bold;
}

.footnote {
  font-size: 0.9em;
  margin-top: 2em;
  padding-top: 0.5em;
  border-top: 1px solid #ccc;
}

a {
  color: #0066cc;
  text-decoration: none;
}

a:hover {
  text-decoration: underline;
}
".

(** ** The environment and the world

    [Env] collects what the program takes from outside: the working directory, the
    tokens [uuidv4] draws, the HTTP(S) servers, the [mime-types] table, the current
    date, the markdown transformer and the byte encoding of an archive.  [World] is
    what the program changes: the file system, the console, and the module-level
    variables of [markdown-parser.ts] with the arrays they point to. *)

Inductive Protocol := Https | Http.

Record Response := mkResponse {
  statusCode : nat;
  location : option string;
  body : string }.

Inductive NetResult :=
| NetError (e : string)
| NetResponse (r : Response).

(** What [marked] hands to the renderer, in document order: finished HTML text, an
    image node (href, title, alternative text) or a horizontal rule. *)
Inductive MdNode :=
| MdHtml (html : string)
| MdImage (href : string) (title : option string) (text : string)
| MdHr.

Inductive Method := Stored | Deflated.

Record ZipEntry := mkZipEntry {
  ze_name : string;
  ze_method : Method;
  ze_data : string }.

Inductive Node :=
| File (content : string)
| Dir.

(** The options of [archiver('zip', ...)] and the data object of one entry. *)
Record ArchiverOptions := mkArchiverOptions {
  ao_store : option bool;
  ao_zlib_level : option nat }.

Record EntryData := mkEntryData {
  ed_name : string;
  ed_store : option bool }.

Inductive LogLine :=
| Log (s : string)
| Warn (s : string).

Record Env := mkEnv {
  env_cwd : list string;
  env_uuidv4 : nat -> string;
  env_get : Protocol -> string -> NetResult;
  env_mime_lookup : string -> option string;
  env_today : string;
  env_marked : string -> list MdNode;
  env_zip : list ZipEntry -> string }.

Record World := mkWorld {
  w_fs : gmap (list string) Node;
  w_uuids : nat;
  w_console : list LogLine;
  w_heap : gmap nat (list ImageReference);
  w_parsedImages : nat;
  w_currentBaseDir : string;
  w_markedConfigured : bool;
  w_extensions : list string;
  w_renderers : nat }.

Definition set_fs (f : gmap (list string) Node -> gmap (list string) Node) (w : World)
    : World :=
  mkWorld (f (w_fs w)) (w_uuids w) (w_console w) (w_heap w) (w_parsedImages w)
          (w_currentBaseDir w) (w_markedConfigured w) (w_extensions w) (w_renderers w).

Definition add_console (l : LogLine) (w : World) : World :=
  mkWorld (w_fs w) (w_uuids w) (w_console w ++ [l]) (w_heap w) (w_parsedImages w)
          (w_currentBaseDir w) (w_markedConfigured w) (w_extensions w) (w_renderers w).

(** ** Promises

    An awaited call returns, throws, or never settles. *)
Inductive Outcome (A : Type) :=
| Returned (a : A)
| Thrown (e : string)
| Pending.
Arguments Returned {A} a.
Arguments Thrown {A} e.
Arguments Pending {A}.

Definition M (A : Type) : Type := World -> Outcome A * World.

#[global] Instance M_ret : MRet M := fun A a w => (Returned a, w).

#[global] Instance M_bind : MBind M := fun A B f m w =>
  match m w with
  | (Returned a, w') => f a w'
  | (Thrown e, w') => (Thrown e, w')
  | (Pending, w') => (Pending, w')
  end.

Definition throw {A} (e : string) : M A := fun w => (Thrown e, w).
Definition pending {A} : M A := fun w => (Pending, w).

(** [try { body } catch (error) { handler(error) }] *)
Definition try_catch {A} (body : M A) (handler : string -> M A) : M A := fun w =>
  match body w with
  | (Thrown e, w') => handler e w'
  | r => r
  end.

Definition console_log (s : string) : M unit := fun w => (Returned tt, add_console (Log s) w).
Definition console_warn (s : string) : M unit := fun w => (Returned tt, add_console (Warn s) w).

(** [for (const x of xs) { body(x) }] *)
Fixpoint for_of {A} (xs : list A) (body : A -> M unit) : M unit :=
  match xs with
  | [] => mret tt
  | x :: rest => body x ≫= fun _ => for_of rest body
  end.

Section Program.

Variable env : Env.

(** ** The file system ([fs.promises]) *)

Definition key (p : string) : list string := Path.resolve (env_cwd env) p.

(** The root always is a directory. *)
Definition is_dir (fs : gmap (list string) Node) (k : list string) : bool :=
  match k with
  | [] => true
  | _ => match fs !! k with Some Dir => true | _ => false end
  end.

Definition is_file (fs : gmap (list string) Node) (k : list string) : bool :=
  match fs !! k with Some (File _) => true | _ => false end.

(** The non-empty prefixes of a key: the directories [mkdir -p] walks through. *)
Definition prefixes (k : list string) : list (list string) :=
  (fun n => take n k) <$> seq 1 (length k).

(** [fs.promises.mkdir(p, { recursive: true })] *)
Definition mkdir (p : string) : M unit := fun w =>
  let ks := prefixes (key p) in
  if is_file (w_fs w) (key p) then (Thrown "EEXIST", w)
  else if existsb (is_file (w_fs w)) ks then (Thrown "ENOTDIR", w)
  else (Returned tt, set_fs (fun fs => foldr (fun k m => <[k := Dir]> m) fs ks) w).

(** A file can be written at [k] when [k] is not a directory and its parent is one. *)
Definition writable (fs : gmap (list string) Node) (k : list string) : bool :=
  negb (is_dir fs k) && is_dir fs (removelast k).

(** [fs.promises.writeFile(p, data, 'utf-8')] *)
Definition writeFile (p data : string) : M unit := fun w =>
  let k := key p in
  if writable (w_fs w) k
  then (Returned tt, set_fs (insert k (File data)) w)
  else if is_dir (w_fs w) k then (Thrown "EISDIR", w)
  else (Thrown "ENOENT", w).

(** [fs.promises.copyFile(src, dest)] *)
Definition copyFile (src dest : string) : M unit := fun w =>
  match w_fs w !! key src with
  | Some (File data) => writeFile dest data w
  | _ => (Thrown "ENOENT", w)
  end.

(** [fs.promises.readFile(p, 'utf-8')] *)
Definition readFile (p : string) : M string := fun w =>
  match w_fs w !! key p with
  | Some (File data) => (Returned data, w)
  | _ => (Thrown "ENOENT", w)
  end.

(** [fs.promises.rm(p, { recursive: true, force: true })]: [p] and everything
    below it disappear; a missing [p] is not an error. *)
Definition rm (p : string) : M unit := fun w =>
  (Returned tt,
   set_fs (filter (fun kv => ¬ key p `prefix_of` kv.1)) w).

Definition uuid : M string := fun w =>
  (Returned (env_uuidv4 env (w_uuids w)),
   mkWorld (w_fs w) (S (w_uuids w)) (w_console w) (w_heap w) (w_parsedImages w)
           (w_currentBaseDir w) (w_markedConfigured w) (w_extensions w)
           (w_renderers w)).

(** ** [downloadImage]

    [fuel] bounds the number of requests; a chain of redirects that outlasts it
    leaves the promise unsettled. *)
Fixpoint downloadImage (fuel : nat) (url destPath : string) : M unit :=
  match fuel with
  | O => pending
  | S fuel' =>
      let protocol := if startsWith url "https" then Https else Http in
      match env_get env protocol url with
      | NetError e => throw e
      | NetResponse response =>
          let redirect :=
            (Nat.eqb (statusCode response) 301 || Nat.eqb (statusCode response) 302)
            && truthy (location response) in
          if redirect
          then downloadImage fuel' (or_else (location response) EmptyString) destPath
          else if negb (Nat.eqb (statusCode response) 200)
          then throw ("Failed to download image: " +:+ show_nat (statusCode response))
          else writeFile destPath (body response)
      end
  end.

Variable fuel : nat.

(** ** Staging ([createEpubStructure], [createMultiChapterEpubStructure]) *)

Definition is_remote (resolvedPath : string) : bool :=
  startsWith resolvedPath "http://" || startsWith resolvedPath "https://".

(** The body of the loop over the images, with its [try]/[catch]. *)
Definition stageImage (tempDir : string) (image : ImageReference) : M unit :=
  try_catch
    (let destPath :=
       Path.join [tempDir; "OEBPS"; "images"; Path.basename (img_src image)] in
     if is_remote (img_resolvedPath image)
     then console_log ("Downloading image: " +:+ img_src image);;
          downloadImage fuel (img_resolvedPath image) destPath
     else copyFile (img_resolvedPath image) destPath)
    (fun error =>
       console_warn ("Warning: Could not process image " +:+ img_src image
                       +:+ ": " +:+ error)).

(** [if (metadata.cover) { try { copy } catch { warn } }] *)
Definition stageCover (tempDir : string) (metadata : EpubMetadata) : M unit :=
  match m_cover metadata with
  | Some (String c s) =>
      let cover := String c s in
      try_catch
        (let coverDest :=
           Path.join [tempDir; "OEBPS"; "images"; "cover" +:+ Path.extname cover] in
         copyFile cover coverDest)
        (fun error => console_warn ("Warning: Could not copy cover image: " +:+ error))
  | _ => mret tt
  end.

Definition makeDirectories (tempDir : string) : M unit :=
  mkdir tempDir;;
  mkdir (Path.join [tempDir; "META-INF"]);;
  mkdir (Path.join [tempDir; "OEBPS"]);;
  mkdir (Path.join [tempDir; "OEBPS"; "images"]);;
  mkdir (Path.join [tempDir; "OEBPS"; "css"]).

Definition createEpubStructure (tempDir htmlContent : string)
    (metadata : EpubMetadata) (images : list ImageReference) : M unit :=
  makeDirectories tempDir;;
  writeFile (Path.join [tempDir; "mimetype"]) "application/epub+zip";;
  writeFile (Path.join [tempDir; "META-INF"; "container.xml"]) getContainerXml;;
  writeFile (Path.join [tempDir; "OEBPS"; "content.opf"])
            (getContentOpf metadata images (env_today env));;
  writeFile (Path.join [tempDir; "OEBPS"; "toc.ncx"]) (getTocNcx metadata);;
  writeFile (Path.join [tempDir; "OEBPS"; "content.xhtml"])
            (getContentXhtml htmlContent (m_title metadata));;
  writeFile (Path.join [tempDir; "OEBPS"; "css"; "style.css"]) getEpubCSS;;
  for_of images (stageImage tempDir);;
  stageCover tempDir metadata.

Definition createMultiChapterEpubStructure (tempDir : string)
    (chapters : list Chapter) (metadata : EpubMetadata)
    (images : list ImageReference) : M unit :=
  makeDirectories tempDir;;
  writeFile (Path.join [tempDir; "mimetype"]) "application/epub+zip";;
  writeFile (Path.join [tempDir; "META-INF"; "container.xml"]) getContainerXml;;
  writeFile (Path.join [tempDir; "OEBPS"; "content.opf"])
            (getMultiChapterContentOpf metadata images chapters (env_today env));;
  writeFile (Path.join [tempDir; "OEBPS"; "toc.ncx"])
            (getMultiChapterTocNcx metadata chapters);;
  for_of chapters (fun chapter =>
    writeFile (Path.join [tempDir; "OEBPS"; ch_id chapter +:+ ".xhtml"])
              (getContentXhtml (ch_html chapter) (ch_title chapter)));;
  writeFile (Path.join [tempDir; "OEBPS"; "css"; "style.css"]) getEpubCSS;;
  for_of images (stageImage tempDir);;
  stageCover tempDir metadata.

(** ** The archive ([createEpubArchive])

    [archiver('zip', { zlib: { level: 9 } })] and the data object given with each
    entry decide the compression method: an entry is stored when its own [store]
    is true; an entry that names no [store] inherits the archive's, which is true
    only when asked for or when the zlib level is 0. *)
Definition entryMethod (opts : ArchiverOptions) (data : EntryData) : Method :=
  let archiveStore :=
    match ao_store opts with Some b => b | None => false end
    || match ao_zlib_level opts with Some O => true | _ => false end in
  if match ed_store data with Some b => b | None => archiveStore end
  then Stored else Deflated.

(** [archiver('zip', { zlib: { level: 9 } })] *)
Definition zipOptions : ArchiverOptions := mkArchiverOptions None (Some 9).

(** [archive.append(stream, { name: 'mimetype' })] *)
Definition mimetypeData : EntryData := mkEntryData "mimetype" None.

(** [archive.directory(dirpath, destpath)]: every file below [dirpath], named by
    [destpath] and its path relative to [dirpath]. *)
Definition directoryEntry (dirpath destpath : string) (kv : list string * Node)
    : option ZipEntry :=
  match kv.2 with
  | File data =>
      if bool_decide (key dirpath `prefix_of` kv.1)
      then
        let name :=
          String.concat "/" (destpath :: drop (length (key dirpath)) kv.1) in
        Some (mkZipEntry name (entryMethod zipOptions (mkEntryData name None)) data)
      else None
  | Dir => None
  end.

Definition directoryEntries (fs : gmap (list string) Node) (dirpath destpath : string)
    : list ZipEntry :=
  omap (directoryEntry dirpath destpath) (map_to_list fs).

(** The entries in the order the calls queue them: the marker file, then the two
    directories (the order of the files inside a directory plays no role below). *)
Definition archiveEntries (fs : gmap (list string) Node) (tempDir mimetype : string)
    : list ZipEntry :=
  mkZipEntry (ed_name mimetypeData) (entryMethod zipOptions mimetypeData) mimetype
  :: directoryEntries fs (Path.join [tempDir; "META-INF"]) "META-INF"
  ++ directoryEntries fs (Path.join [tempDir; "OEBPS"]) "OEBPS".

(** The promise resolves on the output's [close] and rejects on the archive's
    [error]; an [error] of the output stream itself has no listener, so when the
    output cannot be opened the promise is never settled. *)
Definition createEpubArchive (tempDir outputPath : string) : M unit := fun w =>
  if negb (writable (w_fs w) (key outputPath)) then (Pending, w)
  else
    match w_fs w !! key (Path.join [tempDir; "mimetype"]) with
    | Some (File mimetype) =>
        let entries := archiveEntries (w_fs w) tempDir mimetype in
        (Returned tt,
         set_fs (insert (key outputPath) (File (env_zip env entries))) w)
    | _ =>
        (Thrown "ENOENT",
         set_fs (insert (key outputPath) (File EmptyString)) w)
    end.

(** ** [generateEpub], [generateMultiChapterEpub] *)

Definition stagingDir (outputPath token : string) : string :=
  Path.join [Path.dirname outputPath; ".epub-temp-" +:+ token].

Definition generateEpub (htmlContent : string) (metadata : EpubMetadata)
    (images : list ImageReference) (outputPath : string) : M unit :=
  token ← uuid;
  let tempDir := stagingDir outputPath token in
  try_catch
    (createEpubStructure tempDir htmlContent metadata images;;
     createEpubArchive tempDir outputPath;;
     rm tempDir)
    (fun error =>
       try_catch (rm tempDir) (fun _ => mret tt);;
       throw error).

Definition generateMultiChapterEpub (chapters : list Chapter)
    (metadata : EpubMetadata) (images : list ImageReference)
    (outputPath : string) : M unit :=
  token ← uuid;
  let tempDir := stagingDir outputPath token in
  try_catch
    (createMultiChapterEpubStructure tempDir chapters metadata images;;
     createEpubArchive tempDir outputPath;;
     rm tempDir)
    (fun error =>
       try_catch (rm tempDir) (fun _ => mret tt);;
       throw error).

End Program.

(** ** The footnote extensions ([configureMarked])

    Regular expressions are written out as matchers on the remaining source text.
    A string is a sequence of bytes; [\s] is taken on its ASCII part. *)
Module Footnote.

Definition is_space (c : ascii) : bool :=
  let n := nat_of_ascii c in
  (Nat.leb 9 n && Nat.leb n 13) || Nat.eqb n 32.

Definition is_line_terminator (c : ascii) : bool :=
  let n := nat_of_ascii c in Nat.eqb n 10 || Nat.eqb n 13.

Definition rbracket : ascii := "]"%char.

Fixpoint drop_str (n : nat) (s : string) : string :=
  match n, s with
  | O, _ => s
  | S k, String _ rest => drop_str k rest
  | S _, EmptyString => EmptyString
  end.

(** Length of the longest prefix whose characters satisfy [p]. *)
Fixpoint span (p : ascii -> bool) (s : string) : nat :=
  match s with
  | String c rest => if p c then S (span p rest) else O
  | EmptyString => O
  end.

(** [String.prototype.trim] *)
Definition trim_left (s : string) : string := drop_str (span is_space s) s.

Fixpoint trim_right (s : string) : string :=
  match s with
  | EmptyString => EmptyString
  | String c rest =>
      match trim_right rest with
      | EmptyString => if is_space c then EmptyString else String c EmptyString
      | r => String c r
      end
  end.

Definition trim (s : string) : string := trim_right (trim_left s).

(** [\[\^([^\]]+)\]] at the start of [src]: the captured id and what follows the
    closing bracket. *)
Definition marker (src : string) : option (string * string) :=
  match src with
  | String "[" (String "^" rest) =>
      let n := span (fun c => negb (bool_decide (c = rbracket))) rest in
      match n, drop_str n rest with
      | S _, String _ after => Some (substring 0 n rest, after)
      | _, _ => None
      end
  | _ => None
  end.

(** The lookahead [(?=\n\n|\n\[\^|$)]. *)
Definition definition_ends (s : string) : bool :=
  match s with
  | EmptyString => true
  | _ => String.prefix (nl +:+ nl) s || String.prefix (nl +:+ "[^") s
  end.

(** The lazy [(.+?)] before that lookahead: the least number of characters, at
    least one, after which the lookahead holds. *)
Fixpoint lazy_text (s : string) : nat :=
  match s with
  | EmptyString => O
  | String _ rest => if definition_ends rest then 1 else S (lazy_text rest)
  end.

Record FootnoteToken := mkFootnoteToken {
  ft_raw : string; ft_id : string; ft_text : string }.

Record FootnoteRefToken := mkFootnoteRefToken {
  fr_raw : string; fr_id : string }.

(** [footnoteExtension.start]: the pattern is anchored, so the index is 0 or
    there is none. *)
Definition footnote_start (src : string) : option nat :=
  match marker src with
  | Some (_, String ":" _) => Some O
  | _ => None
  end.

(** [footnoteExtension.tokenizer]:
    [/^\[\^([^\]]+)\]:\s*(.+?)(?=\n\n|\n\[\^|$)/s] *)
Definition footnote_tokenizer (src : string) : option FootnoteToken :=
  match marker src with
  | Some (id, String ":" rest) =>
      let k := span is_space rest in
      let j := match drop_str k rest with
               | EmptyString => Nat.pred k
               | _ => k
               end in
      match drop_str j rest with
      | EmptyString => None
      | after =>
          let text := substring 0 (lazy_text after) after in
          let raw := "[^" +:+ id +:+ "]:" +:+ substring 0 j rest +:+ text in
          Some (mkFootnoteToken raw id (trim text))
      end
  | _ => None
  end.

Definition footnote_renderer (token : FootnoteToken) : string :=
  "<div class=" +:+ q "footnote" +:+ " id=" +:+ q ("fn-" +:+ ft_id token) +:+ ">" +:+ nl +:+
  "        <sup>" +:+ ft_id token +:+ "</sup> " +:+ ft_text token +:+ nl +:+
  "      </div>" +:+ nl.

(** [footnoteRefExtension.tokenizer]: [/^\[\^([^\]]+)\](?!:)/] *)
Definition footnoteRef_tokenizer (src : string) : option FootnoteRefToken :=
  match marker src with
  | Some (_, String ":" _) => None
  | Some (id, _) => Some (mkFootnoteRefToken ("[^" +:+ id +:+ "]") id)
  | None => None
  end.

(** [footnoteRefExtension.start]: the index of the first match in [src]. *)
Fixpoint footnoteRef_start (src : string) : option nat :=
  match footnoteRef_tokenizer src with
  | Some _ => Some O
  | None =>
      match src with
      | EmptyString => None
      | String _ rest => S <$> footnoteRef_start rest
      end
  end.

Definition footnoteRef_renderer (token : FootnoteRefToken) : string :=
  "<sup><a href=" +:+ q ("#fn-" +:+ fr_id token) +:+ " id="
    +:+ q ("ref-" +:+ fr_id token) +:+ ">" +:+ fr_id token +:+ "</a></sup>".

End Footnote.

(** ** The transformer on the footnote fragment

    [marked] itself is a library; what follows is its lexing loop restricted to
    documents made of blank lines, footnote definitions and one-line paragraphs of
    plain characters (letters, digits, spaces, commas) and footnote references.
    At each block position the block extension is tried first, then blank lines,
    then a paragraph; at each inline position the inline extension is tried first,
    then text.  A document that leaves the fragment is answered by [None]. *)
Module Marked.
Import Footnote.

Inductive InlineToken :=
| TText (text : string)
| TFootnoteRef (token : FootnoteRefToken).

Inductive BlockToken :=
| TSpace (raw : string)
| TParagraph (raw : string) (tokens : list InlineToken)
| TFootnote (token : FootnoteToken).

Definition is_letter (c : ascii) : bool :=
  let n := nat_of_ascii c in
  (Nat.leb 65 n && Nat.leb n 90) || (Nat.leb 97 n && Nat.leb n 122).

Definition is_plain (c : ascii) : bool :=
  let n := nat_of_ascii c in
  is_letter c || (Nat.leb 48 n && Nat.leb n 57) || Nat.eqb n 32 || Nat.eqb n 44.

Definition is_newline (c : ascii) : bool := Nat.eqb (nat_of_ascii c) 10.

Fixpoint inlineTokens (fuel : nat) (src : string) : option (list InlineToken) :=
  match src with
  | EmptyString => Some []
  | _ =>
      match fuel with
      | O => None
      | S fuel' =>
          match footnoteRef_tokenizer src with
          | Some token =>
              cons (TFootnoteRef token)
                <$> inlineTokens fuel' (drop_str (String.length (fr_raw token)) src)
          | None =>
              match span is_plain src with
              | O => None
              | n => cons (TText (substring 0 n src))
                       <$> inlineTokens fuel' (drop_str n src)
              end
          end
      end
  end.

(** The paragraph rule sees [src] clipped at the next start of a block extension,
    searched from the second character on. *)
Definition clip (src : string) : string :=
  match footnote_start (drop_str 1 src) with
  | Some i => substring 0 (i + 1) src
  | None => src
  end.

(** A one-line paragraph: it starts with a letter and is followed by the end of
    the text or by a blank line. *)
Definition paragraph (src : string) : option string :=
  match src with
  | String c _ =>
      if is_letter c then
        let cutSrc := clip src in
        let n := span (fun c => negb (is_newline c)) cutSrc in
        match drop_str n cutSrc with
        | EmptyString => Some (substring 0 n cutSrc)
        | String _ EmptyString => Some (substring 0 n cutSrc)
        | String _ (String c2 _) =>
            if is_newline c2 then Some (substring 0 n cutSrc) else None
        end
      else None
  | EmptyString => None
  end.

Fixpoint blockTokens (fuel : nat) (src : string) : option (list BlockToken) :=
  match src with
  | EmptyString => Some []
  | String c _ =>
      match fuel with
      | O => None
      | S fuel' =>
          match footnote_tokenizer src with
          | Some token =>
              cons (TFootnote token)
                <$> blockTokens fuel' (drop_str (String.length (ft_raw token)) src)
          | None =>
              if is_newline c then
                let n := span is_newline src in
                cons (TSpace (substring 0 n src))
                  <$> blockTokens fuel' (drop_str n src)
              else
                raw ← paragraph src;
                tokens ← inlineTokens (String.length raw) raw;
                cons (TParagraph raw tokens)
                  <$> blockTokens fuel' (drop_str (String.length raw) src)
          end
      end
  end.

Definition lex (src : string) : option (list BlockToken) :=
  blockTokens (String.length src) src.

(** *** Rendering *)
Definition renderInline (t : InlineToken) : string :=
  match t with
  | TText text => text
  | TFootnoteRef token => footnoteRef_renderer token
  end.

Definition renderBlock (t : BlockToken) : string :=
  match t with
  | TSpace _ => EmptyString
  | TParagraph _ tokens =>
      "<p>" +:+ String.concat EmptyString (renderInline <$> tokens) +:+ "</p>" +:+ nl
  | TFootnote token => footnote_renderer token
  end.

Definition render (tokens : list BlockToken) : string :=
  String.concat EmptyString (renderBlock <$> tokens).

(** [marked.parse] on the fragment. *)
Definition parse (src : string) : option string := render <$> lex src.

(** *** The output as a sequence of tags and text

    The same output cut into pieces, so that elements and attributes can be
    counted; [serialize] gives the text back. *)
Inductive Piece :=
| PText (text : string)
| POpen (tag : string) (attrs : list (string * string))
| PClose (tag : string).




Definition footnote_pieces (token : FootnoteToken) : list Piece :=
  [ POpen "div" [("class", "footnote"); ("id", "fn-" +:+ ft_id token)];
    PText (nl +:+ "        ");
    POpen "sup" [];
    PText (ft_id token);
    PClose "sup";
    PText (" " +:+ ft_text token +:+ nl +:+ "      ");
    PClose "div";
    PText nl ].






(** A link whose target is [#fn-x]. *)
Definition is_link (x : string) (p : Piece) : bool :=
  match p with
  | POpen tag attrs => bool_decide (tag = "a") && bool_decide (("href", "#fn-" +:+ x) ∈ attrs)
  | _ => false
  end.


Definition links (x : string) (ps : list Piece) : nat :=
  length (List.filter (is_link x) ps).


(** The tokens of a document that define, and that refer to, the footnote [x]. *)
Definition is_definition (x : string) (t : BlockToken) : bool :=
  match t with
  | TFootnote token => bool_decide (ft_id token = x)
  | _ => false
  end.

Definition is_reference (x : string) (t : InlineToken) : bool :=
  match t with
  | TFootnoteRef token => bool_decide (fr_id token = x)
  | _ => false
  end.

Definition definitions (x : string) (tokens : list BlockToken) : nat :=
  length (List.filter (is_definition x) tokens).

Definition inlineOf (t : BlockToken) : list InlineToken :=
  match t with
  | TParagraph _ tokens => tokens
  | _ => []
  end.

Definition references (x : string) (tokens : list BlockToken) : nat :=
  length (List.filter (is_reference x) (concat (inlineOf <$> tokens))).

End Marked.

(** ** The parser ([markdown-parser.ts]) *)

(** [escapeHtml] *)
Definition escapeHtml_char (c : ascii) : string :=
  if bool_decide (c = "&"%char) then "&amp;"
  else if bool_decide (c = "<"%char) then "&lt;"
  else if bool_decide (c = ">"%char) then "&gt;"
  else if bool_decide (c = ascii_of_nat 34) then "&quot;"
  else if bool_decide (c = "'"%char) then "&#039;"
  else String c EmptyString.

Fixpoint escapeHtml (text : string) : string :=
  match text with
  | EmptyString => EmptyString
  | String c s => escapeHtml_char c +:+ escapeHtml s
  end.

(** [extractTitle]: [/^#\s+(.+)$/m].  At the start of a line: a hash, white space
    (as much as leaves something on a line for the group), then the rest of that
    line. *)
Module Title.
Import Footnote.

(** The group for [\s+] taking [j] characters of [rest], tried from [j] down
    to 1: it needs a first character that does not end the line. *)
Fixpoint heading_from (j : nat) (rest : string) : option string :=
  match j with
  | O => None
  | S j' =>
      match drop_str j rest with
      | String c tail =>
          if is_line_terminator c then heading_from j' rest
          else
            let line := String c tail in
            Some (substring 0 (span (fun c => negb (is_line_terminator c)) line) line)
      | EmptyString => heading_from j' rest
      end
  end.

Definition heading_here (s : string) : option string :=
  match s with
  | String "#" rest => heading_from (span is_space rest) rest
  | _ => None
  end.

Fixpoint scan (line_start : bool) (s : string) : option string :=
  match (if line_start then heading_here s else None) with
  | Some t => Some t
  | None =>
      match s with
      | EmptyString => None
      | String c rest => scan (is_line_terminator c) rest
      end
  end.

Definition extractTitle (markdownText : string) : option string :=
  scan true markdownText.
End Title.

(** What [parseMarkdown] returns: [images] is a reference to the array the parser
    filled, not a copy of it. *)
Record ParsedRef := mkParsedRef {
  pr_html : string;
  pr_images : nat;
  pr_title : option string }.

Record ConversionOptions := mkConversionOptions {
  o_inputPath : string;
  o_outputPath : option string;
  o_config : option Config }.

(** ** The chapter loop of [convertMarkdownFilesToChapters], one step at a time *)

(** [if (!seenImages.has(imageKey)) { seenImages.add(imageKey); allImages.push(image) }] *)
Definition collectImage (acc : gset string * list ImageReference)
    (image : ImageReference) : gset string * list ImageReference :=
  let imageKey := Path.basename (img_src image) in
  if bool_decide (imageKey ∈ acc.1) then acc
  else ({[imageKey]} ∪ acc.1, (acc.2 ++ [image])%list).

Definition collectImages (acc : gset string * list ImageReference)
    (images : list ImageReference) : gset string * list ImageReference :=
  foldl collectImage acc images.

Record ChapterState := mkChapterState {
  cs_chapters : list Chapter;
  cs_allImages : list ImageReference;
  cs_seenImages : gset string }.

Definition initialChapterState : ChapterState := mkChapterState [] [] ∅.

(** The body of the loop for the document at index [i]. *)
Definition chapterStep (i : nat) (inputPath : string) (doc : MarkdownContent)
    (st : ChapterState) : ChapterState :=
  let chapterTitle := or_else (mc_title doc) (Path.stem inputPath) in
  let chapter :=
    mkChapter chapterTitle (mc_html doc) ("chapter-" +:+ show_nat (i + 1)) (i + 1) in
  let acc := collectImages (cs_seenImages st, cs_allImages st) (mc_images doc) in
  mkChapterState (cs_chapters st ++ [chapter])%list acc.2 acc.1.

(** The loop over already parsed documents, from index [i] on. *)
Fixpoint chapterSteps (i : nat) (docs : list (string * MarkdownContent))
    (st : ChapterState) : ChapterState :=
  match docs with
  | [] => st
  | (inputPath, doc) :: rest => chapterSteps (S i) rest (chapterStep i inputPath doc st)
  end.


(** [config?.title || title || path.basename(inputPath, path.extname(inputPath))] *)
Definition documentTitle (config : option Config) (title : option string)
    (inputPath : string) : string :=
  or_else (cfg config c_title) (or_else title (Path.stem inputPath)).

(** The metadata literal both drivers build, given its title and identifier. *)
Definition prepareMetadata (config : option Config) (title identifier today : string)
    : EpubMetadata :=
  mkEpubMetadata
    title
    (or_else (cfg config c_author) "Unknown Author")
    (or_else (cfg config c_language) "en")
    (cfg config c_publisher)
    (cfg config c_description)
    (Some (or_else (cfg config c_rights) "All rights reserved"))
    identifier
    (cfg config c_cover)
    today.

Section Converter.

Variable env : Env.
Variable fuel : nat.

Definition set_parser (loc : nat) (images : list ImageReference) (baseDir : string)
    (w : World) : World :=
  mkWorld (w_fs w) (w_uuids w) (w_console w) (<[loc := images]> (w_heap w)) loc
          baseDir (w_markedConfigured w) (w_extensions w) (w_renderers w).

(** [parsedImages = []; currentBaseDir = baseDir;]: a new, empty array. *)
Definition resetState (baseDir : string) : M unit := fun w =>
  (Returned tt, set_parser (fresh (dom (w_heap w))) [] baseDir w).

(** [parsedImages.push(image)]: the array the variable points to grows. *)
Definition pushImage (image : ImageReference) : M unit := fun w =>
  let loc := w_parsedImages w in
  (Returned tt,
   set_parser loc (default [] (w_heap w !! loc) ++ [image])%list (w_currentBaseDir w) w).

(** The array the variable [parsedImages] points to at this moment. *)
Definition currentArray : M nat := fun w => (Returned (w_parsedImages w), w).

Definition readArray (loc : nat) : M (list ImageReference) := fun w =>
  (Returned (default [] (w_heap w !! loc)), w).

Definition configureMarked : M unit := fun w =>
  if w_markedConfigured w then (Returned tt, w)
  else
    (Returned tt,
     mkWorld (w_fs w) (w_uuids w) (w_console w) (w_heap w) (w_parsedImages w)
             (w_currentBaseDir w) true
             (w_extensions w ++ ["footnote"; "footnoteRef"])%list (w_renderers w)).

(** [marked.use({ renderer: { image, hr } })] *)
Definition useRenderer : M unit := fun w =>
  (Returned tt,
   mkWorld (w_fs w) (w_uuids w) (w_console w) (w_heap w) (w_parsedImages w)
           (w_currentBaseDir w) (w_markedConfigured w) (w_extensions w)
           (S (w_renderers w))).

Definition customImageRenderer (href : string) (title : option string)
    (text : string) : M string := fun w =>
  let resolvedPath :=
    if negb (startsWith href "http://") && negb (startsWith href "https://")
    then Path.resolve2 (env_cwd env) (w_currentBaseDir w) href
    else href in
  (token ← uuid env;
   let id := "img-" +:+ token in
   let mediaType := or_else (env_mime_lookup env href) "image/jpeg" in
   pushImage (mkImageReference href resolvedPath mediaType id);;
   let titleAttr :=
     match title with
     | Some (String c s) => " title=" +:+ q (escapeHtml (String c s))
     | _ => EmptyString
     end in
   let altAttr := " alt=" +:+ q (escapeHtml text) in
   mret ("<img src=" +:+ q ("images/" +:+ Path.basename href)
           +:+ altAttr +:+ titleAttr +:+ " />")) w.

(** [marked.parse]: the output is the text of the nodes in order, each image
    node through the image hook and each rule through the [hr] hook. *)
Definition renderNode (n : MdNode) : M string :=
  match n with
  | MdHtml html => mret html
  | MdImage href title text => customImageRenderer href title text
  | MdHr => mret "<hr />"
  end.

Fixpoint renderNodes (ns : list MdNode) : M string :=
  match ns with
  | [] => mret EmptyString
  | n :: rest =>
      h ← renderNode n;
      t ← renderNodes rest;
      mret (h +:+ t)
  end.

Definition parseMarkdown (filePath : string) : M ParsedRef :=
  markdownText ← readFile env filePath;
  let baseDir := Path.dirname filePath in
  resetState baseDir;;
  configureMarked;;
  useRenderer;;
  html ← renderNodes (env_marked env markdownText);
  let title := Title.extractTitle markdownText in
  images ← currentArray;
  mret (mkParsedRef html images title).

(** The destructured result: the array is read through its reference. *)
Definition parseDocument (filePath : string) : M MarkdownContent :=
  parsed ← parseMarkdown filePath;
  images ← readArray (pr_images parsed);
  mret (mkMarkdownContent (pr_html parsed) images (pr_title parsed)).

(** ** The drivers ([converter.ts]) *)

Definition existsSync (p : string) : M bool := fun w =>
  (Returned (bool_decide (is_Some (w_fs w !! key env p)) || bool_decide (key env p = [])), w).

(** [config?.identifier || `urn:uuid:${uuidv4()}`] *)
Definition identifierOf (config : option Config) : M string :=
  match cfg config c_identifier with
  | Some (String c s) => mret (String c s)
  | _ => token ← uuid env; mret ("urn:uuid:" +:+ token)
  end.

Definition convertMarkdownToEpub (options : ConversionOptions) : M string :=
  let inputPath := o_inputPath options in
  let config := o_config options in
  found ← existsSync inputPath;
  if negb found then throw ("Input file not found: " +:+ inputPath)
  else
    console_log ("Parsing markdown file: " +:+ inputPath);;
    doc ← parseDocument inputPath;
    let finalOutputPath :=
      or_else (o_outputPath options)
        (Path.join [or_else (cfg config c_outputDir) "./output";
                    Path.stem inputPath +:+ ".epub"]) in
    let outputDir := Path.dirname finalOutputPath in
    mkdir env outputDir;;
    identifier ← identifierOf config;
    let metadata :=
      prepareMetadata config (documentTitle config (mc_title doc) inputPath)
                      identifier (env_today env) in
    console_log ("Generating EPUB: " +:+ finalOutputPath);;
    generateEpub env fuel (mc_html doc) metadata (mc_images doc) finalOutputPath;;
    console_log ("✓ Successfully created: " +:+ finalOutputPath);;
    mret finalOutputPath.

(** The loop that parses each input and feeds [chapterStep]. *)
Fixpoint parseChapters (i : nat) (inputPaths : list string) (st : ChapterState)
    : M ChapterState :=
  match inputPaths with
  | [] => mret st
  | inputPath :: rest =>
      console_log ("Parsing chapter " +:+ show_nat (i + 1) +:+ ": "
                     +:+ Path.basename inputPath);;
      doc ← parseDocument inputPath;
      parseChapters (S i) rest (chapterStep i inputPath doc st)
  end.


End Converter.

(** The world of a freshly started process: the parser's variables as the module
    initialises them, over the file system [fs]. *)
Definition initialWorld (fs : gmap (list string) Node) : World :=
  mkWorld fs 0 [] {[ 0 := [] ]} 0 EmptyString false [] 0.

(** ** Configuration ([config.ts])

    A JavaScript object is a finite map from property names to values.  A
    property can be present with the value [undefined], written [None]; reading
    a property that is absent gives [undefined] too. *)
Abbreviation JsObject := (gmap string (option string)).

(** [obj.key] *)
Definition prop (obj : JsObject) (k : string) : option string :=
  default None (obj !! k).

(** [{ ...a, ...b }]: every own property of [b], with its value, over those of [a]. *)
Definition spread (a b : JsObject) : JsObject := b ∪ a.

Definition DEFAULT_CONFIG : JsObject :=
  <[ "author" := Some "Unknown Author" ]>
    (<[ "language" := Some "en" ]>
       (<[ "publisher" := Some EmptyString ]>
          (<[ "outputDir" := Some "./output" ]>
             (<[ "rights" := Some "All rights reserved" ]> ∅)))).

(** [loadConfig(overrides)], where [rcConfig] is what [rc('md-to-epub',
    DEFAULT_CONFIG)] returns; spreading [undefined] adds nothing. *)
Definition loadConfig (rcConfig : JsObject) (overrides : option JsObject) : JsObject :=
  spread (spread DEFAULT_CONFIG rcConfig) (default ∅ overrides).

Definition getDefaultConfig : JsObject := spread ∅ DEFAULT_CONFIG.

(** An object read as a [Config]. *)
Definition asConfig (obj : JsObject) : Config :=
  mkConfig (prop obj "author") (prop obj "language") (prop obj "publisher")
           (prop obj "cover") (prop obj "outputDir") (prop obj "title")
           (prop obj "description") (prop obj "rights") (prop obj "identifier").

(** ** The command line ([cli.ts])

    The options as [commander] hands them to the action: an option that was not
    given is [undefined]. *)
Record CliOptions := mkCliOptions {
  opt_output : option string;
  opt_outputDir : option string;
  opt_recursive : bool;
  opt_chapters : bool;
  opt_author : option string;
  opt_title : option string;
  opt_language : option string;
  opt_publisher : option string;
  opt_cover : option string;
  opt_description : option string;
  opt_rights : option string;
  opt_identifier : option string }.

(** [path.resolve(p)] as text. *)
Definition resolveText (cwd : list string) (p : string) : string :=
  "/" +:+ String.concat "/" (Path.resolve cwd p).

(** The object literal the action passes to [loadConfig]: nine properties, each
    with the value of its option. *)
Definition cliOverrides (cwd : list string) (options : CliOptions) : JsObject :=
  <[ "author" := opt_author options ]>
    (<[ "language" := opt_language options ]>
       (<[ "publisher" := opt_publisher options ]>
          (<[ "cover" := match opt_cover options with
                         | Some (String c s) => Some (resolveText cwd (String c s))
                         | _ => None
                         end ]>
             (<[ "outputDir" := opt_outputDir options ]>
                (<[ "title" := opt_title options ]>
                   (<[ "description" := opt_description options ]>
                      (<[ "rights" := opt_rights options ]>
                         (<[ "identifier" := opt_identifier options ]> ∅)))))))).

(** [const config = loadConfig({ ... })] in the action. *)
Definition cliConfig (rcConfig : JsObject) (cwd : list string) (options : CliOptions)
    : Config :=
  asConfig (loadConfig rcConfig (Some (cliOverrides cwd options))).

(** ** Bulk conversion ([convertMultipleMarkdownToEpub]) *)

(** [console.error]: in Node [console.warn] is an alias of [console.error]; both
    write their line to the standard error stream. *)
Definition console_error (s : string) : M unit := console_warn s.

Section Bulk.

Variable env : Env.
Variable fuel : nat.

(** The body of the loop for one input, with its [try]/[catch]: the error is
    reported and thrown again. *)
Definition convertOne (inputPath : string) (config : option Config) : M string :=
  try_catch
    (convertMarkdownToEpub env fuel (mkConversionOptions inputPath None config))
    (fun error =>
       console_error ("Failed to convert " +:+ inputPath +:+ ": " +:+ error);;
       throw error).

(** The loop, from the results gathered so far. *)
Fixpoint convertEach (inputPaths : list string) (config : option Config)
    (results : list string) : M (list string) :=
  match inputPaths with
  | [] => mret results
  | inputPath :: rest =>
      outputPath ← convertOne inputPath config;
      convertEach rest config (results ++ [outputPath])%list
  end.

Definition convertMultipleMarkdownToEpub (inputPaths : list string)
    (config : option Config) : M (list string) :=
  convertEach inputPaths config [].

End Bulk.

(** * Vocabulary of the properties *)

(** [pat] occurs in [s]. *)
Definition contains (pat s : string) : Prop :=
  exists pre post, s = pre +:+ (pat +:+ post).

(** The characters that end or open markup: angle brackets and quotes. *)
Definition special (c : ascii) : bool :=
  bool_decide (c = "<"%char) || bool_decide (c = ">"%char)
  || bool_decide (c = ascii_of_nat 34) || bool_decide (c = "'"%char).

(** Every character of [s] satisfies [p]. *)
Fixpoint all_chars (p : ascii -> bool) (s : string) : bool :=
  match s with
  | EmptyString => true
  | String c rest => p c && all_chars p rest
  end.

(** The [dc:identifier] element and the [dtb:uid] entry with the identifier as
    it is in the metadata. *)
Definition identifierElement (metadata : EpubMetadata) : string :=
  "<dc:identifier id=" +:+ q "pub-id" +:+ ">" +:+ m_identifier metadata
    +:+ "</dc:identifier>".

Definition uidMeta (metadata : EpubMetadata) : string :=
  "<meta name=" +:+ q "dtb:uid" +:+ " content=" +:+ q (m_identifier metadata) +:+ "/>".

(** Metadata with a given identifier and language and nothing optional. *)
Definition sampleMetadata (identifier language : string) : EpubMetadata :=
  mkEpubMetadata "Title" "Author" language None None None identifier None "2024-01-01".

(** Number of manifest items that point at [href]. *)
Definition entriesFor (href : string) (items : list Item) : nat :=
  count_occ string_dec (item_href <$> items) href.

(** The key the chapter loop deduplicates on. *)
Definition imageKey (image : ImageReference) : string := Path.basename (img_src image).

(** The first image of a list with a given key. *)
Definition firstWithKey (k : string) (images : list ImageReference)
    : option ImageReference :=
  find (fun image => bool_decide (imageKey image = k)) images.

(** All images of the parsed documents, in input order. *)
Definition inputImages (docs : list (string * MarkdownContent)) : list ImageReference :=
  concat ((fun d => mc_images d.2) <$> docs).

(** A sample environment: no server answers, every image is a PNG, the transformer
    answers [nodes] for every text, and an archive is written as the sequence of its
    entries, each as its name between brackets, its method and its data. *)
Definition showEntry (e : ZipEntry) : string :=
  "[" +:+ ze_name e +:+ "]"
    +:+ (match ze_method e with Stored => "(stored)" | Deflated => "(deflated)" end)
    +:+ ze_data e.

Definition sampleEnv (nodes : list MdNode) : Env :=
  mkEnv [] (fun n => "u" +:+ show_nat n)
        (fun _ _ => NetError "ECONNREFUSED")
        (fun _ => Some "image/png")
        "2024-01-02"
        (fun _ => nodes)
        (fun entries => String.concat EmptyString (showEntry <$> entries)).

(** A sample file system: the directory [/b] with the document [/b/doc.md]. *)
Definition sampleFs (markdownText : string) : gmap (list string) Node :=
  <[ ["b"; "doc.md"] := File markdownText ]> (<[ ["b"] := Dir ]> ∅).

Definition sampleOptions : ConversionOptions :=
  mkConversionOptions "/b/doc.md" (Some "/out/doc.epub") None.

(** The content of a file, when there is one. *)
Definition fileAt (w : World) (k : list string) : string :=
  match w_fs w !! k with
  | Some (File data) => data
  | _ => EmptyString
  end.

(** Two references that are written differently and share the base name [pic.png]. *)
Definition twoImageNodes : list MdNode :=
  [ MdHtml "<p>"; MdImage "a/pic.png" None "first"; MdImage "b/pic.png" None "second";
    MdHtml "</p>" ].


Definition picture : ImageReference :=
  mkImageReference "img/pic.png" "/b/img/pic.png" "image/png" "img-u0".


(** The sample metadata and image list of the properties below. *)
Definition sampleBook : EpubMetadata := sampleMetadata "id" "en".

Definition pictureWorld : World := initialWorld (sampleFs "![picture](img/pic.png)").

(** Two parsed chapters that refer to images with the base name [pic.png]. *)
Definition pictureOne : ImageReference :=
  mkImageReference "img/pic.png" "/b/one/img/pic.png" "image/png" "img-u0".

Definition pictureTwo : ImageReference :=
  mkImageReference "other/pic.png" "/b/two/other/pic.png" "image/png" "img-u1".

Definition diagram : ImageReference :=
  mkImageReference "diagram.svg" "/b/two/diagram.svg" "image/svg+xml" "img-u2".

Definition chapterDocs : list (string * MarkdownContent) :=
  [ ("/b/one/ch1.md", mkMarkdownContent "<p>one</p>" [pictureOne] (Some "One"));
    ("/b/two/ch2.md", mkMarkdownContent "<p>two</p>" [pictureTwo; diagram; pictureOne] None) ].

(** The title rule of a single document, and of a chapter, written by cases. *)
Definition pick (o : option string) : string := default EmptyString o.


Definition chapterLabel (d : string * MarkdownContent) : string :=
  if truthy (mc_title d.2) then pick (mc_title d.2) else Path.stem d.1.


(** The module [downloadImage] picks for a URL. *)
Definition protocolOf (url : string) : Protocol :=
  if startsWith url "https" then Https else Http.

(** A response [downloadImage] follows: status 301 or 302 with a [Location]. *)
Definition redirects (r : Response) : bool :=
  (Nat.eqb (statusCode r) 301 || Nat.eqb (statusCode r) 302) && truthy (location r).

(** [Terminal env url n result]: starting at [url], [n] redirects are followed and
    then the servers answer [result], which is a network error or a response that is
    not followed. *)
Inductive Terminal (env : Env) : string -> nat -> NetResult -> Prop :=
| Terminal_error url e :
    env_get env (protocolOf url) url = NetError e ->
    Terminal env url 0 (NetError e)
| Terminal_response url r :
    env_get env (protocolOf url) url = NetResponse r ->
    redirects r = false ->
    Terminal env url 0 (NetResponse r)
| Terminal_redirect url r n result :
    env_get env (protocolOf url) url = NetResponse r ->
    redirects r = true ->
    Terminal env (or_else (location r) EmptyString) n result ->
    Terminal env url (S n) result.

(** What [downloadImage] does with the terminal answer. *)
Definition settle (env : Env) (result : NetResult) (destPath : string) : M unit :=
  match result with
  | NetError e => throw e
  | NetResponse r =>
      if Nat.eqb (statusCode r) 200 then writeFile env destPath (body r)
      else throw ("Failed to download image: " +:+ show_nat (statusCode r))
  end.

(** A server that answers every request with the same status and body. *)
Definition constantServer (status : nat) (data : string) : Env :=
  mkEnv [] (fun n => "u" +:+ show_nat n)
        (fun _ _ => NetResponse (mkResponse status None data))
        (fun _ => Some "image/png") "2024-01-02" (fun _ => [])
        (fun entries => String.concat EmptyString (showEntry <$> entries)).

(** A server that moves [http://old/pic.png] to [https://new/pic.png]. *)
Definition movedServer : Env :=
  mkEnv [] (fun n => "u" +:+ show_nat n)
        (fun _ url =>
           if bool_decide (url = "http://old/pic.png")
           then NetResponse (mkResponse 301 (Some "https://new/pic.png") EmptyString)
           else if bool_decide (url = "https://new/pic.png")
           then NetResponse (mkResponse 200 None "PNG")
           else NetError "ENOTFOUND")
        (fun _ => Some "image/png") "2024-01-02" (fun _ => [])
        (fun entries => String.concat EmptyString (showEntry <$> entries)).

(** A world whose only directory is [/img]. *)
Definition imgWorld : World := initialWorld (<[ ["img"] := Dir ]> ∅).

(** The references the image hook creates for the image nodes of one document,
    when the next token [uuidv4] draws is the [n]-th. *)
Fixpoint imagesFrom (env : Env) (baseDir : string) (n : nat) (nodes : list MdNode)
    : list ImageReference :=
  match nodes with
  | [] => []
  | MdImage href _ _ :: rest =>
      mkImageReference href
        (if negb (startsWith href "http://") && negb (startsWith href "https://")
         then Path.resolve2 (env_cwd env) baseDir href
         else href)
        (or_else (env_mime_lookup env href) "image/jpeg")
        ("img-" +:+ env_uuidv4 env n)
      :: imagesFrom env baseDir (S n) rest
  | _ :: rest => imagesFrom env baseDir n rest
  end.

(** The text of the file at [p], when there is one. *)
Definition textAt (env : Env) (w : World) (p : string) : string :=
  fileAt w (key env p).

(** The images of the document at [p], as a call of [parseMarkdown] in the world
    [w] has to report them. *)
Definition ownImages (env : Env) (w : World) (p : string) : list ImageReference :=
  imagesFrom env (Path.dirname p) (w_uuids w) (env_marked env (textAt env w p)).

(** Two documents in one directory, each with its own image. *)
Definition twoDocsFs : gmap (list string) Node :=
  <[ ["b"; "one.md"] := File "one" ]>
    (<[ ["b"; "two.md"] := File "two" ]> (<[ ["b"] := Dir ]> ∅)).

Definition twoDocsEnv : Env :=
  mkEnv [] (fun n => "u" +:+ show_nat n)
        (fun _ _ => NetError "ECONNREFUSED")
        (fun _ => Some "image/png") "2024-01-02"
        (fun text =>
           if bool_decide (text = "one")
           then [MdImage "a.png" None "a"; MdHtml "<p>one</p>"]
           else [MdHtml "<p>two</p>"; MdImage "b.png" None "b"; MdHr])
        (fun entries => String.concat EmptyString (showEntry <$> entries)).

Definition afterFirstParse : World :=
  (parseMarkdown twoDocsEnv "/b/one.md" (initialWorld twoDocsFs)).2.

Definition afterSecondParse : World :=
  (parseMarkdown twoDocsEnv "/b/two.md" afterFirstParse).2.

Definition firstParsed : ParsedRef :=
  mkParsedRef ("<img src=" +:+ q "images/a.png" +:+ " alt=" +:+ q "a" +:+ " /><p>one</p>")
              1 None.

Definition secondParsed : ParsedRef :=
  mkParsedRef ("<p>two</p><img src=" +:+ q "images/b.png" +:+ " alt=" +:+ q "b"
                 +:+ " /><hr />")
              2 None.


(** The staging directory a call of [generateEpub] in the world [w] creates. *)
Definition tempDirOf (env : Env) (outputPath : string) (w : World) : string :=
  stagingDir outputPath (env_uuidv4 env (w_uuids w)).

(** The world in which the staging of that call starts. *)
Definition afterToken (env : Env) (w : World) : World := (uuid env w).2.



(** A world in which something already sits where the marker file is staged. *)
Definition collisionWorld : World :=
  initialWorld (<[ ["out"; ".epub-temp-u0"; "mimetype"] := Dir ]> (sampleFs "x")).

(** A world in which the output path is a directory. *)
Definition directoryOptions : ConversionOptions :=
  mkConversionOptions "/b/doc.md" (Some "/b") None.

(** The paths of a world that lie at or below a staging directory. *)
Definition stagedPaths (w : World) : list (list string) :=
  List.filter (fun k => existsb (String.prefix ".epub-temp-") k)
              (fst <$> map_to_list (w_fs w)).


(** A document with one reference to the footnote [x] and its definition. *)
Definition oneReference : string :=
  "See a[^x]" +:+ nl +:+ nl +:+ "[^x]: the note" +:+ nl.

(** The content document of a markdown text of the fragment. *)
Definition contentDocument (src title : string) : string :=
  getContentXhtml (default EmptyString (Marked.parse src)) title.

(** * Vocabulary of the further properties *)

(** The entities [escapeXml] writes, and the ones [escapeHtml] writes. *)
Definition xmlEntities : list string := ["&amp;"; "&lt;"; "&gt;"; "&quot;"; "&apos;"].
Definition htmlEntities : list string := ["&amp;"; "&lt;"; "&gt;"; "&quot;"; "&#039;"].

(** [s] begins with [pat]. *)
Fixpoint begins (pat s : string) : bool :=
  match pat with
  | EmptyString => true
  | String a pat' =>
      match s with
      | String b s' => bool_decide (a = b) && begins pat' s'
      | EmptyString => false
      end
  end.

(** A text in which no quote and no angle bracket occurs and every ampersand starts
    one of the given entities. *)
Fixpoint well_escaped (entities : list string) (s : string) : bool :=
  match s with
  | EmptyString => true
  | String c rest =>
      negb (special c)
      && (if bool_decide (c = "&"%char)
          then existsb (fun e => begins e s) entities
          else true)
      && well_escaped entities rest
  end.

(** One of the five characters [escapeXml] replaces. *)
Definition replaced (c : ascii) : bool := special c || bool_decide (c = "&"%char).

(** The chapter the loop of [convertMarkdownFilesToChapters] has to build from the
    document at index [i]. *)
Definition chapterAt (i : nat) (d : string * MarkdownContent) : Chapter :=
  mkChapter (chapterLabel d) (mc_html d.2) ("chapter-" +:+ show_nat (i + 1)) (i + 1).

(** A chapter with another value in its [order] field, and an image reference with
    another value in its [id] field. *)
Definition withOrder (f : Chapter -> nat) (c : Chapter) : Chapter :=
  mkChapter (ch_title c) (ch_html c) (ch_id c) (f c).

Definition withId (f : ImageReference -> string) (image : ImageReference)
    : ImageReference :=
  mkImageReference (img_src image) (img_resolvedPath image) (img_mediaType image)
                   (f image).

(** The chapters of the two sample documents, and the second of them. *)
Definition sampleChapters : list Chapter :=
  cs_chapters (chapterSteps 0 chapterDocs initialChapterState).

Definition secondChapter : Chapter :=
  chapterAt 1 ("/b/two/ch2.md",
               mkMarkdownContent "<p>two</p>" [pictureTwo; diagram; pictureOne] None).

(** A character that does not end a line, and a text that is empty or starts with a
    line terminator. *)
Definition in_line (c : ascii) : bool := negb (Footnote.is_line_terminator c).


(** A character a footnote id can hold: any but the closing bracket. *)
Definition in_id (c : ascii) : bool := negb (bool_decide (c = Footnote.rbracket)).

(** The text that is left of [src] after a token with the raw text [raw]. *)
Definition after_raw (raw src : string) : string :=
  Footnote.drop_str (String.length raw) src.

(** An outcome that is a thrown error. *)
Definition throws {A} (o : Outcome A) : bool :=
  match o with
  | Thrown _ => true
  | _ => false
  end.

(** An image reference whose file is on the local disk. *)
Definition is_local (image : ImageReference) : bool :=
  negb (is_remote (img_resolvedPath image)).

(** The step of [createEpubStructure] that materializes the assets: the loop over
    the images and the copy of the cover. *)
Definition stageAssets (env : Env) (fuel : nat) (tempDir : string)
    (metadata : EpubMetadata) (images : list ImageReference) : M unit :=
  for_of images (stageImage env fuel tempDir);; stageCover env tempDir metadata.

(** The entries of an archive with a given name. *)
Definition entriesNamed (name : string) (entries : list ZipEntry) : list ZipEntry :=
  List.filter (fun e => bool_decide (ze_name e = name)) entries.


(** The chapter loop over the two sample documents. *)
Definition twoDocsPaths : list string := ["/b/one.md"; "/b/two.md"].

Definition loopWorld : World :=
  (parseChapters twoDocsEnv 0 twoDocsPaths initialChapterState (initialWorld twoDocsFs)).2.

Definition loopState : ChapterState :=
  match (parseChapters twoDocsEnv 0 twoDocsPaths initialChapterState
           (initialWorld twoDocsFs)).1 with
  | Returned st => st
  | _ => initialChapterState
  end.

(** The nine properties of a [Config]. *)
Definition configKeys : list string :=
  ["author"; "language"; "publisher"; "cover"; "outputDir"; "title"; "description";
   "rights"; "identifier"].

(** An rc file that names an author and a publisher, and a command line that
    names neither. *)
Definition sampleRc : JsObject :=
  <[ "author" := Some "Jane Doe" ]> (<[ "publisher" := Some "House" ]> DEFAULT_CONFIG).

Definition bareOptions : CliOptions :=
  mkCliOptions None None false false None None (Some "en") None None None None None.

(** The output path of a document that is converted without an explicit one. *)
Definition defaultOutputPath (config : option Config) (inputPath : string) : string :=
  Path.join [or_else (cfg config c_outputDir) "./output"; Path.stem inputPath +:+ ".epub"].

(** Two documents with the same file name in two directories. *)
Definition sameNameFs : gmap (list string) Node :=
  <[ ["a"; "doc.md"] := File "first" ]>
    (<[ ["b"; "doc.md"] := File "second" ]> (<[ ["a"] := Dir ]> (<[ ["b"] := Dir ]> ∅))).

Definition echoEnv : Env :=
  mkEnv [] (fun n => "u" +:+ show_nat n)
        (fun _ _ => NetError "ECONNREFUSED")
        (fun _ => Some "image/png") "2024-01-02"
        (fun text => [MdHtml ("<p>" +:+ text +:+ "</p>")])
        (fun entries => String.concat EmptyString (showEntry <$> entries)).

Definition sameNamePaths : list string := ["/a/doc.md"; "/b/doc.md"].

Definition bulkWorld : World :=
  (convertMultipleMarkdownToEpub echoEnv 1 sameNamePaths None (initialWorld sameNameFs)).2.

(** A bulk conversion whose second input does not exist. *)
Definition brokenPaths : list string := ["/a/doc.md"; "/missing.md"; "/b/doc.md"].

(** The line [convertOne] writes for a failed input. *)
Definition failureLine (inputPath error : string) : LogLine :=
  Warn ("Failed to convert " +:+ inputPath +:+ ": " +:+ error).

(** A text without a slash: one path segment. *)
Definition no_slash (s : string) : bool :=
  all_chars (fun c => negb (Path.is_slash c)) s.

(** No character of [p] at an index from [a] up to, not including, [b] is a slash. *)
Definition slash_free (p : string) (a b : Z) : Prop :=
  forall i, (a <= i < b)%Z -> Path.is_slash (Path.charAt p i) = false.

(** A segment that names an entry of a directory: not empty, not a dot and not
    two dots. *)
Definition plain (seg : string) : bool :=
  negb (bool_decide (seg = EmptyString)) && negb (bool_decide (seg = "."))
  && negb (bool_decide (seg = "..")).

(** The paths a call of [generateEpub] can change: the paths at or below its
    staging directory, the ancestors of that directory, and the output file. *)
Definition touched (env : Env) (tempDir outputPath : string) (k : list string) : Prop :=
  key env tempDir `prefix_of` k \/ k `prefix_of` key env tempDir \/ k = key env outputPath.

(** A step that leaves every path outside [P] as it is. *)
Definition frame {A} (P : list string -> Prop) (m : M A) : Prop :=
  forall w k, ~ P k -> w_fs (m w).2 !! k = w_fs w !! k.

(** A path of the sample world that a conversion to [/out/doc.epub] has no
    business with. *)
Definition bystander : list string := ["b"; "doc.md"].

(** A chapter whose id climbs out of the directory of the content documents. *)
Definition climbingChapter : Chapter := mkChapter "T" "<p>x</p>" "../../evil" 1.

(** The files [createEpubStructure] writes before it turns to the assets: their
    paths below the staging directory and their contents. *)
Definition fixedFiles (env : Env) (htmlContent : string) (metadata : EpubMetadata)
    (images : list ImageReference) : list (list string * string) :=
  [ (["mimetype"], "application/epub+zip");
    (["META-INF"; "container.xml"], getContainerXml);
    (["OEBPS"; "content.opf"], getContentOpf metadata images (env_today env));
    (["OEBPS"; "toc.ncx"], getTocNcx metadata);
    (["OEBPS"; "content.xhtml"], getContentXhtml htmlContent (m_title metadata));
    (["OEBPS"; "css"; "style.css"], getEpubCSS) ].

(** The archive entry of a staged file. *)
Definition entryOf (file : list string * string) : ZipEntry :=
  mkZipEntry (String.concat "/" file.1) Deflated file.2.

(** The world a sample call of [generateEpub] leaves. *)
Definition bookWorld : World :=
  (generateEpub (sampleEnv []) 1 "<p>x</p>" sampleBook [picture] "/out/doc.epub"
     pictureWorld).2.

(** The invariant of the loop of [basename]. *)
Definition bInv (p : string) (n : nat) (st : Path.bstate) : Prop :=
  (Path.b_break st = false -> Path.b_start st = 0%Z)
  /\ (Path.b_break st = false -> Path.b_end st <> (-1)%Z ->
      Path.b_matchedSlash st = false)
  /\ (Path.b_end st <> (-1)%Z ->
      (0 <= Path.b_start st)%Z
      /\ slash_free p (if Path.b_break st then Path.b_start st else Z.of_nat n)
                    (Path.b_end st)).

(** The invariant of the loop of [extname]. *)
Definition eInv (p : string) (n : nat) (st : Path.estate) : Prop :=
  (Path.e_startDot st <> (-1)%Z ->
   (0 <= Path.e_startDot st)%Z /\ Path.e_end st <> (-1)%Z
   /\ slash_free p (Path.e_startDot st) (Path.e_end st))
  /\ (Path.e_break st = false -> Path.e_end st <> (-1)%Z ->
      Path.e_matchedSlash st = false /\ slash_free p (Z.of_nat n) (Path.e_end st)).

(** The state after the first assignment of the branch for a character that is
    no slash. *)
Definition estep_end (i : Z) (st : Path.estate) : Path.estate :=
  if (Path.e_end st =? -1)%Z
  then Path.EState (Path.e_startDot st) (Path.e_startPart st) (i + 1) false
                   (Path.e_preDotState st) false
  else st.

(** * Properties *)

Open Scope list_scope.

(** ** The path functions on examples *)

Example basename_nested : Path.basename "a/b/pic.png" = "pic.png".
Proof. reflexivity. Qed.

Example basename_trailing_slash : Path.basename "a/b//" = "b".
Proof. reflexivity. Qed.

Example extname_plain : Path.extname "/docs/book.tar.gz" = ".gz".
Proof. reflexivity. Qed.

Example extname_hidden : Path.extname "/home/.bashrc" = EmptyString.
Proof. reflexivity. Qed.

Example stem_plain : Path.stem "/docs/intro.md" = "intro".
Proof. reflexivity. Qed.

Example stem_no_ext : Path.stem "/docs/README" = "README".
Proof. reflexivity. Qed.

Example dirname_nested : Path.dirname "/out/book.epub" = "/out".
Proof. reflexivity. Qed.

Example resolve_dots : Path.resolve ["home"; "u"] "../x/./y//z.png" = ["home"; "x"; "y"; "z.png"].
Proof. reflexivity. Qed.

(** ** Text: concatenation and containment *)

Lemma append_cons (x : ascii) (a b : string) : String x a +:+ b = String x (a +:+ b).
Proof. reflexivity. Qed.

Lemma append_assoc (a b c : string) : (a +:+ b) +:+ c = a +:+ (b +:+ c).
Proof.
  induction a as [|x a IH]; [reflexivity |].
  rewrite !append_cons. by rewrite IH.
Qed.

Lemma append_nil_r (a : string) : a +:+ EmptyString = a.
Proof.
  induction a as [|x a IH]; [reflexivity |].
  rewrite append_cons. by rewrite IH.
Qed.

Lemma contains_here pat post s : s = pat +:+ post -> contains pat s.
Proof. intros ->. exists EmptyString, post. reflexivity. Qed.

Lemma contains_app_r pat s t : contains pat t -> contains pat (s +:+ t).
Proof.
  intros (pre & post & ->). exists (s +:+ pre), post. by rewrite append_assoc.
Qed.

Lemma contains_app_l pat s t : contains pat s -> contains pat (s +:+ t).
Proof.
  intros (pre & post & ->). exists pre, (post +:+ t). by rewrite !append_assoc.
Qed.

Lemma contains_cons pat c s : contains pat s -> contains pat (String c s).
Proof. apply (contains_app_r pat (String c EmptyString)). Qed.

Lemma contains_skip pat c a b : contains pat (a +:+ b) -> contains pat (String c a +:+ b).
Proof. apply contains_cons. Qed.

Lemma contains_nil pat b : contains pat b -> contains pat (EmptyString +:+ b).
Proof. exact id. Qed.

(** Walk through a right-nested concatenation until the pattern starts. *)
Ltac here :=
  solve [ eapply contains_here; rewrite ?append_assoc; reflexivity ].

Ltac find_block :=
  lazymatch goal with
  | |- contains _ (EmptyString +:+ _) => apply contains_nil; find_block
  | |- contains (String ?c _ +:+ _) (String ?c _ +:+ _) =>
      first [ here | apply contains_skip; find_block ]
  | |- contains _ (String _ _ +:+ _) => apply contains_skip; find_block
  | |- contains _ (String _ _) => first [ here | apply contains_cons; find_block ]
  | |- contains _ (_ +:+ _) => first [ here | apply contains_app_r; find_block ]
  end.

(** ** [escapeXml] *)

Lemma all_chars_app p a b : all_chars p (a +:+ b) = all_chars p a && all_chars p b.
Proof.
  induction a as [|x a IH]; [reflexivity |].
  rewrite append_cons. simpl. rewrite IH. by rewrite andb_assoc.
Qed.

Lemma escapeXml_char_safe c : all_chars (fun x => negb (special x)) (escapeXml_char c) = true.
Proof.
  unfold escapeXml_char, special.
  repeat case_bool_decide; try reflexivity.
  simpl. repeat case_bool_decide; try congruence; reflexivity.
Qed.

(** No quote and no angle bracket survives [escapeXml]. *)
Lemma escapeXml_safe text : all_chars (fun x => negb (special x)) (escapeXml text) = true.
Proof.
  induction text as [|c s IH]; [reflexivity |].
  simpl. rewrite all_chars_app, escapeXml_char_safe, IH. reflexivity.
Qed.

(** A text without special characters is left as it is. *)
Lemma escapeXml_plain text :
  all_chars (fun x => negb (special x) && negb (bool_decide (x = "&"%char))) text = true ->
  escapeXml text = text.
Proof.
  induction text as [|c s IH]; [reflexivity |].
  simpl. intros [Hc Hs]%andb_prop. rewrite (IH Hs).
  apply andb_prop in Hc as [Hc1 Hc2].
  unfold special in Hc1. unfold escapeXml_char.
  repeat case_bool_decide; simpl in *; try discriminate; reflexivity.
Qed.

(** ** The identifier in the generated XML (C10) *)

Lemma opfHead_identifier md today : contains (identifierElement md) (opfHead md today).
Proof. unfold identifierElement, opfHead, q. rewrite ?append_assoc. find_block. Qed.

Lemma opfHead_language md today :
  contains ("<dc:language>" +:+ m_language md +:+ "</dc:language>") (opfHead md today).
Proof. unfold opfHead, q. rewrite ?append_assoc. find_block. Qed.

Lemma opfHead_title md today :
  contains ("<dc:title>" +:+ escapeXml (m_title md) +:+ "</dc:title>") (opfHead md today).
Proof. unfold opfHead, q. rewrite ?append_assoc. find_block. Qed.

Lemma opfHead_creator md today :
  contains ("<dc:creator>" +:+ escapeXml (m_author md) +:+ "</dc:creator>")
           (opfHead md today).
Proof. unfold opfHead, q. rewrite ?append_assoc. find_block. Qed.

Lemma opfHead_date md today :
  contains ("<dc:date>" +:+ m_createdDate md +:+ "</dc:date>") (opfHead md today).
Proof. unfold opfHead, q. rewrite ?append_assoc. find_block. Qed.

Lemma opfHead_optional md today :
  contains (nl +:+ "    " +:+ optionalElement "dc:publisher" (m_publisher md) +:+ nl
              +:+ "    " +:+ optionalElement "dc:description" (m_description md) +:+ nl
              +:+ "    " +:+ optionalElement "dc:rights" (m_rights md) +:+ nl)
           (opfHead md today).
Proof. unfold opfHead, q, nl. rewrite ?append_assoc. find_block. Qed.

Lemma ncxHead_identifier md : contains (uidMeta md) (ncxHead md).
Proof. unfold uidMeta, ncxHead, q. rewrite ?append_assoc. find_block. Qed.

Lemma ncxHead_title md :
  contains ("<text>" +:+ escapeXml (m_title md) +:+ "</text>") (ncxHead md).
Proof. unfold ncxHead, q. rewrite ?append_assoc. find_block. Qed.

(** What an optional element holds when it is written. *)
Lemma optionalElement_escaped tag c s :
  optionalElement tag (Some (String c s))
  = "<" +:+ tag +:+ ">" +:+ escapeXml (String c s) +:+ "</" +:+ tag +:+ ">".
Proof. reflexivity. Qed.

Lemma optionalElement_absent tag : optionalElement tag None = EmptyString.
Proof. reflexivity. Qed.

(** C10, the claim as stated fails: the identifier is not the one field that is
    written without escaping.  The language is written as it is, twice: a language
    value with an angle bracket reaches [content.opf] unescaped, and its escaped form
    does not occur. *)
Lemma language_written_verbatim :
  let opf := getContentOpf (sampleMetadata "id" "e<n") [] "2024-01-02" in
  occurrences "<dc:language>e<n</dc:language>" opf = 1
  /\ occurrences ("xml:lang=" +:+ q "e<n") opf = 1
  /\ occurrences "e&lt;n" opf = 0.
Proof. vm_compute. repeat split. Qed.

(** C10, amended: the identifier is written as it is into the [dc:identifier]
    element of both package documents and into the [dtb:uid] attribute of both
    navigation files; title, author, publisher, description and rights go through
    [escapeXml]; the language and the creation date, too, are written as they
    are. *)
Theorem identifier_written_verbatim (md : EpubMetadata) (images : list ImageReference)
    (chapters : list Chapter) (today : string) :
  contains (identifierElement md) (getContentOpf md images today)
  /\ contains (identifierElement md) (getMultiChapterContentOpf md images chapters today)
  /\ contains (uidMeta md) (getTocNcx md)
  /\ contains (uidMeta md) (getMultiChapterTocNcx md chapters)
  /\ contains ("<dc:title>" +:+ escapeXml (m_title md) +:+ "</dc:title>")
              (getContentOpf md images today)
  /\ contains ("<dc:creator>" +:+ escapeXml (m_author md) +:+ "</dc:creator>")
              (getContentOpf md images today)
  /\ contains (nl +:+ "    " +:+ optionalElement "dc:publisher" (m_publisher md) +:+ nl
                 +:+ "    " +:+ optionalElement "dc:description" (m_description md) +:+ nl
                 +:+ "    " +:+ optionalElement "dc:rights" (m_rights md) +:+ nl)
              (getContentOpf md images today)
  /\ contains ("<text>" +:+ escapeXml (m_title md) +:+ "</text>") (getTocNcx md)
  /\ contains ("<dc:language>" +:+ m_language md +:+ "</dc:language>")
              (getContentOpf md images today)
  /\ contains ("<dc:date>" +:+ m_createdDate md +:+ "</dc:date>")
              (getContentOpf md images today).
Proof.
  unfold getContentOpf, getMultiChapterContentOpf, getTocNcx, getMultiChapterTocNcx.
  repeat split; apply contains_app_l;
    auto using opfHead_identifier, opfHead_language, opfHead_title, opfHead_creator,
               opfHead_optional, opfHead_date, ncxHead_identifier, ncxHead_title.
Qed.

(** An identifier with [&], [<] and a double quote reaches both files unescaped. *)
Example identifier_special_characters :
  let id := "a&b<c" +:+ dq +:+ "d" in
  occurrences ("<dc:identifier id=" +:+ q "pub-id" +:+ ">" +:+ id +:+ "</dc:identifier>")
              (getContentOpf (sampleMetadata id "en") [] "2024-01-02") = 1
  /\ occurrences ("content=" +:+ q id) (getTocNcx (sampleMetadata id "en")) = 1
  /\ escapeXml id = "a&amp;b&lt;c&quot;d".
Proof. vm_compute. repeat split. Qed.

(** ** The archive (C1) *)



(** Only an entry that asks for it is stored under these archive options. *)
Lemma entryMethod_store name :
  entryMethod zipOptions (mkEntryData name (Some true)) = Stored
  /\ entryMethod zipOptions (mkEntryData name None) = Deflated.
Proof. split; reflexivity. Qed.

(** A whole conversion: the marker file is staged with its exact bytes and is the
    first entry of the written archive, deflated. *)
Example conversion_archive_starts_with_deflated_mimetype :
  let r := convertMarkdownToEpub (sampleEnv [MdHtml "<p>x</p>"]) 1 sampleOptions
             (initialWorld (sampleFs "x")) in
  r.1 = Returned "/out/doc.epub"
  /\ String.prefix "[mimetype](deflated)application/epub+zip["
       (fileAt r.2 ["out"; "doc.epub"]) = true
  /\ occurrences "(stored)" (fileAt r.2 ["out"; "doc.epub"]) = 0.
Proof. vm_compute. repeat split. Qed.

(** ** Assets that cannot be materialised (C2) *)

Lemma stageImage_never_throws env fuel tempDir image w e w' :
  stageImage env fuel tempDir image w <> (Thrown e, w').
Proof.
  unfold stageImage, try_catch.
  destruct (_ w) as [[a|e0|] w0] eqn:E; try congruence.
  unfold console_warn. congruence.
Qed.

(** The loop over the images never makes the staging fail. *)
Lemma stageImages_never_throw env fuel tempDir images w e w' :
  for_of images (stageImage env fuel tempDir) w <> (Thrown e, w').
Proof.
  revert w. induction images as [|image rest IH]; intros w; simpl.
  - unfold mret, M_ret. congruence.
  - unfold mbind, M_bind.
    destruct (stageImage env fuel tempDir image w) as [[a|e0|] w0] eqn:E.
    + apply IH.
    + by apply stageImage_never_throws in E.
    + congruence.
Qed.


Lemma contains_refl s : contains s s.
Proof. exists EmptyString, EmptyString. by rewrite append_nil_r. Qed.

(** An element of a list occurs in the joined text. *)
Lemma contains_concat sep x l : x ∈ l -> contains x (String.concat sep l).
Proof.
  induction l as [|y l IH]; intros Hx; [by apply elem_of_nil in Hx |].
  destruct l as [|z l].
  - apply list_elem_of_singleton in Hx as ->. apply contains_refl.
  - change (String.concat sep (y :: z :: l))
      with (y +:+ sep +:+ String.concat sep (z :: l)).
    apply elem_of_cons in Hx as [-> | Hx].
    + eapply contains_here. reflexivity.
    + apply contains_app_r, contains_app_r, IH, Hx.
Qed.





(** ** The manifest and the spine (C3) *)

(** Every id of the spine, and the [toc] of the spine, is an id of the manifest. *)
Lemma spine_in_manifest md images :
  Forall (fun idref => idref ∈ item_id <$> manifestItems md images) ("ncx" :: spineIdrefs).
Proof.
  unfold manifestItems, spineIdrefs. repeat constructor; simpl; set_solver.
Qed.

Lemma multiChapter_spine_in_manifest md images chapters :
  Forall (fun idref => idref ∈ item_id <$> multiChapterManifestItems md images chapters)
         ("ncx" :: multiChapterSpineIdrefs chapters).
Proof.
  unfold multiChapterManifestItems, multiChapterSpineIdrefs.
  constructor; [simpl; set_solver |].
  apply Forall_forall. intros idref Hin.
  apply list_elem_of_fmap in Hin as (chapter & -> & Hin).
  rewrite !fmap_app, !elem_of_app. right. left.
  apply list_elem_of_fmap. exists (chapterItem chapter). split; [reflexivity |].
  by apply list_elem_of_fmap_2.
Qed.

(** C3, the code at the failing input: a single document refers twice to an image
    with the base name [pic.png].  The written [content.opf] lists the asset twice,
    as [image-0] and as [image-1], where the claim says once; the chapter loop
    ([collectImage]) would have kept one. *)
Theorem single_document_lists_duplicate_twice :
  let r := convertMarkdownToEpub (sampleEnv twoImageNodes) 1 sampleOptions
             (initialWorld (sampleFs "![first](a/pic.png) ![second](b/pic.png)")) in
  let archive := fileAt r.2 ["out"; "doc.epub"] in
  r.1 = Returned "/out/doc.epub"
  /\ occurrences ("href=" +:+ q "images/pic.png") archive = 2
  /\ occurrences (renderItem (mkItem "image-0" "images/pic.png" "image/png")) archive = 1
  /\ occurrences (renderItem (mkItem "image-1" "images/pic.png" "image/png")) archive = 1.
Proof. vm_compute. repeat split. Qed.

(** The same on the manifest as data, for any two references with one base name. *)
Lemma duplicate_basename_two_entries first second :
  imageKey first = imageKey second ->
  entriesFor ("images/" +:+ imageKey first) (imageItems [first; second]) = 2.
Proof.
  intros H. unfold entriesFor, imageItems, imageKey in *.
  cbn -[string_dec append Path.basename count_occ].
  rewrite <- H, !count_occ_cons_eq by reflexivity. reflexivity.
Qed.

(** ** The chapter loop deduplicates by base name (C4) *)

Lemma firstWithKey_app k l1 l2 :
  firstWithKey k (l1 ++ l2)
  = match firstWithKey k l1 with
    | Some image => Some image
    | None => firstWithKey k l2
    end.
Proof.
  unfold firstWithKey. induction l1 as [|x l1 IH]; [reflexivity |].
  simpl. by destruct (bool_decide _).
Qed.

Lemma firstWithKey_Some_iff k l :
  is_Some (firstWithKey k l) <-> k ∈ imageKey <$> l.
Proof.
  unfold firstWithKey. induction l as [|x l IH]; simpl.
  - split; [by intros [? ?] | by intros ?%elem_of_nil].
  - case_bool_decide as Hk.
    + split; [intros _; subst k; apply elem_of_cons; by left | eauto].
    + rewrite IH, elem_of_cons. split; [by right |].
      intros [E | H]; [by symmetry in E | exact H].
Qed.

Lemma firstWithKey_elem k l image :
  firstWithKey k l = Some image -> image ∈ l /\ imageKey image = k.
Proof.
  unfold firstWithKey. intros H.
  apply find_some in H as [Hin Hk].
  split; [by apply list_elem_of_In | by apply bool_decide_eq_true in Hk].
Qed.

(** The loop keeps three things true: the set holds the keys of the kept images,
    no key is kept twice, and the first image of every key is the first one met. *)
Lemma collectImages_spec images :
  forall seen all,
    seen = list_to_set (imageKey <$> all) ->
    NoDup (imageKey <$> all) ->
    let r := collectImages (seen, all) images in
    r.1 = list_to_set (imageKey <$> r.2)
    /\ NoDup (imageKey <$> r.2)
    /\ forall k, firstWithKey k r.2 = firstWithKey k (all ++ images).
Proof.
  induction images as [|x images IH]; intros seen all Hseen Hnd; simpl.
  - rewrite app_nil_r. auto.
  - assert (E : collectImage (seen, all) x
                = if bool_decide (imageKey x ∈ seen) then (seen, all)
                  else ({[imageKey x]} ∪ seen, (all ++ [x])%list)) by reflexivity.
    change (collectImages (seen, all) (x :: images))
      with (collectImages (collectImage (seen, all) x) images).
    rewrite E. clear E.
    case_bool_decide as Hx.
    + destruct (IH seen all Hseen Hnd) as (H1 & H2 & H3).
      split; [exact H1 | split; [exact H2 |]].
      intros k. rewrite H3, !firstWithKey_app.
      destruct (firstWithKey k all) eqn:E; [reflexivity |].
      unfold firstWithKey at 2. simpl. fold (firstWithKey k images).
      case_bool_decide as Hk; [|reflexivity].
      exfalso. subst k seen.
      apply elem_of_list_to_set, firstWithKey_Some_iff in Hx as [? Hx]. congruence.
    + destruct (IH ({[imageKey x]} ∪ seen) (all ++ [x])) as (H1 & H2 & H3).
      * rewrite fmap_app, list_to_set_app_L. simpl. subst seen.
        rewrite (right_id_L ∅ (∪)). apply (comm_L (∪)).
      * rewrite fmap_app. apply NoDup_app. split; [exact Hnd |].
        split; [| apply NoDup_singleton].
        intros k Hk Hk'. apply list_elem_of_singleton in Hk'. subst k seen.
        apply Hx. by apply elem_of_list_to_set.
      * split; [exact H1 | split; [exact H2 |]].
        intros k. rewrite H3, <- app_assoc. reflexivity.
Qed.

(** The image part of the chapter loop is [collectImages] over all documents. *)
Lemma chapterSteps_images docs :
  forall i st,
    let r := chapterSteps i docs st in
    (cs_seenImages r, cs_allImages r)
    = collectImages (cs_seenImages st, cs_allImages st) (inputImages docs).
Proof.
  induction docs as [|[inputPath doc] docs IH]; intros i st; simpl.
  - reflexivity.
  - rewrite IH. unfold inputImages, collectImages. rewrite fmap_cons. simpl.
    rewrite foldl_app.
    unfold collectImages. by destruct (foldl collectImage _ (mc_images doc)).
Qed.


Lemma imageItems_hrefs images :
  item_href <$> imageItems images = (fun image => "images/" +:+ imageKey image) <$> images.
Proof.
  unfold imageItems. rewrite fmap_imap.
  induction images as [|x l IH] using rev_ind; [reflexivity |].
  rewrite imap_app, fmap_app, IH. reflexivity.
Qed.

Lemma prefix_append (s t : string) : String.prefix s (s +:+ t) = true.
Proof.
  induction s as [|c s IH]; [by destruct t |].
  rewrite append_cons. simpl. by destruct (ascii_dec c c).
Qed.

Lemma count_occ_image_hrefs_other href images :
  String.prefix "images/" href = false ->
  count_occ string_dec (item_href <$> imageItems images) href = 0.
Proof.
  intros Hpre. rewrite imageItems_hrefs.
  induction images as [|x l IH]; [reflexivity |].
  rewrite fmap_cons, count_occ_cons_neq; [exact IH |].
  intros <-. by rewrite prefix_append in Hpre.
Qed.

Lemma count_occ_cover_hrefs_other href md :
  String.prefix "images/" href = false ->
  count_occ string_dec (item_href <$> coverItems md) href = 0.
Proof.
  intros Hpre. unfold coverItems.
  destruct (m_cover md) as [[|c s]|]; try reflexivity.
  rewrite fmap_cons, count_occ_cons_neq; [reflexivity |].
  intros <-.
  change (String.prefix "images/" ("images/" +:+ ("cover" +:+ Path.extname (String c s)))
          = false) in Hpre.
  by rewrite prefix_append in Hpre.
Qed.

(** The navigation file, the stylesheet and the content document are listed exactly
    once in the manifest of a single document. *)
Lemma fixed_items_listed_once md images :
  entriesFor "toc.ncx" (manifestItems md images) = 1
  /\ entriesFor "css/style.css" (manifestItems md images) = 1
  /\ entriesFor "content.xhtml" (manifestItems md images) = 1.
Proof.
  unfold entriesFor, manifestItems.
  repeat split; rewrite !fmap_app, !count_occ_app;
    rewrite count_occ_image_hrefs_other, count_occ_cover_hrefs_other by reflexivity;
    reflexivity.
Qed.





(** The loop on the sample chapters: of the three references to [pic.png] the
    first one is kept. *)
Example chapter_images_first_wins :
  cs_allImages (chapterSteps 0 chapterDocs initialChapterState) = [pictureOne; diagram].
Proof. vm_compute. reflexivity. Qed.

(** ** Titles (C5) *)

Lemma or_else_cases o d : or_else o d = if truthy o then pick o else d.
Proof. by destruct o as [[|c s]|]. Qed.




(** The three cases of the single-document rule, on a conversion each. *)
Example single_document_titles :
  let run config text :=
    fileAt (convertMarkdownToEpub (sampleEnv [MdHtml "<p>x</p>"]) 1
              (mkConversionOptions "/b/doc.md" (Some "/out/doc.epub") config)
              (initialWorld (sampleFs text))).2 ["out"; "doc.epub"] in
  let titled := Some (mkConfig None None None None None (Some "Book") None None None) in
  occurrences "<dc:title>Book</dc:title>" (run titled ("# Intro" +:+ nl)) = 1
  /\ occurrences "<dc:title>Intro</dc:title>" (run None ("# Intro" +:+ nl)) = 1
  /\ occurrences "<dc:title>doc</dc:title>" (run None "no heading") = 1.
Proof. vm_compute. repeat split. Qed.

(** ** [downloadImage] (C7) *)

(** C7, the claim as stated fails: a server answers the request with status 203 and
    the bytes of the image.  The answer is a 2xx terminal response, yet
    [downloadImage] rejects and writes nothing. *)
Lemma download_rejects_203 :
  downloadImage (constantServer 203 "PNG") 5 "http://host/pic.png" "/img/pic.png" imgWorld
  = (Thrown "Failed to download image: 203", imgWorld).
Proof. reflexivity. Qed.

(** C7, amended: [downloadImage] follows every 301 or 302 response that has a
    [Location] to that location; at the first answer that is not such a redirect it
    rejects with the network error, if it is one, and rejects with "Failed to
    download image" for every status other than 200 (other 2xx statuses and a 301 or
    302 without [Location] included); on status 200 it writes the body to the
    destination path. *)
Theorem downloadImage_terminal (env : Env) (url destPath : string) (n fuel : nat)
    (result : NetResult) (w : World)
    (Hchain : Terminal env url n result)
    (Hfuel : n < fuel) :
  downloadImage env fuel url destPath w = settle env result destPath w.
Proof.
  revert fuel Hfuel.
  induction Hchain as [url e Hget | url r Hget Hred | url r n result Hget Hred _ IH];
    intros [|fuel] Hfuel; try lia; simpl;
    fold (protocolOf url); rewrite Hget.
  - reflexivity.
  - unfold redirects in Hred. rewrite Hred. by destruct (Nat.eqb _ 200).
  - unfold redirects in Hred. rewrite Hred. apply IH. lia.
Qed.

Lemma downloadImage_terminal_witness :
  Terminal movedServer "http://old/pic.png" 1 (NetResponse (mkResponse 200 None "PNG"))
  /\ 1 < 5
  /\ downloadImage movedServer 5 "http://old/pic.png" "/img/pic.png" imgWorld
     = settle movedServer (NetResponse (mkResponse 200 None "PNG")) "/img/pic.png" imgWorld.
Proof.
  assert (H1 : Terminal movedServer "http://old/pic.png" 1
                 (NetResponse (mkResponse 200 None "PNG"))).
  { eapply Terminal_redirect; [reflexivity | reflexivity |].
    apply Terminal_response; reflexivity. }
  assert (H2 : 1 < 5) by lia.
  exact (conj H1 (conj H2
           (downloadImage_terminal movedServer "http://old/pic.png" "/img/pic.png" 1 5
              (NetResponse (mkResponse 200 None "PNG")) imgWorld H1 H2))).
Defined.

(** The redirect is followed and the body lands at the destination. *)
Example download_follows_redirect :
  let r := downloadImage movedServer 5 "http://old/pic.png" "/img/pic.png" imgWorld in
  r.1 = Returned tt /\ fileAt r.2 ["img"; "pic.png"] = "PNG".
Proof. vm_compute. repeat split. Qed.

(** A 302 without [Location] is a terminal response and is rejected. *)
Example download_rejects_redirect_without_location :
  downloadImage (constantServer 302 EmptyString) 5 "http://host/pic.png" "/img/pic.png"
                imgWorld
  = (Thrown "Failed to download image: 302", imgWorld).
Proof. reflexivity. Qed.

(** ** [parseMarkdown] called twice (C9) *)

(** Rendering pushes the images of the nodes, in order, onto the array the variable
    [parsedImages] points to, and touches no other array. *)
Lemma renderNodes_spec env nodes :
  forall w l,
    w_heap w !! w_parsedImages w = Some l ->
    exists html,
      renderNodes env nodes w
      = (Returned html,
         mkWorld (w_fs w) (w_uuids w + length (imagesFrom env (w_currentBaseDir w)
                                                  (w_uuids w) nodes))
                 (w_console w)
                 (<[w_parsedImages w :=
                      l ++ imagesFrom env (w_currentBaseDir w) (w_uuids w) nodes]>
                    (w_heap w))
                 (w_parsedImages w) (w_currentBaseDir w) (w_markedConfigured w)
                 (w_extensions w) (w_renderers w)).
Proof.
  induction nodes as [|node nodes IH]; intros w l Hl.
  - exists EmptyString. simpl. unfold mret, M_ret.
    rewrite app_nil_r, insert_id by exact Hl.
    rewrite Nat.add_0_r. by destruct w.
  - destruct node as [html | href title text |].
    + destruct (IH w l Hl) as [t Ht]. exists (html +:+ t).
      simpl. unfold mbind, M_bind, mret, M_ret. simpl. by rewrite Ht.
    + set (image := mkImageReference href
             (if negb (startsWith href "http://") && negb (startsWith href "https://")
              then Path.resolve2 (env_cwd env) (w_currentBaseDir w) href else href)
             (or_else (env_mime_lookup env href) "image/jpeg")
             ("img-" +:+ env_uuidv4 env (w_uuids w))).
      set (w1 := mkWorld (w_fs w) (S (w_uuids w)) (w_console w)
                   (<[w_parsedImages w := l ++ [image]]> (w_heap w))
                   (w_parsedImages w) (w_currentBaseDir w) (w_markedConfigured w)
                   (w_extensions w) (w_renderers w)).
      destruct (IH w1 (l ++ [image])) as [t Ht].
      { simpl. apply lookup_insert_eq. }
      eexists. simpl.
      unfold mbind, M_bind, customImageRenderer, uuid, pushImage, set_parser.
      unfold mbind, M_bind, mret, M_ret. simpl. rewrite Hl. simpl.
      fold image. fold w1. rewrite Ht. simpl.
      rewrite insert_insert_eq, <- app_assoc. simpl.
      rewrite ?Nat.add_succ_r, ?Nat.add_succ_l. reflexivity.
    + destruct (IH w l Hl) as [t Ht]. exists ("<hr />" +:+ t).
      simpl. unfold mbind, M_bind, mret, M_ret. simpl. by rewrite Ht.
Qed.

(** One call: a new array is allocated, it receives the images of the document, and
    the arrays that existed before are as they were. *)
Lemma parseMarkdown_spec env p w r w' :
  parseMarkdown env p w = (Returned r, w') ->
  pr_images r = fresh (dom (w_heap w))
  /\ w_heap w' = <[pr_images r := ownImages env w p]> (w_heap w)
  /\ w_fs w' = w_fs w.
Proof.
  unfold parseMarkdown, mbind, M_bind, readFile, ownImages, textAt, fileAt.
  destruct (w_fs w !! key env p) as [[text|]|] eqn:Hfile; try discriminate.
  unfold resetState, configureMarked, useRenderer, currentArray, mret, M_ret.
  set (loc := fresh (dom (w_heap w))).
  set (w1 := set_parser loc [] (Path.dirname p) w).
  destruct (w_markedConfigured w1);
    match goal with
    | |- context [renderNodes env ?ns ?W] =>
        destruct (renderNodes_spec env ns W []) as [html Hr];
          [apply lookup_insert_eq | rewrite Hr]
    end;
    simpl; intros [= <- <-]; simpl; rewrite insert_insert_eq; auto.
Qed.

(** C9: of two calls of [parseMarkdown] in sequence, the second returns an array
    that holds exactly the images of its own document; it is another array than the
    one the first call returned, and that one still holds what it held when the
    first call returned, namely the images of the first document. *)
Theorem parseMarkdown_calls_isolated (env : Env) (p1 p2 : string)
    (w w1 w2 : World) (r1 r2 : ParsedRef)
    (Hfirst : parseMarkdown env p1 w = (Returned r1, w1))
    (Hsecond : parseMarkdown env p2 w1 = (Returned r2, w2)) :
  w_heap w2 !! pr_images r2 = Some (ownImages env w1 p2)
  /\ pr_images r2 <> pr_images r1
  /\ w_heap w2 !! pr_images r1 = w_heap w1 !! pr_images r1
  /\ w_heap w1 !! pr_images r1 = Some (ownImages env w p1).
Proof.
  apply parseMarkdown_spec in Hfirst as (Hloc1 & Hheap1 & _).
  apply parseMarkdown_spec in Hsecond as (Hloc2 & Hheap2 & _).
  assert (Hin : pr_images r1 ∈ dom (w_heap w1)).
  { rewrite Hheap1, dom_insert. set_solver. }
  assert (Hne : pr_images r2 <> pr_images r1).
  { intros E. rewrite <- E, Hloc2 in Hin. by apply is_fresh in Hin. }
  assert (Hown : w_heap w1 !! pr_images r1 = Some (ownImages env w p1)).
  { rewrite Hheap1. apply lookup_insert_eq. }
  rewrite Hheap2. rewrite lookup_insert_eq, lookup_insert_ne by exact Hne.
  auto.
Qed.

Lemma parseMarkdown_calls_isolated_witness :
  parseMarkdown twoDocsEnv "/b/one.md" (initialWorld twoDocsFs)
    = (Returned firstParsed, afterFirstParse)
  /\ parseMarkdown twoDocsEnv "/b/two.md" afterFirstParse
    = (Returned secondParsed, afterSecondParse)
  /\ w_heap afterSecondParse !! pr_images secondParsed
      = Some (ownImages twoDocsEnv afterFirstParse "/b/two.md")
  /\ pr_images secondParsed <> pr_images firstParsed
  /\ w_heap afterSecondParse !! pr_images firstParsed
      = w_heap afterFirstParse !! pr_images firstParsed
  /\ w_heap afterFirstParse !! pr_images firstParsed
      = Some (ownImages twoDocsEnv (initialWorld twoDocsFs) "/b/one.md").
Proof.
  assert (H1 : parseMarkdown twoDocsEnv "/b/one.md" (initialWorld twoDocsFs)
               = (Returned firstParsed, afterFirstParse)) by (vm_compute; reflexivity).
  assert (H2 : parseMarkdown twoDocsEnv "/b/two.md" afterFirstParse
               = (Returned secondParsed, afterSecondParse)) by (vm_compute; reflexivity).
  exact (conj H1 (conj H2
           (parseMarkdown_calls_isolated twoDocsEnv "/b/one.md" "/b/two.md"
              (initialWorld twoDocsFs) afterFirstParse afterSecondParse
              firstParsed secondParsed H1 H2))).
Defined.

(** The two arrays after both calls: each holds the image of its own document. *)
Example parsed_arrays_after_both_calls :
  img_src <$> default [] (w_heap afterSecondParse !! pr_images firstParsed) = ["a.png"]
  /\ img_src <$> default [] (w_heap afterSecondParse !! pr_images secondParsed) = ["b.png"].
Proof. vm_compute. repeat split. Qed.

(** ** The staging directory is removed (C8) *)


Lemma rm_returns env p w : (rm env p w).1 = Returned tt.
Proof. reflexivity. Qed.



(** A conversion that succeeds leaves no staging directory behind. *)
Example staging_removed_on_success :
  let r := convertMarkdownToEpub (sampleEnv [MdHtml "<p>x</p>"]) 1 sampleOptions
             (initialWorld (sampleFs "x")) in
  r.1 = Returned "/out/doc.epub" /\ stagedPaths r.2 = [].
Proof. vm_compute. repeat split. Qed.

(** A call that fails at its first step (the directory of the output is a file)
    throws and leaves no staging directory behind. *)
Example staging_removed_on_failure :
  let r := generateEpub (sampleEnv []) 1 "<p>x</p>" sampleBook [] "/b/doc.md/doc.epub"
             (initialWorld (sampleFs "x")) in
  r.1 = Thrown "ENOTDIR" /\ stagedPaths r.2 = [].
Proof. vm_compute. repeat split. Qed.

(** A call that fails in the middle of the staging throws, and the directories it
    had created are gone. *)
Example staging_removed_after_partial_staging :
  let staging := createEpubStructure (sampleEnv []) 1 "/out/.epub-temp-u0" "<p>x</p>"
                   sampleBook [] (afterToken (sampleEnv []) collisionWorld) in
  let r := generateEpub (sampleEnv []) 1 "<p>x</p>" sampleBook [] "/out/doc.epub"
             collisionWorld in
  staging.1 = Thrown "EISDIR"
  /\ [".epub-temp-u0"; "OEBPS"; "css"] ∈ (drop 1 <$> stagedPaths staging.2)
  /\ r.1 = Thrown "EISDIR" /\ stagedPaths r.2 = [].
Proof.
  vm_compute. repeat split. apply list_elem_of_In. simpl. tauto.
Qed.

(** When the output path is a directory the archive step never settles: the call
    does not come back and the staged tree stays. *)
Example unopened_output_never_settles :
  let r := convertMarkdownToEpub (sampleEnv [MdHtml "<p>x</p>"]) 1 directoryOptions
             (initialWorld (sampleFs "x")) in
  r.1 = Pending /\ [".epub-temp-u1"; "mimetype"] ∈ stagedPaths r.2.
Proof.
  vm_compute. split; [reflexivity |]. apply list_elem_of_In. simpl. tauto.
Qed.

(** ** Footnotes (C6) *)

Section Footnotes.
Import Footnote Marked.














Lemma links_footnote x token : links x (footnote_pieces token) = 0.
Proof. reflexivity. Qed.










(** One reference and one definition: one link, one anchor. *)
Example one_reference_one_link :
  exists tokens,
    lex oneReference = Some tokens
    /\ references "x" tokens = 1 /\ definitions "x" tokens = 1
    /\ occurrences ("<sup><a href=" +:+ q "#fn-x") (contentDocument oneReference "T") = 1
    /\ occurrences ("href=" +:+ q "#fn-x") (contentDocument oneReference "T") = 1
    /\ occurrences ("id=" +:+ q "fn-x") (contentDocument oneReference "T") = 1.
Proof. eexists. vm_compute. repeat split. Qed.

(** The renderers on the two kinds of token. *)
Example footnote_renderer_text :
  footnote_renderer (mkFootnoteToken "[^x]: t" "x" "t")
  = "<div class=" +:+ q "footnote" +:+ " id=" +:+ q "fn-x" +:+ ">" +:+ nl
      +:+ "        <sup>x</sup> t" +:+ nl +:+ "      </div>" +:+ nl
  /\ footnoteRef_renderer (mkFootnoteRefToken "[^x]" "x")
     = "<sup><a href=" +:+ q "#fn-x" +:+ " id=" +:+ q "ref-x" +:+ ">x</a></sup>".
Proof. split; reflexivity. Qed.
End Footnotes.

(** ** The drivers run the loops above *)

(** What the chapter driver accumulates is [chapterSteps] over the documents it
    parsed, one per input path and in input order. *)
Lemma parseChapters_steps env inputPaths :
  forall i st0 w st w',
    parseChapters env i inputPaths st0 w = (Returned st, w') ->
    exists docs, docs.*1 = inputPaths /\ st = chapterSteps i docs st0.
Proof.
  induction inputPaths as [|inputPath rest IH]; intros i st0 w st w' H.
  - injection H as <- <-. by exists [].
  - simpl in H. unfold mbind, M_bind, console_log in H.
    destruct (parseDocument env inputPath _) as [[doc|e|] w1]; try discriminate.
    apply IH in H as (docs & Hpaths & ->).
    exists ((inputPath, doc) :: docs). split; [by rewrite fmap_cons, Hpaths | reflexivity].
Qed.

(** When the archive step returns, the output file is the archive of the entries
    of [archiveEntries], the staged marker file first. *)
Lemma createEpubArchive_writes env tempDir outputPath w w' :
  createEpubArchive env tempDir outputPath w = (Returned tt, w') ->
  exists mimetype,
    w_fs w !! key env (Path.join [tempDir; "mimetype"]) = Some (File mimetype)
    /\ w_fs w' !! key env outputPath
       = Some (File (env_zip env (archiveEntries env (w_fs w) tempDir mimetype))).
Proof.
  unfold createEpubArchive.
  destruct (writable _ _); simpl; [|discriminate].
  destruct (w_fs w !! key env (Path.join [tempDir; "mimetype"])) as [[data|]|];
    try discriminate.
  intros [= <-]. exists data. split; [reflexivity |]. simpl. apply lookup_insert_eq.
Qed.

(** * Further properties of the code *)

(** ** [escapeXml] and [escapeHtml] *)

Lemma escapeXml_app a b : escapeXml (a +:+ b) = escapeXml a +:+ escapeXml b.
Proof.
  induction a as [|c a IH]; [reflexivity |].
  rewrite append_cons. simpl. by rewrite IH, append_assoc.
Qed.

Lemma escapeXml_char_cases c :
  (replaced c = false /\ escapeXml_char c = String c EmptyString)
  \/ (replaced c = true /\ escapeXml_char c ∈ xmlEntities).
Proof.
  unfold escapeXml_char, replaced, special, xmlEntities.
  repeat case_bool_decide; subst; simpl;
    first [ left; split; reflexivity
          | right; split; [reflexivity | set_solver] ].
Qed.

Lemma well_escaped_xml_entity e rest :
  e ∈ xmlEntities -> well_escaped xmlEntities rest = true ->
  well_escaped xmlEntities (e +:+ rest) = true.
Proof.
  intros He Hrest. unfold xmlEntities in He.
  repeat (apply elem_of_cons in He as [-> | He]); try exact Hrest.
  by apply elem_of_nil in He.
Qed.

(** X1: in the text [escapeXml] returns no angle bracket and no quote occurs, and
    every ampersand starts one of the five entities: an escaped text cannot open or
    close markup or an attribute value. *)
Theorem escapeXml_well_escaped (text : string) :
  well_escaped xmlEntities (escapeXml text) = true.
Proof.
  induction text as [|c s IH]; [reflexivity |].
  simpl. destruct (escapeXml_char_cases c) as [[Hc ->] | [_ He]].
  - change (String c EmptyString +:+ escapeXml s) with (String c (escapeXml s)).
    simpl. rewrite IH.
    unfold replaced in Hc. apply orb_false_elim in Hc as [-> Hamp].
    by rewrite Hamp.
  - by apply well_escaped_xml_entity.
Qed.

Lemma escapeXml_char_inj c1 c2 r1 r2 :
  escapeXml_char c1 +:+ r1 = escapeXml_char c2 +:+ r2 -> c1 = c2 /\ r1 = r2.
Proof.
  unfold escapeXml_char.
  repeat case_bool_decide; subst; rewrite ?append_cons; intros Heq;
    try (injection Heq; intros; subst; done);
    try discriminate Heq.
Qed.

(** X2: [escapeXml] loses nothing: two texts with the same escaped form are the same
    text. *)
Theorem escapeXml_injective (a b : string) (H : escapeXml a = escapeXml b) : a = b.
Proof.
  revert b H. induction a as [|x a IH]; intros [|y b] H.
  - reflexivity.
  - simpl in H. exfalso. unfold escapeXml_char in H.
    repeat case_bool_decide; discriminate H.
  - simpl in H. exfalso. unfold escapeXml_char in H.
    repeat case_bool_decide; discriminate H.
  - simpl in H. apply escapeXml_char_inj in H as [-> H]. f_equal. by apply IH.
Qed.

Lemma escapeXml_injective_witness :
  escapeXml "a<b" = escapeXml "a<b" /\ "a<b" = "a<b".
Proof.
  assert (H : escapeXml "a<b" = escapeXml "a<b") by reflexivity.
  exact (conj H (escapeXml_injective "a<b" "a<b" H)).
Defined.

Lemma length_append_string (a b : string) :
  String.length (a +:+ b) = String.length a + String.length b.
Proof.
  induction a as [|c a IH]; [reflexivity |].
  rewrite append_cons. simpl. by rewrite IH.
Qed.

Lemma escapeXml_length text : String.length text <= String.length (escapeXml text).
Proof.
  induction text as [|c s IH]; [done |].
  simpl. rewrite length_append_string.
  assert (1 <= String.length (escapeXml_char c)).
  { unfold escapeXml_char. repeat case_bool_decide; simpl; lia. }
  lia.
Qed.

Lemma escapeXml_fixed_iff text :
  escapeXml text = text <-> all_chars (fun c => negb (replaced c)) text = true.
Proof.
  induction text as [|c s IH]; [done |].
  simpl. destruct (escapeXml_char_cases c) as [[Hc Hx] | [Hc _]].
  - rewrite Hx, Hc. simpl.
    change (String c EmptyString +:+ escapeXml s) with (String c (escapeXml s)).
    rewrite <- IH. split; [by intros [= ->] | by intros ->].
  - rewrite Hc. simpl. split; [|done].
    intros Heq. exfalso.
    pose proof (escapeXml_length s) as Hlen.
    apply (f_equal String.length) in Heq.
    rewrite length_append_string in Heq. simpl in Heq.
    assert (2 <= String.length (escapeXml_char c)).
    { unfold replaced, special in Hc. unfold escapeXml_char.
      repeat case_bool_decide; simpl in *; try lia; discriminate Hc. }
    lia.
Qed.

Lemma escapeXml_clean text :
  all_chars (fun c => negb (replaced c)) (escapeXml text) = true ->
  all_chars (fun c => negb (replaced c)) text = true.
Proof.
  induction text as [|c s IH]; [done |].
  simpl. rewrite all_chars_app.
  destruct (escapeXml_char_cases c) as [[Hc Hx] | [_ He]].
  - rewrite Hx, Hc. simpl. rewrite Hc. exact IH.
  - unfold xmlEntities in He.
    repeat (apply elem_of_cons in He as [-> | He]); try discriminate.
    by apply elem_of_nil in He.
Qed.

(** X3: escaping is not idempotent.  Escaping an escaped text once more gives the
    same text exactly when the original text has none of the five characters
    (ampersand, angle brackets, double and single quote); a text that has one is
    changed again by a second pass. *)
Theorem escapeXml_twice (text : string) :
  escapeXml (escapeXml text) = escapeXml text
  <-> all_chars (fun c => negb (replaced c)) text = true.
Proof.
  split.
  - intros H%escapeXml_fixed_iff. by apply escapeXml_clean.
  - intros H%escapeXml_fixed_iff. by rewrite !H.
Qed.

Example escapeXml_twice_ampersand :
  escapeXml "a&b" = "a&amp;b" /\ escapeXml (escapeXml "a&b") = "a&amp;amp;b".
Proof. split; reflexivity. Qed.

Lemma escapeHtml_char_cases c :
  (replaced c = false /\ escapeHtml_char c = String c EmptyString)
  \/ (replaced c = true /\ escapeHtml_char c ∈ htmlEntities).
Proof.
  unfold escapeHtml_char, replaced, special, htmlEntities.
  repeat case_bool_decide; subst; simpl;
    first [ left; split; reflexivity
          | right; split; [reflexivity | set_solver] ].
Qed.

(** X4: in the text [escapeHtml] returns no angle bracket and no quote occurs, and
    every ampersand starts one of its five entities: the [alt] and [title] values
    the image hook writes cannot end their attribute. *)
Theorem escapeHtml_well_escaped (text : string) :
  well_escaped htmlEntities (escapeHtml text) = true.
Proof.
  induction text as [|c s IH]; [reflexivity |].
  simpl. destruct (escapeHtml_char_cases c) as [[Hc ->] | [_ He]].
  - change (String c EmptyString +:+ escapeHtml s) with (String c (escapeHtml s)).
    simpl. rewrite IH.
    unfold replaced in Hc. apply orb_false_elim in Hc as [-> Hamp].
    by rewrite Hamp.
  - unfold htmlEntities in He.
    repeat (apply elem_of_cons in He as [-> | He]); try exact IH.
    by apply elem_of_nil in He.
Qed.

(** ** The manifest, the spine and the navigation map *)

Lemma to_uint_nonnil n : Nat.to_uint n <> Decimal.Nil.
Proof.
  rewrite <- (DecimalNat.Unsigned.of_to n) at 1.
  rewrite DecimalNat.Unsigned.to_of. apply DecimalFacts.unorm_nonnil.
Qed.

Lemma show_nat_inj a b : show_nat a = show_nat b -> a = b.
Proof.
  unfold show_nat. intros H.
  apply (f_equal NilZero.uint_of_string) in H.
  rewrite !NilZero.usu in H by apply to_uint_nonnil. injection H as H.
  by apply DecimalNat.Unsigned.to_uint_inj.
Qed.

Lemma append_inj_l (p a b : string) : p +:+ a = p +:+ b -> a = b.
Proof.
  induction p as [|c p IH]; [done |].
  rewrite !append_cons. intros [= H]. by apply IH.
Qed.

Lemma imageItems_ids images :
  item_id <$> imageItems images = (fun i => "image-" +:+ show_nat i) <$> seq 0 (length images).
Proof.
  unfold imageItems. rewrite fmap_imap.
  induction images as [|x l IH] using rev_ind; [reflexivity |].
  rewrite imap_app, length_app, seq_app, fmap_app. simpl.
  rewrite IH. by rewrite Nat.add_0_r.
Qed.

Lemma image_ids_NoDup images : NoDup (item_id <$> imageItems images).
Proof.
  rewrite imageItems_ids. apply NoDup_fmap_2; [|apply NoDup_seq].
  intros a b H. by apply append_inj_l, show_nat_inj in H.
Qed.

Lemma image_id_begins id images :
  id ∈ item_id <$> imageItems images -> begins "image-" id = true.
Proof.
  rewrite imageItems_ids. intros (i & -> & _)%list_elem_of_fmap. reflexivity.
Qed.

Lemma cover_ids md : item_id <$> coverItems md = [] \/ item_id <$> coverItems md = ["cover-image"].
Proof. unfold coverItems. destruct (m_cover md) as [[|c s]|]; auto. Qed.

Lemma chapterStep_chapters i inputPath doc st :
  cs_chapters (chapterStep i inputPath doc st)
  = cs_chapters st ++ [chapterAt i (inputPath, doc)].
Proof.
  unfold chapterStep, chapterAt, chapterLabel. simpl. by rewrite or_else_cases.
Qed.

Lemma chapterSteps_chapters docs :
  forall i st,
    cs_chapters (chapterSteps i docs st)
    = cs_chapters st ++ imap (fun k d => chapterAt (i + k) d) docs.
Proof.
  induction docs as [|[inputPath doc] docs IH]; intros i st; simpl.
  - by rewrite app_nil_r.
  - rewrite IH, chapterStep_chapters, <- app_assoc. simpl.
    rewrite Nat.add_0_r. do 2 f_equal.
    apply imap_ext. intros k d _. simpl. f_equal. lia.
Qed.

Lemma imap_chapterAt_ids docs :
  ch_id <$> imap chapterAt docs
  = (fun k => "chapter-" +:+ show_nat (k + 1)) <$> seq 0 (length docs).
Proof.
  rewrite fmap_imap.
  induction docs as [|x l IH] using rev_ind; [reflexivity |].
  rewrite imap_app, length_app, seq_app, fmap_app. simpl.
  rewrite IH. by rewrite Nat.add_0_r.
Qed.

Lemma imap_chapterAt_orders docs :
  ch_order <$> imap chapterAt docs = seq 1 (length docs).
Proof.
  rewrite fmap_imap.
  induction docs as [|x l IH] using rev_ind; [reflexivity |].
  rewrite imap_app, length_app, seq_app, IH. simpl.
  by rewrite Nat.add_0_r, Nat.add_1_r.
Qed.

Lemma imap_chapterAt_html docs :
  ch_html <$> imap chapterAt docs = (fun d => mc_html d.2) <$> docs.
Proof.
  rewrite fmap_imap.
  induction docs as [|x l IH] using rev_ind; [reflexivity |].
  rewrite imap_app, fmap_app, IH. reflexivity.
Qed.

Lemma chapter_ids_NoDup docs : NoDup (ch_id <$> imap chapterAt docs).
Proof.
  rewrite imap_chapterAt_ids. apply NoDup_fmap_2; [|apply NoDup_seq].
  intros a b H. apply append_inj_l, show_nat_inj in H. lia.
Qed.

(** X5: the chapters the loop of the chapter driver builds are numbered in input
    order: the chapter of the document at index k has the order k+1 and the id
    chapter-(k+1), it carries that document's content, and no two chapters share
    an id. *)
Theorem chapters_numbered (docs : list (string * MarkdownContent)) :
  let chapters := cs_chapters (chapterSteps 0 docs initialChapterState) in
  chapters = imap chapterAt docs
  /\ ch_order <$> chapters = seq 1 (length docs)
  /\ ch_html <$> chapters = (fun d => mc_html d.2) <$> docs
  /\ NoDup (ch_id <$> chapters).
Proof.
  intros chapters.
  assert (Hc : chapters = imap chapterAt docs).
  { unfold chapters. rewrite chapterSteps_chapters. reflexivity. }
  rewrite Hc. split; [reflexivity |].
  split; [apply imap_chapterAt_orders |].
  split; [apply imap_chapterAt_html | apply chapter_ids_NoDup].
Qed.

Lemma chapter_id_begins id docs :
  id ∈ ch_id <$> imap chapterAt docs -> begins "chapter-" id = true.
Proof.
  rewrite imap_chapterAt_ids. intros (i & -> & _)%list_elem_of_fmap. reflexivity.
Qed.

Lemma chapterItem_ids (chapters : list Chapter) :
  item_id <$> (chapterItem <$> chapters) = ch_id <$> chapters.
Proof. by rewrite <- list_fmap_compose. Qed.

Lemma cover_images_ids_NoDup md images :
  NoDup (item_id <$> (coverItems md ++ imageItems images)).
Proof.
  rewrite fmap_app. apply NoDup_app. split; [|split].
  - destruct (cover_ids md) as [-> | ->]; [constructor |].
    apply NoDup_singleton.
  - intros id Hcover Himage. apply image_id_begins in Himage.
    destruct (cover_ids md) as [H | H]; rewrite H in Hcover.
    + by apply elem_of_nil in Hcover.
    + apply list_elem_of_singleton in Hcover as ->. discriminate Himage.
  - apply image_ids_NoDup.
Qed.

Lemma cover_images_id_cases id md images :
  id ∈ item_id <$> (coverItems md ++ imageItems images) ->
  id = "cover-image" \/ begins "image-" id = true.
Proof.
  rewrite fmap_app. intros [Hcover | Himage]%elem_of_app.
  - destruct (cover_ids md) as [H | H]; rewrite H in Hcover.
    + by apply elem_of_nil in Hcover.
    + left. by apply list_elem_of_singleton in Hcover.
  - right. by apply image_id_begins in Himage.
Qed.

(** X6: no two items of a package manifest share an id, in single-document mode
    and, for the chapters the chapter driver builds, in chapter mode. *)
Theorem manifest_ids_unique (md : EpubMetadata) (images : list ImageReference)
    (docs : list (string * MarkdownContent)) :
  NoDup (item_id <$> manifestItems md images)
  /\ NoDup (item_id <$> multiChapterManifestItems md images
                          (cs_chapters (chapterSteps 0 docs initialChapterState))).
Proof.
  split.
  - unfold manifestItems.
    change ([ncxItem; styleItem; contentItem] ++ coverItems md ++ imageItems images)
      with (ncxItem :: styleItem :: contentItem :: (coverItems md ++ imageItems images)).
    rewrite !fmap_cons. simpl item_id.
    repeat (apply NoDup_cons; split);
      [ .. | apply cover_images_ids_NoDup ];
      rewrite ?not_elem_of_cons; repeat split; try discriminate;
      intros [H | H]%cover_images_id_cases; vm_compute in H; discriminate.
  - rewrite chapterSteps_chapters. simpl app.
    unfold multiChapterManifestItems.
    change ([ncxItem; styleItem] ++ ?l) with (ncxItem :: styleItem :: l).
    rewrite !fmap_cons, fmap_app, chapterItem_ids. simpl item_id.
    assert (Hrest : NoDup ((ch_id <$> imap chapterAt docs)
                           ++ (item_id <$> (coverItems md ++ imageItems images)))).
    { apply NoDup_app. split; [apply chapter_ids_NoDup | split].
      - intros id Hch%chapter_id_begins [-> | H]%cover_images_id_cases;
          [discriminate |].
        destruct id as [|c id]; [discriminate |].
        simpl in Hch, H. repeat case_bool_decide; subst; discriminate.
      - apply cover_images_ids_NoDup. }
    repeat (apply NoDup_cons; split); [ .. | exact Hrest ];
      rewrite ?not_elem_of_cons, ?not_elem_of_app; repeat split; try discriminate;
      try (intros Hch%chapter_id_begins; vm_compute in Hch; discriminate);
      intros [H | H]%cover_images_id_cases; vm_compute in H; discriminate.
Qed.

Lemma contains_trans a b c : contains a b -> contains b c -> contains a c.
Proof.
  intros (p1 & q1 & ->) (p2 & q2 & ->).
  exists (p2 +:+ p1), (q1 +:+ q2). by rewrite !append_assoc.
Qed.

(** Walk through a concatenation until one of its parts is the pattern. *)
Ltac find_part :=
  first [ apply contains_refl
        | apply contains_app_l; apply contains_refl
        | apply contains_app_r; find_part ].

Lemma coverItem_rendered it md :
  it ∈ coverItems md -> contains (renderItem it) (coverItem md).
Proof.
  unfold coverItem, coverItems.
  destruct (m_cover md) as [[|c s]|]; try (by intros ?%elem_of_nil).
  intros ->%list_elem_of_singleton. apply contains_app_l, contains_refl.
Qed.

Lemma imageManifest_rendered it images :
  it ∈ imageItems images -> contains (renderItem it) (imageManifest images).
Proof. intros H. apply contains_concat. by apply list_elem_of_fmap_2. Qed.

Lemma chapterManifest_rendered c (chapters : list Chapter) :
  c ∈ chapters -> contains (renderItem (chapterItem c)) (chapterManifest chapters).
Proof. intros H. apply contains_concat. by do 2 apply list_elem_of_fmap_2. Qed.

Lemma chapterSpine_rendered c (chapters : list Chapter) :
  c ∈ chapters -> contains (renderItemref (ch_id c)) (chapterSpine chapters).
Proof. intros H. apply contains_concat. by do 2 apply list_elem_of_fmap_2. Qed.

(** X7: the package document is the rendering of the manifest and of the spine:
    every item of the manifest list is written in it as an item element and every
    id of the spine as an itemref element, in single-document and in chapter
    mode. *)
Theorem package_document_lists_items (md : EpubMetadata)
    (images : list ImageReference) (chapters : list Chapter) (today : string) :
  Forall (fun it => contains (renderItem it) (getContentOpf md images today))
         (manifestItems md images)
  /\ Forall (fun idref => contains (renderItemref idref) (getContentOpf md images today))
            spineIdrefs
  /\ Forall (fun it => contains (renderItem it)
                         (getMultiChapterContentOpf md images chapters today))
            (multiChapterManifestItems md images chapters)
  /\ Forall (fun idref => contains (renderItemref idref)
                            (getMultiChapterContentOpf md images chapters today))
            (multiChapterSpineIdrefs chapters).
Proof.
  split; [|split; [|split]].
  - unfold manifestItems. rewrite !Forall_app. split; [|split].
    + repeat constructor; unfold getContentOpf; find_part.
    + apply Forall_forall. intros it Hit.
      apply (contains_trans _ (coverItem md)); [by apply coverItem_rendered |].
      unfold getContentOpf. find_part.
    + apply Forall_forall. intros it Hit.
      apply (contains_trans _ (imageManifest images));
        [by apply imageManifest_rendered |].
      unfold getContentOpf. find_part.
  - repeat constructor. unfold getContentOpf. find_part.
  - unfold multiChapterManifestItems. rewrite !Forall_app. split; [|split; [|split]].
    + repeat constructor; unfold getMultiChapterContentOpf; find_part.
    + apply Forall_forall. intros it (c & -> & Hc)%list_elem_of_fmap.
      apply (contains_trans _ (chapterManifest chapters));
        [by apply chapterManifest_rendered |].
      unfold getMultiChapterContentOpf. find_part.
    + apply Forall_forall. intros it Hit.
      apply (contains_trans _ (coverItem md)); [by apply coverItem_rendered |].
      unfold getMultiChapterContentOpf. find_part.
    + apply Forall_forall. intros it Hit.
      apply (contains_trans _ (imageManifest images));
        [by apply imageManifest_rendered |].
      unfold getMultiChapterContentOpf. find_part.
  - apply Forall_forall. intros idref (c & -> & Hc)%list_elem_of_fmap.
    apply (contains_trans _ (chapterSpine chapters));
      [by apply chapterSpine_rendered |].
    unfold getMultiChapterContentOpf. find_part.
Qed.

(** X8: the reading order is the order of the chapter list.  The chapter at
    position k is an item of the manifest, the k-th entry of the spine, and the
    target of the navigation point with play order k+1, whose label is the
    chapter's title and whose source is the href of the chapter's manifest
    item. *)
Theorem chapter_reading_order (md : EpubMetadata) (images : list ImageReference)
    (chapters : list Chapter) (today : string) (k : nat) (c : Chapter)
    (Hk : chapters !! k = Some c) :
  chapterItem c ∈ multiChapterManifestItems md images chapters
  /\ multiChapterSpineIdrefs chapters !! k = Some (item_id (chapterItem c))
  /\ contains (renderItemref (ch_id c))
              (getMultiChapterContentOpf md images chapters today)
  /\ contains (navPoint (k + 1) (ch_title c) (item_href (chapterItem c)))
              (getMultiChapterTocNcx md chapters).
Proof.
  assert (Hc : c ∈ chapters) by (by eapply list_elem_of_lookup_2).
  split; [|split; [|split]].
  - unfold multiChapterManifestItems.
    apply elem_of_app. right. apply elem_of_app. left.
    by apply list_elem_of_fmap_2.
  - unfold multiChapterSpineIdrefs. by rewrite list_lookup_fmap, Hk.
  - apply (contains_trans _ (chapterSpine chapters));
      [by apply chapterSpine_rendered |].
    unfold getMultiChapterContentOpf. find_part.
  - apply (contains_trans _ (navPoints chapters)).
    + unfold navPoints. apply contains_concat.
      apply (elem_of_lookup_imap_2
               (fun idx chapter =>
                  navPoint (idx + 1) (ch_title chapter) (ch_id chapter +:+ ".xhtml"))
               chapters c k Hk).
    + unfold getMultiChapterTocNcx. find_part.
Qed.

Lemma chapter_reading_order_witness :
  sampleChapters !! 1 = Some secondChapter
  /\ chapterItem secondChapter ∈ multiChapterManifestItems sampleBook [] sampleChapters
  /\ multiChapterSpineIdrefs sampleChapters !! 1 = Some (item_id (chapterItem secondChapter))
  /\ contains (renderItemref (ch_id secondChapter))
              (getMultiChapterContentOpf sampleBook [] sampleChapters "2024-01-02")
  /\ contains (navPoint (1 + 1) (ch_title secondChapter)
                        (item_href (chapterItem secondChapter)))
              (getMultiChapterTocNcx sampleBook sampleChapters).
Proof.
  assert (Hk : sampleChapters !! 1 = Some secondChapter) by reflexivity.
  exact (conj Hk (chapter_reading_order sampleBook [] sampleChapters "2024-01-02" 1
                    secondChapter Hk)).
Defined.

Example second_chapter_navigation_point :
  secondChapter = mkChapter "ch2" "<p>two</p>" "chapter-2" 2
  /\ occurrences ("<navPoint id=" +:+ q "navpoint-2" +:+ " playOrder=" +:+ q "2" +:+ ">")
                 (getMultiChapterTocNcx sampleBook sampleChapters) = 1
  /\ occurrences ("<content src=" +:+ q "chapter-2.xhtml" +:+ "/>")
                 (getMultiChapterTocNcx sampleBook sampleChapters) = 1.
Proof. vm_compute. repeat split. Qed.

(** ** Fields the generator never reads *)

Lemma for_of_fmap {A B} (g : A -> B) (body1 : B -> M unit) (body2 : A -> M unit)
    (l : list A) :
  (forall x, body1 (g x) = body2 x) ->
  for_of (g <$> l) body1 = for_of l body2.
Proof.
  intros H. induction l as [|x l IH]; [reflexivity |].
  rewrite fmap_cons.
  change (for_of (g x :: (g <$> l)) body1)
    with (body1 (g x) ≫= fun _ => for_of (g <$> l) body1).
  rewrite H, IH. reflexivity.
Qed.

Lemma chapterManifest_withOrder f chapters :
  chapterManifest (withOrder f <$> chapters) = chapterManifest chapters.
Proof. unfold chapterManifest. by rewrite <- !list_fmap_compose. Qed.

Lemma chapterSpine_withOrder f chapters :
  chapterSpine (withOrder f <$> chapters) = chapterSpine chapters.
Proof. unfold chapterSpine. by rewrite <- !list_fmap_compose. Qed.

Lemma navPoints_withOrder f chapters :
  navPoints (withOrder f <$> chapters) = navPoints chapters.
Proof. unfold navPoints. by rewrite imap_fmap. Qed.

Lemma structure_withOrder env fuel tempDir f chapters md images :
  createMultiChapterEpubStructure env fuel tempDir (withOrder f <$> chapters) md images
  = createMultiChapterEpubStructure env fuel tempDir chapters md images.
Proof.
  unfold createMultiChapterEpubStructure, getMultiChapterContentOpf, getMultiChapterTocNcx.
  rewrite chapterManifest_withOrder, chapterSpine_withOrder, navPoints_withOrder.
  by rewrite (for_of_fmap (withOrder f) _
                (fun chapter =>
                   writeFile env (Path.join [tempDir; "OEBPS"; ch_id chapter +:+ ".xhtml"])
                             (getContentXhtml (ch_html chapter) (ch_title chapter)))).
Qed.

(** X9: the [order] field of a chapter is never read.  The generator numbers the
    navigation points and orders the spine by the position of a chapter in the
    list it is given: chapters that differ only in their [order] fields give the
    same package, whatever those fields hold. *)
Theorem chapter_order_never_read (env : Env) (fuel : nat) (f : Chapter -> nat)
    (chapters : list Chapter) (metadata : EpubMetadata)
    (images : list ImageReference) (outputPath : string) (w : World) :
  generateMultiChapterEpub env fuel (withOrder f <$> chapters) metadata images outputPath w
  = generateMultiChapterEpub env fuel chapters metadata images outputPath w.
Proof.
  unfold generateMultiChapterEpub.
  unfold mbind, M_bind. destruct (uuid env w) as [[token | e |] w0]; try reflexivity.
  by rewrite structure_withOrder.
Qed.

Lemma imageItems_withId f images : imageItems (withId f <$> images) = imageItems images.
Proof. unfold imageItems. by rewrite imap_fmap. Qed.

Lemma imageManifest_withId f images :
  imageManifest (withId f <$> images) = imageManifest images.
Proof. unfold imageManifest. by rewrite imageItems_withId. Qed.

Lemma stageImages_withId env fuel tempDir f images :
  for_of (withId f <$> images) (stageImage env fuel tempDir)
  = for_of images (stageImage env fuel tempDir).
Proof. by apply for_of_fmap. Qed.

(** X10: the [id] field of an image reference (the img-uuid the image hook draws)
    is never read.  Manifest ids are made from the position of an image in the
    list; image lists that differ only in their [id] fields give the same package,
    in single-document and in chapter mode. *)
Theorem image_id_never_read (env : Env) (fuel : nat) (f : ImageReference -> string)
    (htmlContent : string) (chapters : list Chapter) (metadata : EpubMetadata)
    (images : list ImageReference) (outputPath : string) (w : World) :
  generateEpub env fuel htmlContent metadata (withId f <$> images) outputPath w
  = generateEpub env fuel htmlContent metadata images outputPath w
  /\ generateMultiChapterEpub env fuel chapters metadata (withId f <$> images) outputPath w
     = generateMultiChapterEpub env fuel chapters metadata images outputPath w.
Proof.
  unfold generateEpub, generateMultiChapterEpub.
  unfold mbind, M_bind. destruct (uuid env w) as [[token | e |] w0]; try done.
  unfold createEpubStructure, createMultiChapterEpubStructure,
    getContentOpf, getMultiChapterContentOpf.
  by rewrite imageManifest_withId, stageImages_withId.
Qed.

(** ** The image list of a book *)

Lemma collectImages_sublist images :
  forall seen all,
    exists kept, (collectImages (seen, all) images).2 = all ++ kept /\ sublist kept images.
Proof.
  induction images as [|x images IH]; intros seen all.
  - exists []. by rewrite app_nil_r.
  - change (collectImages (seen, all) (x :: images))
      with (collectImages (collectImage (seen, all) x) images).
    unfold collectImage. simpl. case_bool_decide.
    + destruct (IH seen all) as (kept & -> & Hsub).
      exists kept. split; [reflexivity | by apply sublist_cons].
    + destruct (IH ({[Path.basename (img_src x)]} ∪ seen) (all ++ [x])) as (kept & -> & Hsub).
      exists (x :: kept). rewrite <- app_assoc. split; [reflexivity | by apply sublist_skip].
Qed.

Lemma collectImages_fresh images :
  forall all,
    NoDup (imageKey <$> (all ++ images)) ->
    collectImages (list_to_set (imageKey <$> all), all) images
    = (list_to_set (imageKey <$> (all ++ images)), all ++ images).
Proof.
  induction images as [|x images IH]; intros all Hnd.
  - by rewrite app_nil_r.
  - change (collectImages (list_to_set (imageKey <$> all), all) (x :: images))
      with (collectImages (collectImage (list_to_set (imageKey <$> all), all) x) images).
    unfold collectImage. simpl. fold (imageKey x).
    rewrite bool_decide_eq_false_2.
    + replace ({[imageKey x]} ∪ list_to_set (imageKey <$> all))
        with (list_to_set (C := gset string) (imageKey <$> (all ++ [x]))).
      * rewrite IH; rewrite <- app_assoc; [reflexivity | exact Hnd].
      * rewrite fmap_app, list_to_set_app_L. simpl.
        rewrite (right_id_L ∅ (∪)). apply (comm_L (∪)).
    + rewrite fmap_app in Hnd. apply NoDup_app in Hnd as (_ & Hdisj & _).
      intros Hin%elem_of_list_to_set. apply (Hdisj _ Hin). simpl. left.
Qed.

(** X11: the image list of a chapter-mode book is a selection from the images of
    its documents that keeps their order, and the selection is stable: running
    the same loop over the selected list selects all of it. *)
Theorem collected_images_selection (docs : list (string * MarkdownContent)) :
  let all := cs_allImages (chapterSteps 0 docs initialChapterState) in
  sublist all (inputImages docs)
  /\ (collectImages (∅, []) all).2 = all.
Proof.
  intros all.
  pose proof (chapterSteps_images docs 0 initialChapterState) as Hloop.
  simpl in Hloop. apply (f_equal snd) in Hloop. simpl in Hloop. fold all in Hloop.
  split.
  - destruct (collectImages_sublist (inputImages docs) ∅ []) as (kept & Hkept & Hsub).
    rewrite Hloop, Hkept. exact Hsub.
  - destruct (collectImages_spec (inputImages docs) ∅ []) as (_ & Hnd & _);
      [reflexivity | constructor |].
    rewrite <- Hloop in Hnd.
    pose proof (collectImages_fresh all [] Hnd) as Hfresh.
    simpl in Hfresh. by rewrite Hfresh.
Qed.

(** ** [extractTitle] *)

Section Titles.
Import Footnote Title.

Lemma take_drop_str n s : substring 0 n s +:+ drop_str n s = s.
Proof.
  revert s. induction n as [|n IH]; intros [|c s]; try reflexivity.
  simpl. rewrite append_cons. by rewrite IH.
Qed.

Lemma contains_drop_str pat n s : contains pat (drop_str n s) -> contains pat s.
Proof.
  intros H. rewrite <- (take_drop_str n s). by apply contains_app_r.
Qed.

Lemma span_all p s : all_chars p (substring 0 (span p s) s) = true.
Proof.
  induction s as [|c s IH]; [reflexivity |].
  simpl. destruct (p c) eqn:E; [|reflexivity].
  simpl. by rewrite E, IH.
Qed.

Lemma span_app p a rest :
  all_chars p a = true ->
  match rest with EmptyString => true | String c _ => negb (p c) end = true ->
  span p (a +:+ rest) = String.length a.
Proof.
  intros Ha Hrest. induction a as [|c a IH].
  - destruct rest as [|c rest]; [reflexivity |].
    simpl. change (EmptyString +:+ String c rest) with (String c rest).
    simpl. by destruct (p c).
  - simpl in Ha. apply andb_true_iff in Ha as [Hc Ha].
    rewrite append_cons. simpl. by rewrite Hc, IH.
Qed.

Lemma substring_whole a rest : substring 0 (String.length a) (a +:+ rest) = a.
Proof.
  induction a as [|c a IH]; [by destruct rest |].
  rewrite append_cons. simpl. by rewrite IH.
Qed.

(** What a match of the pattern at one place yields. *)
Lemma heading_from_sound j rest t :
  heading_from j rest = Some t ->
  t <> EmptyString /\ all_chars in_line t = true /\ contains t rest.
Proof.
  induction j as [|j IH]; [discriminate |].
  cbn [heading_from].
  destruct (drop_str (S j) rest) as [|c tail] eqn:E; [exact IH |].
  destruct (is_line_terminator c) eqn:Ec; [exact IH |].
  clear IH. intros Heq. apply (inj Some) in Heq. subst t. split; [|split].
  - cbn [span]. rewrite Ec. simpl. discriminate.
  - exact (span_all in_line (String c tail)).
  - apply (contains_drop_str _ (S j)). rewrite E.
    eapply contains_here. symmetry. apply take_drop_str.
Qed.

Lemma scan_sound s :
  forall line_start t,
    scan line_start s = Some t ->
    t <> EmptyString /\ all_chars in_line t = true /\ contains t s.
Proof.
  induction s as [|c s IH]; intros line_start t.
  - destruct line_start; discriminate.
  - cbn [scan].
    destruct (if line_start then heading_here (String c s) else None) as [t'|] eqn:E.
    + intros [= <-]. destruct line_start; [|discriminate].
      unfold heading_here in E.
      destruct (bool_decide (c = "#"%char)) eqn:Ec.
      * apply bool_decide_eq_true in Ec as ->.
        apply heading_from_sound in E as (H1 & H2 & H3).
        split; [exact H1 | split; [exact H2 | by apply contains_cons]].
      * apply bool_decide_eq_false in Ec.
        destruct c as [[] [] [] [] [] [] [] []]; try discriminate E.
        by destruct Ec.
    + intros (H1 & H2 & H3)%IH.
      split; [exact H1 | split; [exact H2 | by apply contains_cons]].
Qed.

(** X12: a title [extractTitle] returns is never empty, holds no line terminator
    and is a piece of the document text as it stands (nothing is trimmed or
    unescaped). *)
Theorem extractTitle_one_line (markdownText t : string)
    (H : extractTitle markdownText = Some t) :
  t <> EmptyString /\ all_chars in_line t = true /\ contains t markdownText.
Proof. by apply (scan_sound markdownText true). Qed.

Lemma extractTitle_one_line_witness :
  extractTitle ("# Intro " +:+ nl +:+ "text") = Some "Intro "
  /\ "Intro " <> EmptyString
  /\ all_chars in_line "Intro " = true
  /\ contains "Intro " ("# Intro " +:+ nl +:+ "text").
Proof.
  assert (H : extractTitle ("# Intro " +:+ nl +:+ "text") = Some "Intro ") by reflexivity.
  exact (conj H (extractTitle_one_line ("# Intro " +:+ nl +:+ "text") "Intro " H)).
Defined.



(** The pattern looks at the text, not at the structure of the document: a hash
    line inside a code fence is taken as the title, a second-level heading is not,
    and a hash on a line of its own takes the next line. *)
Example extractTitle_edge_cases :
  extractTitle ("```" +:+ nl +:+ "# not a heading" +:+ nl +:+ "```" +:+ nl +:+ "# Real")
    = Some "not a heading"
  /\ extractTitle ("## Section" +:+ nl +:+ "text") = None
  /\ extractTitle ("#" +:+ nl +:+ "next line") = Some "next line".
Proof. vm_compute. repeat split. Qed.

End Titles.

(** ** The footnote tokenizers *)

Lemma begins_append (a b : string) : begins a (a +:+ b) = true.
Proof.
  induction a as [|c a IH]; [reflexivity |].
  rewrite append_cons. simpl. rewrite IH. by rewrite bool_decide_eq_true_2.
Qed.

Section Tokenizers.
Import Footnote.

Lemma drop_str_app a b : drop_str (String.length a) (a +:+ b) = b.
Proof.
  induction a as [|c a IH]; [reflexivity |].
  rewrite append_cons. exact IH.
Qed.

Lemma span_stop p s x after : drop_str (span p s) s = String x after -> p x = false.
Proof.
  induction s as [|c s IH]; [discriminate |].
  simpl. destruct (p c) eqn:E; [exact IH |].
  simpl. by intros [= <- _].
Qed.

Lemma marker_inv src id after :
  marker src = Some (id, after) ->
  src = "[^" +:+ id +:+ "]" +:+ after /\ id <> EmptyString /\ all_chars in_id id = true.
Proof.
  unfold marker.
  destruct src as [|c1 [|c2 rest]]; try discriminate.
  { destruct c1 as [[] [] [] [] [] [] [] []]; discriminate. }
  destruct (bool_decide (c1 = "["%char)) eqn:E1; cycle 1.
  { apply bool_decide_eq_false in E1.
    destruct c1 as [[] [] [] [] [] [] [] []]; try discriminate. by destruct E1. }
  destruct (bool_decide (c2 = "^"%char)) eqn:E2; cycle 1.
  { apply bool_decide_eq_false in E2. apply bool_decide_eq_true in E1 as ->.
    destruct c2 as [[] [] [] [] [] [] [] []]; try discriminate. by destruct E2. }
  apply bool_decide_eq_true in E1 as ->. apply bool_decide_eq_true in E2 as ->.
  change (fun c : ascii => negb (bool_decide (c = rbracket))) with in_id.
  destruct (span in_id rest) as [|n] eqn:En; [discriminate |].
  destruct (drop_str (S n) rest) as [|x tail] eqn:Ed; [discriminate |].
  intros Heq. apply (inj Some) in Heq. injection Heq as <- <-.
  rewrite <- En in Ed |- *.
  pose proof (span_stop in_id rest x tail Ed) as Hx.
  unfold in_id in Hx. apply negb_false_iff, bool_decide_eq_true in Hx. subst x.
  split; [|split].
  - change ("[^" +:+ ?a) with (String "[" (String "^" a)). do 2 f_equal.
    change ("]" +:+ tail) with (String rbracket tail).
    rewrite <- Ed. symmetry. apply take_drop_str.
  - rewrite En. destruct rest as [|c rest]; [discriminate En |].
    simpl. discriminate.
  - apply span_all.
Qed.

Lemma marker_spec id after :
  id <> EmptyString -> all_chars in_id id = true ->
  marker ("[^" +:+ id +:+ "]" +:+ after) = Some (id, after).
Proof.
  intros Hid Hall.
  change ("[^" +:+ id +:+ "]" +:+ after) with (String "[" (String "^" (id +:+ "]" +:+ after))).
  unfold marker.
  change (fun c : ascii => negb (bool_decide (c = rbracket))) with in_id.
  cbv zeta. rewrite (span_app in_id id ("]" +:+ after) Hall) by reflexivity.
  rewrite substring_whole.
  destruct (String.length id) as [|n] eqn:En; [by destruct id |].
  rewrite <- En, drop_str_app. reflexivity.
Qed.

(** The three functions of the extensions by what [marker] finds. *)
Lemma footnoteRef_tokenizer_unfold src :
  footnoteRef_tokenizer src
  = match marker src with
    | Some (id, after) =>
        if begins ":" after then None
        else Some (mkFootnoteRefToken ("[^" +:+ id +:+ "]") id)
    | None => None
    end.
Proof.
  unfold footnoteRef_tokenizer.
  destruct (marker src) as [[id [|c rest]]|]; try reflexivity.
  destruct c as [[] [] [] [] [] [] [] []]; reflexivity.
Qed.

Lemma footnote_tokenizer_colon src :
  is_Some (footnote_tokenizer src) ->
  exists id rest, marker src = Some (id, String ":" rest).
Proof.
  unfold footnote_tokenizer.
  destruct (marker src) as [[id [|c rest]]|]; try (by intros [? ?]).
  destruct (bool_decide (c = ":"%char)) eqn:E.
  - apply bool_decide_eq_true in E as ->. intros _. by exists id, rest.
  - apply bool_decide_eq_false in E.
    destruct c as [[] [] [] [] [] [] [] []]; by intros [? ?].
Qed.

Lemma lazy_text_ends after :
  after <> EmptyString -> definition_ends (drop_str (lazy_text after) after) = true.
Proof.
  induction after as [|c rest IH]; [done |]. intros _.
  cbn [lazy_text]. destruct (definition_ends rest) eqn:E; [exact E |].
  cbn [drop_str]. apply IH. by intros ->.
Qed.

(** X14: a reference token is cut from the front of the text it was found in:
    its raw text is the marker with its id and the rest of the text follows it;
    the id is not empty and holds no closing bracket; no colon follows; and the
    definition tokenizer refuses the same text. *)
Theorem footnoteRef_token_is_prefix (src : string) (token : FootnoteRefToken)
    (H : footnoteRef_tokenizer src = Some token) :
  src = fr_raw token +:+ after_raw (fr_raw token) src
  /\ fr_raw token = "[^" +:+ fr_id token +:+ "]"
  /\ fr_id token <> EmptyString
  /\ all_chars in_id (fr_id token) = true
  /\ begins ":" (after_raw (fr_raw token) src) = false
  /\ footnote_tokenizer src = None.
Proof.
  rewrite footnoteRef_tokenizer_unfold in H.
  destruct (marker src) as [[id after]|] eqn:Em; [|discriminate].
  destruct (begins ":" after) eqn:Ecolon; [discriminate |].
  apply (inj Some) in H. subst token. cbn [fr_raw fr_id].
  pose proof (marker_inv src id after Em) as (Hsrc & Hid & Hall).
  assert (Hafter : after_raw ("[^" +:+ id +:+ "]") src = after).
  { unfold after_raw. rewrite Hsrc.
    replace ("[^" +:+ id +:+ "]" +:+ after) with (("[^" +:+ id +:+ "]") +:+ after)
      by (by rewrite !append_assoc).
    apply drop_str_app. }
  rewrite Hafter.
  split; [by rewrite Hsrc at 1; rewrite !append_assoc |].
  split; [reflexivity |]. split; [exact Hid |]. split; [exact Hall |].
  split; [exact Ecolon |].
  destruct (footnote_tokenizer src) as [t|] eqn:Et; [|reflexivity].
  destruct (footnote_tokenizer_colon src) as (id' & rest & Hm); [by rewrite Et |].
  rewrite Hm in Em. injection Em as <- <-. discriminate Ecolon.
Qed.

Lemma footnoteRef_token_is_prefix_witness :
  let token := mkFootnoteRefToken "[^note]" "note" in
  footnoteRef_tokenizer "[^note] and more" = Some token
  /\ "[^note] and more" = fr_raw token +:+ after_raw (fr_raw token) "[^note] and more"
  /\ fr_raw token = "[^" +:+ fr_id token +:+ "]"
  /\ fr_id token <> EmptyString
  /\ all_chars in_id (fr_id token) = true
  /\ begins ":" (after_raw (fr_raw token) "[^note] and more") = false
  /\ footnote_tokenizer "[^note] and more" = None.
Proof.
  assert (H : footnoteRef_tokenizer "[^note] and more"
              = Some (mkFootnoteRefToken "[^note]" "note")) by reflexivity.
  exact (conj H (footnoteRef_token_is_prefix "[^note] and more"
                   (mkFootnoteRefToken "[^note]" "note") H)).
Defined.

Lemma footnote_tokenizer_unfold src id rest :
  marker src = Some (id, String ":" rest) ->
  footnote_tokenizer src
  = let k := span is_space rest in
    let j := match drop_str k rest with
             | EmptyString => Nat.pred k
             | _ => k
             end in
    match drop_str j rest with
    | EmptyString => None
    | after =>
        let text := substring 0 (lazy_text after) after in
        let raw := "[^" +:+ id +:+ "]:" +:+ substring 0 j rest +:+ text in
        Some (mkFootnoteToken raw id (trim text))
    end.
Proof. unfold footnote_tokenizer. by intros ->. Qed.

(** X15: a definition token is cut from the front of the text it was found in: its
    raw text starts with the marker, its id and a colon, and the rest of the text
    follows it; the id is not empty and holds no closing bracket; what follows the
    token is the end of the text, a blank line or the marker of a next footnote;
    and the reference tokenizer refuses the same text. *)
Theorem footnote_token_is_prefix (src : string) (token : FootnoteToken)
    (H : footnote_tokenizer src = Some token) :
  src = ft_raw token +:+ after_raw (ft_raw token) src
  /\ begins ("[^" +:+ ft_id token +:+ "]:") (ft_raw token) = true
  /\ ft_id token <> EmptyString
  /\ all_chars in_id (ft_id token) = true
  /\ definition_ends (after_raw (ft_raw token) src) = true
  /\ footnoteRef_tokenizer src = None.
Proof.
  destruct (footnote_tokenizer_colon src) as (id & rest & Hm); [by rewrite H |].
  pose proof (marker_inv src id _ Hm) as (Hsrc & Hid & Hall).
  rewrite (footnote_tokenizer_unfold src id rest Hm) in H. cbv zeta in H.
  set (j := match drop_str (span is_space rest) rest with
            | EmptyString => Nat.pred (span is_space rest)
            | _ => span is_space rest
            end) in H.
  destruct (drop_str j rest) as [|c tail] eqn:Eafter; [discriminate |].
  set (after := String c tail) in *.
  apply (inj Some) in H. subst token. cbn [ft_raw ft_id].
  set (text := substring 0 (lazy_text after) after).
  set (raw := "[^" +:+ id +:+ "]:" +:+ substring 0 j rest +:+ text).
  assert (Hsplit : src = raw +:+ drop_str (lazy_text after) after).
  { rewrite Hsrc. unfold raw, text. rewrite !append_assoc.
    apply (f_equal (append "[^")), (f_equal (append id)).
    change (String "]" (String ":" rest)
            = String "]" (String ":" (substring 0 j rest
                                        +:+ substring 0 (lazy_text after) after
                                        +:+ drop_str (lazy_text after) after))).
    do 2 f_equal. rewrite take_drop_str.
    rewrite <- (take_drop_str j rest) at 1. by rewrite Eafter. }
  assert (Hafter : after_raw raw src = drop_str (lazy_text after) after).
  { unfold after_raw. rewrite Hsplit at 1. apply drop_str_app. }
  rewrite Hafter.
  split; [exact Hsplit |].
  split.
  { unfold raw.
    replace ("[^" +:+ id +:+ "]:" +:+ substring 0 j rest +:+ text)
      with (("[^" +:+ id +:+ "]:") +:+ (substring 0 j rest +:+ text))
      by (by rewrite !append_assoc).
    apply begins_append. }
  split; [exact Hid |]. split; [exact Hall |].
  split; [by apply lazy_text_ends |].
  rewrite footnoteRef_tokenizer_unfold, Hm. reflexivity.
Qed.

Lemma footnote_token_is_prefix_witness :
  let src := "[^n]: the note" +:+ nl +:+ nl +:+ "next" in
  let token := mkFootnoteToken "[^n]: the note" "n" "the note" in
  footnote_tokenizer src = Some token
  /\ src = ft_raw token +:+ after_raw (ft_raw token) src
  /\ begins ("[^" +:+ ft_id token +:+ "]:") (ft_raw token) = true
  /\ ft_id token <> EmptyString
  /\ all_chars in_id (ft_id token) = true
  /\ definition_ends (after_raw (ft_raw token) src) = true
  /\ footnoteRef_tokenizer src = None.
Proof.
  assert (H : footnote_tokenizer ("[^n]: the note" +:+ nl +:+ nl +:+ "next")
              = Some (mkFootnoteToken "[^n]: the note" "n" "the note")) by reflexivity.
  exact (conj H (footnote_token_is_prefix ("[^n]: the note" +:+ nl +:+ nl +:+ "next")
                   (mkFootnoteToken "[^n]: the note" "n" "the note") H)).
Defined.

(** X16: a marker with a colon and nothing after it is no token at all.  The start
    function of the block extension reports a footnote there, the definition
    tokenizer finds no text for it and the reference tokenizer refuses the colon:
    the characters are left to the other rules as ordinary text. *)
Theorem bare_definition_marker (id : string)
    (Hid : id <> EmptyString) (Hall : all_chars in_id id = true) :
  footnote_start ("[^" +:+ id +:+ "]:") = Some 0
  /\ footnote_tokenizer ("[^" +:+ id +:+ "]:") = None
  /\ footnoteRef_tokenizer ("[^" +:+ id +:+ "]:") = None.
Proof.
  pose proof (marker_spec id ":" Hid Hall) as Hm.
  change ("[^" +:+ id +:+ "]" +:+ ":") with ("[^" +:+ id +:+ "]:") in Hm.
  split; [|split].
  - unfold footnote_start. by rewrite Hm.
  - by rewrite (footnote_tokenizer_unfold _ id EmptyString Hm).
  - by rewrite footnoteRef_tokenizer_unfold, Hm.
Qed.

Lemma bare_definition_marker_witness :
  "x" <> EmptyString
  /\ all_chars in_id "x" = true
  /\ footnote_start ("[^" +:+ "x" +:+ "]:") = Some 0
  /\ footnote_tokenizer ("[^" +:+ "x" +:+ "]:") = None
  /\ footnoteRef_tokenizer ("[^" +:+ "x" +:+ "]:") = None.
Proof.
  assert (H1 : "x" <> EmptyString) by discriminate.
  assert (H2 : all_chars in_id "x" = true) by reflexivity.
  exact (conj H1 (conj H2 (bare_definition_marker "x" H1 H2))).
Defined.

End Tokenizers.

(** ** Downloads and assets *)



Lemma copyFile_settles env src dest w : (copyFile env src dest w).1 <> Pending.
Proof.
  unfold copyFile. destruct (w_fs w !! key env src) as [[data|]|]; try done.
  unfold writeFile. destruct (writable _ _); [done |]. by destruct (is_dir _ _).
Qed.

Lemma stageImage_local env fuel tempDir image w :
  is_local image = true -> (stageImage env fuel tempDir image w).1 = Returned tt.
Proof.
  unfold is_local, stageImage, try_catch. intros H%negb_true_iff. rewrite H.
  pose proof (copyFile_settles env (img_resolvedPath image)
                (Path.join [tempDir; "OEBPS"; "images"; Path.basename (img_src image)]) w)
    as Hs.
  destruct (copyFile env _ _ w) as [[[] | e |] w']; simpl in *; done.
Qed.

Lemma stageImages_local env fuel tempDir images :
  forall w,
    forallb is_local images = true ->
    (for_of images (stageImage env fuel tempDir) w).1 = Returned tt.
Proof.
  induction images as [|image rest IH]; intros w H; [reflexivity |].
  simpl in H. apply andb_true_iff in H as [Himage Hrest].
  simpl. unfold mbind, M_bind.
  pose proof (stageImage_local env fuel tempDir image w Himage) as Hs.
  destruct (stageImage env fuel tempDir image w) as [[[] | e |] w']; simpl in Hs;
    try discriminate.
  by apply IH.
Qed.

Lemma stageCover_returns env tempDir md w : (stageCover env tempDir md w).1 = Returned tt.
Proof.
  unfold stageCover. destruct (m_cover md) as [[|c s]|]; try reflexivity.
  unfold try_catch.
  pose proof (copyFile_settles env (String c s)
                (Path.join [tempDir; "OEBPS"; "images"; "cover" +:+ Path.extname (String c s)])
                w) as Hs.
  destruct (copyFile env _ _ w) as [[[] | e |] w']; simpl in *; done.
Qed.

(** X18: materializing the assets never makes a conversion fail.  The loop over the
    images and the copy of the cover never throw, whatever the images and the file
    system are (an image that cannot be copied or downloaded only adds a warning);
    and when every image is a local file, the step returns. *)
Theorem assets_never_fail (env : Env) (fuel : nat) (tempDir : string)
    (metadata : EpubMetadata) (images : list ImageReference) (w : World) :
  throws (stageAssets env fuel tempDir metadata images w).1 = false
  /\ (forallb is_local images = true ->
      (stageAssets env fuel tempDir metadata images w).1 = Returned tt).
Proof.
  unfold stageAssets, mbind, M_bind. split.
  - destruct (for_of images (stageImage env fuel tempDir) w) as [[[] | e |] w'] eqn:E.
    + by rewrite stageCover_returns.
    + by apply stageImages_never_throw in E.
    + reflexivity.
  - intros H. pose proof (stageImages_local env fuel tempDir images w H) as Hs.
    destruct (for_of images (stageImage env fuel tempDir) w) as [[[] | e |] w'];
      simpl in Hs; try discriminate.
    apply stageCover_returns.
Qed.

(** The two staging functions end with that step. *)
Lemma staging_ends_with_assets env fuel tempDir htmlContent chapters md images :
  createEpubStructure env fuel tempDir htmlContent md images
  = (makeDirectories env tempDir;;
     writeFile env (Path.join [tempDir; "mimetype"]) "application/epub+zip";;
     writeFile env (Path.join [tempDir; "META-INF"; "container.xml"]) getContainerXml;;
     writeFile env (Path.join [tempDir; "OEBPS"; "content.opf"])
               (getContentOpf md images (env_today env));;
     writeFile env (Path.join [tempDir; "OEBPS"; "toc.ncx"]) (getTocNcx md);;
     writeFile env (Path.join [tempDir; "OEBPS"; "content.xhtml"])
               (getContentXhtml htmlContent (m_title md));;
     writeFile env (Path.join [tempDir; "OEBPS"; "css"; "style.css"]) getEpubCSS;;
     stageAssets env fuel tempDir md images)
  /\ createMultiChapterEpubStructure env fuel tempDir chapters md images
     = (makeDirectories env tempDir;;
        writeFile env (Path.join [tempDir; "mimetype"]) "application/epub+zip";;
        writeFile env (Path.join [tempDir; "META-INF"; "container.xml"]) getContainerXml;;
        writeFile env (Path.join [tempDir; "OEBPS"; "content.opf"])
                  (getMultiChapterContentOpf md images chapters (env_today env));;
        writeFile env (Path.join [tempDir; "OEBPS"; "toc.ncx"])
                  (getMultiChapterTocNcx md chapters);;
        for_of chapters (fun chapter =>
          writeFile env (Path.join [tempDir; "OEBPS"; ch_id chapter +:+ ".xhtml"])
                    (getContentXhtml (ch_html chapter) (ch_title chapter)));;
        writeFile env (Path.join [tempDir; "OEBPS"; "css"; "style.css"]) getEpubCSS;;
        stageAssets env fuel tempDir md images).
Proof. split; reflexivity. Qed.

(** ** The entries of the archive *)

Lemma begins_concat d l : begins d (String.concat "/" (d :: l)) = true.
Proof.
  destruct l as [|x l]; simpl.
  - rewrite <- (append_nil_r d) at 2. apply begins_append.
  - apply begins_append.
Qed.

Lemma directoryEntries_names env fs dirpath destpath :
  Forall (fun e => begins destpath (ze_name e) = true)
         (directoryEntries env fs dirpath destpath).
Proof.
  apply Forall_forall. intros e He.
  apply list_elem_of_omap in He as ([k node] & _ & He).
  unfold directoryEntry in He. simpl in He.
  destruct node as [data|]; [|discriminate].
  case_bool_decide; [|discriminate].
  injection He as <-. apply begins_concat.
Qed.

Lemma entriesNamed_app name a b :
  entriesNamed name (a ++ b) = entriesNamed name a ++ entriesNamed name b.
Proof. apply List.filter_app. Qed.

Lemma entriesNamed_none name prefix entries :
  begins prefix name = false ->
  Forall (fun e => begins prefix (ze_name e) = true) entries ->
  entriesNamed name entries = [].
Proof.
  intros Hname. induction 1 as [|e l He _ IH]; [reflexivity |].
  unfold entriesNamed in *. simpl. rewrite IH.
  case_bool_decide as Heq; [|reflexivity].
  rewrite Heq in He. congruence.
Qed.

(** X19: the archive has exactly one entry named mimetype: the marker file the
    first call queues.  Every other entry comes from one of the two directories
    and its name starts with META-INF or with OEBPS. *)
Theorem archive_has_one_mimetype (env : Env) (fs : gmap (list string) Node)
    (tempDir mimetype : string) :
  entriesNamed "mimetype" (archiveEntries env fs tempDir mimetype)
    = [mkZipEntry "mimetype" Deflated mimetype]
  /\ Forall (fun e => begins "META-INF" (ze_name e) || begins "OEBPS" (ze_name e) = true)
            (tail (archiveEntries env fs tempDir mimetype)).
Proof.
  unfold archiveEntries. split.
  - change (?e :: ?a ++ ?b) with ([e] ++ a ++ b).
    rewrite !entriesNamed_app.
    rewrite (entriesNamed_none "mimetype" "META-INF" _ eq_refl
               (directoryEntries_names env fs _ "META-INF")).
    rewrite (entriesNamed_none "mimetype" "OEBPS" _ eq_refl
               (directoryEntries_names env fs _ "OEBPS")).
    reflexivity.
  - simpl tail. apply Forall_app. split.
    + eapply Forall_impl; [apply directoryEntries_names |].
      intros e He. cbv beta in He. by rewrite He.
    + eapply Forall_impl; [apply directoryEntries_names |].
      intros e He. cbv beta in He. rewrite He. apply orb_true_r.
Qed.



(** ** The parser's registrations *)

(** The world after a call of [parseMarkdown] on a document with the text [text]. *)
Lemma parseMarkdown_effect env p w :
  match w_fs w !! key env p with
  | Some (File text) =>
      let loc := fresh (dom (w_heap w)) in
      let images := imagesFrom env (Path.dirname p) (w_uuids w) (env_marked env text) in
      exists html,
        parseMarkdown env p w
        = (Returned (mkParsedRef html loc (Title.extractTitle text)),
           mkWorld (w_fs w) (w_uuids w + length images) (w_console w)
                   (<[loc := images]> (w_heap w)) loc (Path.dirname p) true
                   (if w_markedConfigured w then w_extensions w
                    else w_extensions w ++ ["footnote"; "footnoteRef"])
                   (S (w_renderers w)))
  | _ => parseMarkdown env p w = (Thrown "ENOENT", w)
  end.
Proof.
  unfold parseMarkdown, mbind, M_bind, readFile.
  destruct (w_fs w !! key env p) as [[text|]|] eqn:Hfile; try reflexivity.
  unfold resetState, configureMarked, useRenderer, currentArray, mret, M_ret.
  set (loc := fresh (dom (w_heap w))).
  set (w1 := set_parser loc [] (Path.dirname p) w).
  cbv zeta.
  destruct (w_markedConfigured w) eqn:Hc; unfold w1 at 1; cbn [set_parser w_markedConfigured];
    rewrite Hc;
    match goal with
    | |- context [renderNodes env ?ns ?W] =>
        destruct (renderNodes_spec env ns W []) as [html Hr];
          [apply lookup_insert_eq | rewrite Hr]
    end;
    exists html; simpl; rewrite insert_insert_eq, ?Hc; reflexivity.
Qed.

(** X21: [parseMarkdown] fails only when the document cannot be read, and then
    before it touches the parser's variables.  Otherwise it returns; the title is
    the one [extractTitle] finds in the text; the footnote extensions are
    registered by the first call only, and every call registers the image and
    rule renderers once more. *)
Theorem parseMarkdown_outcome (env : Env) (p : string) (w : World) :
  match w_fs w !! key env p with
  | Some (File text) =>
      exists r w',
        parseMarkdown env p w = (Returned r, w')
        /\ pr_title r = Title.extractTitle text
        /\ w_currentBaseDir w' = Path.dirname p
        /\ w_markedConfigured w' = true
        /\ w_extensions w'
           = (if w_markedConfigured w then w_extensions w
              else w_extensions w ++ ["footnote"; "footnoteRef"])
        /\ w_renderers w' = S (w_renderers w)
  | _ => exists e, parseMarkdown env p w = (Thrown e, w)
  end.
Proof.
  pose proof (parseMarkdown_effect env p w) as H.
  destruct (w_fs w !! key env p) as [[text|]|]; try (by eexists).
  cbv zeta in H. destruct H as [html ->]. by eexists _, _.
Qed.

Lemma parseDocument_effect env p w doc w' :
  parseDocument env p w = (Returned doc, w') ->
  w_renderers w' = S (w_renderers w)
  /\ w_markedConfigured w' = true
  /\ w_extensions w'
     = (if w_markedConfigured w then w_extensions w
        else w_extensions w ++ ["footnote"; "footnoteRef"]).
Proof.
  unfold parseDocument, mbind, M_bind.
  pose proof (parseMarkdown_effect env p w) as H.
  destruct (w_fs w !! key env p) as [[text|]|]; try (by rewrite H).
  cbv zeta in H. destruct H as [html ->].
  unfold readArray, mret, M_ret. by intros [= <- <-].
Qed.

(** X22: over the chapter loop the renderers pile up and the extensions do not:
    when the loop returns, the renderer has been registered once per input file,
    and the footnote extensions were added at most once, by the first call of a
    process that had not configured the transformer before. *)
Theorem chapter_loop_registrations (env : Env) (inputPaths : list string) (i : nat)
    (st0 st : ChapterState) (w w' : World)
    (H : parseChapters env i inputPaths st0 w = (Returned st, w')) :
  w_renderers w' = w_renderers w + length inputPaths
  /\ w_extensions w'
     = (if w_markedConfigured w || bool_decide (inputPaths = [])
        then w_extensions w
        else w_extensions w ++ ["footnote"; "footnoteRef"])
  /\ length (cs_chapters st) = length (cs_chapters st0) + length inputPaths.
Proof.
  revert i st0 w H. induction inputPaths as [|inputPath rest IH]; intros i st0 w H.
  - injection H as <- <-. rewrite orb_true_r. simpl. repeat split; lia.
  - simpl in H. unfold mbind, M_bind, console_log in H.
    destruct (parseDocument env inputPath _) as [[doc|e|] w1] eqn:Hdoc; try discriminate.
    apply parseDocument_effect in Hdoc as (Hr & Hc & He).
    apply IH in H as (Hr' & He' & Hl).
    rewrite Hc in He'. simpl in He', Hr, He.
    rewrite Hr', Hr, He', He, Hl. rewrite orb_false_r.
    rewrite chapterStep_chapters, length_app. simpl. repeat split; lia.
Qed.

Lemma chapter_loop_registrations_witness :
  parseChapters twoDocsEnv 0 twoDocsPaths initialChapterState (initialWorld twoDocsFs)
    = (Returned loopState, loopWorld)
  /\ w_renderers loopWorld = w_renderers (initialWorld twoDocsFs) + length twoDocsPaths
  /\ w_extensions loopWorld
     = (if w_markedConfigured (initialWorld twoDocsFs) || bool_decide (twoDocsPaths = [])
        then w_extensions (initialWorld twoDocsFs)
        else w_extensions (initialWorld twoDocsFs) ++ ["footnote"; "footnoteRef"])
  /\ length (cs_chapters loopState)
     = length (cs_chapters initialChapterState) + length twoDocsPaths.
Proof.
  assert (H : parseChapters twoDocsEnv 0 twoDocsPaths initialChapterState
                (initialWorld twoDocsFs)
              = (Returned loopState, loopWorld)) by (vm_compute; reflexivity).
  exact (conj H (chapter_loop_registrations twoDocsEnv twoDocsPaths 0
                   initialChapterState loopState (initialWorld twoDocsFs) loopWorld H)).
Defined.

Example renderers_pile_up :
  w_renderers loopWorld = 2 /\ w_extensions loopWorld = ["footnote"; "footnoteRef"].
Proof. vm_compute. repeat split. Qed.

(** ** Configuration *)

Lemma prop_spread (a b : JsObject) k :
  prop (spread a b) k = match b !! k with Some v => v | None => prop a k end.
Proof.
  unfold prop, spread. rewrite lookup_union.
  destruct (b !! k) as [v|], (a !! k) as [v'|]; reflexivity.
Qed.

(** X23: the merge of [loadConfig] goes by the presence of a property, not by its
    value.  A property of the overrides wins even when its value is undefined; a
    property the overrides do not have is taken from the rc configuration, and
    one that is in neither from the defaults. *)
Theorem loadConfig_precedence (rcConfig overrides : JsObject) (k : string) :
  prop (loadConfig rcConfig (Some overrides)) k
  = match overrides !! k with
    | Some v => v
    | None =>
        match rcConfig !! k with
        | Some v => v
        | None => prop DEFAULT_CONFIG k
        end
    end
  /\ prop (loadConfig rcConfig None) k
     = match rcConfig !! k with
       | Some v => v
       | None => prop DEFAULT_CONFIG k
       end.
Proof.
  unfold loadConfig. rewrite !prop_spread. simpl. by rewrite lookup_empty.
Qed.

Lemma cliOverrides_keys cwd options k :
  k ∈ configKeys -> is_Some (cliOverrides cwd options !! k).
Proof.
  unfold configKeys, cliOverrides. intros H.
  repeat (apply elem_of_cons in H as [-> | H]);
    try (by apply elem_of_nil in H);
    repeat (first [ rewrite lookup_insert_eq; by eexists
                  | rewrite lookup_insert_ne by discriminate ]).
Qed.

Lemma prop_cli rcConfig cwd options k :
  k ∈ configKeys ->
  prop (loadConfig rcConfig (Some (cliOverrides cwd options))) k
  = prop (cliOverrides cwd options) k.
Proof.
  intros [v Hv]%(cliOverrides_keys cwd options).
  unfold loadConfig. rewrite prop_spread. simpl. rewrite Hv.
  unfold prop. by rewrite Hv.
Qed.

(** X24: the configuration of a run from the command line does not depend on the
    rc configuration.  The action passes all nine properties to [loadConfig],
    each with the value of its option, undefined when the option was not given;
    so every field of the configuration is the option's value, whatever the rc
    files hold. *)
Theorem cli_overrides_hide_rc (rcConfig : JsObject) (cwd : list string)
    (options : CliOptions) :
  cliConfig rcConfig cwd options
  = mkConfig (opt_author options) (opt_language options) (opt_publisher options)
             (match opt_cover options with
              | Some (String c s) => Some (resolveText cwd (String c s))
              | _ => None
              end)
             (opt_outputDir options) (opt_title options) (opt_description options)
             (opt_rights options) (opt_identifier options).
Proof.
  unfold cliConfig, asConfig.
  rewrite !prop_cli by (unfold configKeys; set_solver).
  reflexivity.
Qed.

(** An author named in an rc file is lost on the way: the book is by the
    "Unknown Author". *)
Example rc_author_is_lost :
  prop sampleRc "author" = Some "Jane Doe"
  /\ c_author (cliConfig sampleRc [] bareOptions) = None
  /\ m_author (prepareMetadata (Some (cliConfig sampleRc [] bareOptions)) "T" "id" "2024-01-02")
     = "Unknown Author"
  /\ c_author (asConfig (loadConfig sampleRc None)) = Some "Jane Doe".
Proof. vm_compute. repeat split. Qed.

(** ** Bulk conversion *)






(** Both documents were converted, and one book is left: the second conversion
    wrote over the output of the first. *)
Example same_name_outputs_collide :
  let out := key echoEnv (defaultOutputPath None "/a/doc.md") in
  key echoEnv (defaultOutputPath None "/b/doc.md") = out
  /\ String.length (fileAt bulkWorld out) > 0
  /\ occurrences "<p>second</p>" (fileAt bulkWorld out) = 1
  /\ occurrences "<p>first</p>" (fileAt bulkWorld out) = 0
  /\ length (List.filter (fun k => bool_decide (last k = Some "doc.epub"))
                         (fst <$> map_to_list (w_fs bulkWorld))) = 1.
Proof. vm_compute. repeat split; lia. Qed.

Lemma convertEach_fails env fuel inputPaths config :
  forall acc w e w',
    convertEach env fuel inputPaths config acc w = (Thrown e, w') ->
    exists done p rest outs w1 w2,
      inputPaths = done ++ p :: rest
      /\ convertEach env fuel done config acc w = (Returned outs, w1)
      /\ convertMarkdownToEpub env fuel (mkConversionOptions p None config) w1
         = (Thrown e, w2)
      /\ w' = add_console (failureLine p e) w2.
Proof.
  induction inputPaths as [|p rest IH]; intros acc w e w' H; [discriminate |].
  cbn [convertEach] in H. unfold mbind, M_bind in H.
  destruct (convertOne env fuel p config w) as [[out | e0 |] w1] eqn:E; try discriminate.
  - apply IH in H as (done & p' & rest' & outs & w2 & w3 & -> & Hdone & Hfail & ->).
    exists (p :: done), p', rest', outs, w2, w3.
    split; [reflexivity |]. split; [|by split].
    cbn [convertEach]. unfold mbind, M_bind. by rewrite E.
  - injection H as <- <-.
    unfold convertOne, try_catch in E.
    destruct (convertMarkdownToEpub env fuel _ w) as [[out0 | e1 |] w0] eqn:E1;
      try discriminate.
    unfold console_error, console_warn, mbind, M_bind, throw in E.
    injection E as <- <-.
    exists [], p, rest, acc, w, w0. by repeat split.
Qed.

(** X26: a bulk conversion stops at the first input that fails.  The error it
    throws is the error of that conversion; the world it leaves is the world of
    that conversion with one more line on the error stream; the inputs before it
    were converted and their books stay; the inputs after it are not touched. *)
Theorem bulk_fails_fast (env : Env) (fuel : nat) (inputPaths : list string)
    (config : option Config) (w w' : World) (e : string)
    (H : convertMultipleMarkdownToEpub env fuel inputPaths config w = (Thrown e, w')) :
  exists done p rest outs w1 w2,
    inputPaths = done ++ p :: rest
    /\ convertMultipleMarkdownToEpub env fuel done config w = (Returned outs, w1)
    /\ convertMarkdownToEpub env fuel (mkConversionOptions p None config) w1
       = (Thrown e, w2)
    /\ w' = add_console (failureLine p e) w2.
Proof.
  unfold convertMultipleMarkdownToEpub in *.
  exact (convertEach_fails env fuel inputPaths config [] w e w' H).
Qed.

Lemma bulk_fails_fast_witness :
  let r := convertMultipleMarkdownToEpub echoEnv 1 brokenPaths None
             (initialWorld sameNameFs) in
  r = (Thrown "Input file not found: /missing.md", r.2)
  /\ exists done p rest outs w1 w2,
       brokenPaths = done ++ p :: rest
       /\ convertMultipleMarkdownToEpub echoEnv 1 done None (initialWorld sameNameFs)
          = (Returned outs, w1)
       /\ convertMarkdownToEpub echoEnv 1 (mkConversionOptions p None None) w1
          = (Thrown "Input file not found: /missing.md", w2)
       /\ r.2 = add_console (failureLine p "Input file not found: /missing.md") w2.
Proof.
  assert (H : convertMultipleMarkdownToEpub echoEnv 1 brokenPaths None
                (initialWorld sameNameFs)
              = (Thrown "Input file not found: /missing.md",
                 (convertMultipleMarkdownToEpub echoEnv 1 brokenPaths None
                    (initialWorld sameNameFs)).2))
    by (vm_compute; reflexivity).
  exact (conj H (bulk_fails_fast echoEnv 1 brokenPaths None (initialWorld sameNameFs)
                   _ _ H)).
Defined.

(** ** Paths: where the staged files go *)

Section Paths.
Import Path.

Lemma substring_all (q : ascii -> bool) s :
  forall n len,
    (forall i c, n <= i < n + len -> String.get i s = Some c -> q c = true) ->
    all_chars q (substring n len s) = true.
Proof.
  induction s as [|c s IH]; intros n len H.
  - by destruct n, len.
  - destruct n as [|n].
    + destruct len as [|len]; [reflexivity |].
      simpl. rewrite (H 0 c) by (simpl; (lia || reflexivity)). simpl.
      apply IH. intros i c' Hi Hc. apply (H (S i) c'); [lia | exact Hc].
    + simpl. apply IH. intros i c' Hi Hc. apply (H (S i) c'); [lia | exact Hc].
Qed.

Lemma slice_no_slash p a b : (0 <= a)%Z -> slash_free p a b -> no_slash (slice p a b) = true.
Proof.
  intros Ha H. unfold no_slash, slice. apply substring_all.
  intros i c Hi Hc.
  specialize (H (Z.of_nat i)). unfold charAt in H.
  rewrite Nat2Z.id, Hc in H. rewrite H; [reflexivity | lia].
Qed.

Lemma slash_free_step p k e :
  is_slash (charAt p (Z.of_nat k)) = false ->
  slash_free p (Z.of_nat (S k)) e -> slash_free p (Z.of_nat k) e.
Proof.
  intros Hk H i Hi.
  destruct (decide (i = Z.of_nat k)) as [-> | Hne]; [exact Hk |].
  apply H. lia.
Qed.

Lemma slash_free_one p k :
  is_slash (charAt p (Z.of_nat k)) = false ->
  slash_free p (Z.of_nat k) (Z.of_nat k + 1).
Proof.
  intros Hk i Hi. by replace i with (Z.of_nat k) by lia.
Qed.

Lemma down_inv {S : Type} (step : Z -> S -> S) (Inv : nat -> S -> Prop) :
  (forall k st, Inv (Datatypes.S k) st -> Inv k (step (Z.of_nat k) st)) ->
  forall n st, Inv n st -> Inv 0 (down step n st).
Proof.
  intros Hstep. induction n as [|k IH]; intros st H; [exact H |].
  simpl. apply IH. by apply Hstep.
Qed.

Lemma bstep_inv p k st : bInv p (S k) st -> bInv p k (bstep p (Z.of_nat k) st).
Proof.
  destruct st as [start e matched brk]. unfold bInv, bstep. simpl.
  intros (H1 & H2 & H3).
  destruct brk; [by auto |].
  destruct (is_slash (charAt p (Z.of_nat k))) eqn:Hk.
  - destruct matched; simpl.
    + split; [done |]. split; [done |]. intros He. by specialize (H2 eq_refl He).
    + split; [done |]. split; [done |]. intros He.
      destruct (H3 He) as [_ Hfree]. split; [lia |].
      by replace (Z.of_nat k + 1)%Z with (Z.of_nat (S k)) by lia.
  - destruct (e =? -1)%Z eqn:He; simpl.
    + split; [done |]. split; [done |]. intros _.
      rewrite (H1 eq_refl). split; [lia |]. by apply slash_free_one.
    + apply Z.eqb_neq in He.
      split; [done |]. split; [done |]. intros _.
      destruct (H3 He) as [Hs Hfree]. split; [exact Hs |].
      by apply slash_free_step.
Qed.

Lemma basename_no_slash p : no_slash (basename p) = true.
Proof.
  unfold basename.
  pose proof (down_inv (bstep p) (bInv p) (bstep_inv p) (String.length p)
                (BState 0 (-1) true false)) as H.
  destruct (down (bstep p) (String.length p) (BState 0 (-1) true false))
    as [start e matched brk]. simpl.
  destruct (e =? -1)%Z eqn:He; [reflexivity |].
  apply Z.eqb_neq in He.
  destruct H as (H1 & _ & H3).
  { unfold bInv. simpl. repeat split; try done; lia. }
  simpl in *. destruct (H3 He) as [Hs Hfree].
  apply slice_no_slash; [exact Hs |].
  destruct brk; [exact Hfree |]. by rewrite (H1 eq_refl).
Qed.

Lemma eInv_ext p n st st' :
  e_startDot st' = e_startDot st -> e_end st' = e_end st ->
  e_matchedSlash st' = e_matchedSlash st -> e_break st' = e_break st ->
  eInv p n st -> eInv p n st'.
Proof. unfold eInv. by intros -> -> -> ->. Qed.

Lemma estep_end_inv p k st :
  e_break st = false ->
  is_slash (charAt p (Z.of_nat k)) = false ->
  eInv p (S k) st ->
  let st1 := estep_end (Z.of_nat k) st in
  eInv p k st1 /\ e_break st1 = false /\ e_end st1 <> (-1)%Z
  /\ slash_free p (Z.of_nat k) (e_end st1).
Proof.
  destruct st as [startDot startPart e matched pre brk]. unfold eInv, estep_end.
  cbn [e_startDot e_startPart e_end e_matchedSlash e_preDotState e_break].
  intros -> Hk (H1 & H2).
  destruct (e =? -1)%Z eqn:He;
    cbn [e_startDot e_startPart e_end e_matchedSlash e_preDotState e_break].
  - apply Z.eqb_eq in He.
    assert (Hfree : slash_free p (Z.of_nat k) (Z.of_nat k + 1)) by (by apply slash_free_one).
    split; [split |].
    + intros Hs. destruct (H1 Hs) as (_ & Hne & _). by destruct Hne.
    + by intros _ _.
    + split; [reflexivity |]. split; [lia | exact Hfree].
  - apply Z.eqb_neq in He. destruct (H2 eq_refl He) as [Hm Hfree].
    assert (Hfree' : slash_free p (Z.of_nat k) e) by (by apply slash_free_step).
    split; [split |].
    + exact H1.
    + by intros _ _.
    + by repeat split.
Qed.

Lemma estep_inv p k st : eInv p (S k) st -> eInv p k (estep p (Z.of_nat k) st).
Proof.
  intros H. unfold estep.
  destruct (e_break st) eqn:Hb.
  { destruct H as [H1 H2]. split; [exact H1 |]. intros Hb'. congruence. }
  destruct (is_slash (charAt p (Z.of_nat k))) eqn:Hk.
  - destruct H as [H1 H2].
    destruct (e_matchedSlash st) eqn:Hm; cbn [negb].
    + split; [exact H1 |]. intros _ He. destruct (H2 Hb He) as [Hm' _]. congruence.
    + split; [exact H1 | done].
  - fold (estep_end (Z.of_nat k) st).
    destruct (estep_end_inv p k st Hb Hk H) as (Hinv & Hb1 & He1 & Hfree).
    set (st1 := estep_end (Z.of_nat k) st) in *.
    destruct (is_dot (charAt p (Z.of_nat k))).
    + destruct (e_startDot st1 =? -1)%Z.
      * split; cbn [e_startDot e_startPart e_end e_matchedSlash e_preDotState e_break].
        -- intros _. split; [lia | by split].
        -- intros _ _. destruct Hinv as [_ H2]. by destruct (H2 Hb1 He1).
      * destruct (negb (e_preDotState st1 =? 1)%Z); [|exact Hinv].
        by apply (eInv_ext p k st1).
    + destruct (negb (e_startDot st1 =? -1)%Z); [|exact Hinv].
      by apply (eInv_ext p k st1).
Qed.

Lemma extname_no_slash p : no_slash (extname p) = true.
Proof.
  unfold extname.
  pose proof (down_inv (estep p) (eInv p) (estep_inv p) (String.length p)
                (EState (-1) 0 (-1) true 0 false)) as H.
  destruct (down (estep p) (String.length p) (EState (-1) 0 (-1) true 0 false))
    as [startDot startPart e matched pre brk].
  cbn [e_startDot e_startPart e_end e_matchedSlash e_preDotState e_break].
  destruct (startDot =? -1)%Z eqn:Hs; [reflexivity |].
  apply Z.eqb_neq in Hs. cbn [orb].
  match goal with |- no_slash (if ?c then _ else _) = true => destruct c end;
    [reflexivity |].
  destruct H as [H1 _].
  { split; cbn; [done | by intros _ ?]. }
  destruct (H1 Hs) as (Hpos & _ & Hfree). by apply slice_no_slash.
Qed.

(** *** Joining and resolving *)

Lemma split_go_no_slash x : forall cur, no_slash x = true -> split_go cur x = [cur +:+ x].
Proof.
  induction x as [|c x IH]; intros cur H.
  - by rewrite append_nil_r.
  - unfold no_slash in H. simpl in H. apply andb_true_iff in H as [Hc Hx].
    apply negb_true_iff in Hc. simpl. rewrite Hc.
    rewrite IH by exact Hx. by rewrite append_assoc.
Qed.

Lemma split_go_app a b :
  forall cur, split_go cur (a +:+ String slash b) = split_go cur a ++ split b.
Proof.
  induction a as [|c a IH]; intros cur.
  - reflexivity.
  - rewrite append_cons. simpl. destruct (is_slash c); [|by rewrite IH].
    by rewrite IH.
Qed.

Lemma concat_cons_sep t x xs :
  String.concat "/" (t :: x :: xs) = t +:+ String slash (String.concat "/" (x :: xs)).
Proof. reflexivity. Qed.

Lemma split_concat xs :
  forall t,
    Forall (fun x => no_slash x = true) xs ->
    split (String.concat "/" (t :: xs)) = split t ++ xs.
Proof.
  induction xs as [|x xs IH]; intros t H.
  - by rewrite app_nil_r.
  - inversion H as [|? ? Hx Hxs]; subst.
    rewrite concat_cons_sep. unfold split at 1. rewrite split_go_app.
    rewrite (IH x Hxs). fold (split t). f_equal.
    unfold split. by rewrite split_go_no_slash.
Qed.

Lemma isAbsolute_concat t xs :
  t <> EmptyString -> isAbsolute (String.concat "/" (t :: xs)) = isAbsolute t.
Proof.
  intros Ht. destruct t as [|c t]; [done |].
  destruct xs as [|x xs]; reflexivity.
Qed.

Lemma push_segment_empty stack : push_segment stack EmptyString = stack.
Proof. reflexivity. Qed.

Lemma foldl_push_filter parts :
  forall stack,
    foldl push_segment stack (List.filter nonempty parts) = foldl push_segment stack parts.
Proof.
  induction parts as [|x parts IH]; intros stack; [reflexivity |].
  simpl. destruct x as [|c x]; simpl; [apply IH |]. apply IH.
Qed.

Lemma filter_nonempty_no_slash parts :
  Forall (fun x => no_slash x = true) parts ->
  Forall (fun x => no_slash x = true) (List.filter nonempty parts).
Proof.
  induction 1 as [|x parts Hx _ IH]; [constructor |].
  simpl. destruct (nonempty x); [by constructor | exact IH].
Qed.

Lemma no_slash_relative x : no_slash x = true -> isAbsolute x = false.
Proof.
  destruct x as [|c x]; [done |]. unfold no_slash. simpl.
  intros [Hc _]%andb_true_iff. by apply negb_true_iff in Hc.
Qed.

Lemma normalize_app a b : normalize (a ++ b) = foldl push_segment (normalize a) b.
Proof. unfold normalize. apply foldl_app. Qed.

(** The key of a joined path: the segments are applied, one by one, to the key
    of its first part. *)
Lemma key_join env t parts :
  Forall (fun x => no_slash x = true) parts ->
  key env (Path.join (t :: parts)) = foldl push_segment (key env t) parts.
Proof.
  intros H. rewrite <- foldl_push_filter.
  apply filter_nonempty_no_slash in H.
  unfold key, resolve, Path.join. simpl List.filter.
  destruct t as [|c t]; simpl nonempty; cbv iota.
  - change (isAbsolute EmptyString) with false. cbv iota.
    change (split EmptyString) with [EmptyString].
    rewrite (normalize_app (env_cwd env) [EmptyString]). simpl foldl at 2.
    rewrite push_segment_empty.
    destruct (List.filter nonempty parts) as [|x xs] eqn:E.
    + change (isAbsolute ".") with false. cbv iota.
      change (split ".") with ["."]. by rewrite normalize_app.
    + inversion H as [|? ? Hx Hxs]; subst.
      assert (Hne : nonempty x = true).
      { assert (Hin : In x (List.filter nonempty parts)) by (rewrite E; by left).
        by apply List.filter_In in Hin as [_ Hne]. }
      rewrite isAbsolute_concat by (by intros ->).
      rewrite (no_slash_relative x Hx).
      rewrite split_concat by exact Hxs.
      unfold split. rewrite split_go_no_slash by exact Hx.
      by rewrite normalize_app.
  - rewrite isAbsolute_concat by discriminate.
    rewrite split_concat by exact H.
    by rewrite app_assoc, normalize_app.
Qed.

Lemma push_segment_plain stack seg :
  plain seg = true -> push_segment stack seg = stack ++ [seg].
Proof.
  unfold plain, push_segment. intros H.
  apply andb_true_iff in H as [H H3]. apply andb_true_iff in H as [H1 H2].
  apply negb_true_iff in H1, H2, H3. by rewrite H1, H2, H3.
Qed.

Lemma push_segment_cases stack seg :
  push_segment stack seg = stack ++ [seg] /\ plain seg = true
  \/ push_segment stack seg = stack
  \/ push_segment stack seg = removelast stack.
Proof.
  unfold push_segment, plain. repeat case_bool_decide; auto.
Qed.

Lemma key_join_plain env t parts :
  Forall (fun x => no_slash x = true /\ plain x = true) parts ->
  key env (Path.join (t :: parts)) = key env t ++ parts.
Proof.
  intros H. rewrite key_join by (eapply Forall_impl; [exact H | by intros ? [? ?]]).
  generalize (key env t). induction H as [|x parts [_ Hx] _ IH]; intros stack.
  - by rewrite app_nil_r.
  - simpl. rewrite push_segment_plain by exact Hx.
    rewrite IH. by rewrite <- app_assoc.
Qed.

Lemma cover_name_plain ext :
  no_slash ext = true ->
  no_slash ("cover" +:+ ext) = true /\ plain ("cover" +:+ ext) = true.
Proof.
  intros H. split.
  - unfold no_slash in *. rewrite all_chars_app. by rewrite H.
  - reflexivity.
Qed.

Lemma image_destination env tempDir src :
  let images := key env tempDir ++ ["OEBPS"; "images"] in
  let dest := key env (Path.join [tempDir; "OEBPS"; "images"; basename src]) in
  dest = images ++ [basename src] /\ plain (basename src) = true
  \/ dest = images
  \/ dest = key env tempDir ++ ["OEBPS"].
Proof.
  intros images dest. unfold dest. rewrite key_join; cycle 1.
  { repeat constructor. apply basename_no_slash. }
  cbn [foldl].
  rewrite (push_segment_plain _ "OEBPS"), (push_segment_plain _ "images") by reflexivity.
  rewrite <- app_assoc. cbn [app]. fold images.
  destruct (push_segment_cases images (basename src)) as [[-> Hp] | [-> | ->]]; auto.
  right. right. unfold images.
  change ["OEBPS"; "images"] with (["OEBPS"] ++ ["images"]).
  by rewrite app_assoc, removelast_last.
Qed.

Lemma cover_destination env tempDir cover :
  key env (Path.join [tempDir; "OEBPS"; "images"; "cover" +:+ extname cover])
  = key env tempDir ++ ["OEBPS"; "images"; "cover" +:+ extname cover].
Proof.
  apply key_join_plain.
  repeat constructor; apply cover_name_plain, extname_no_slash.
Qed.

(** X27: no image reference makes the conversion write outside the images
    directory of the staging directory.  The base name of a source holds no
    slash, whatever the source is; so the destination of an image is the entry
    of that name in OEBPS/images or, for a base name that is empty, a dot or two
    dots, one of the two directories themselves.  The destination of the cover
    is the entry cover with the extension of the cover path. *)
Theorem asset_destinations_inside (env : Env) (tempDir src cover : string) :
  let images := key env tempDir ++ ["OEBPS"; "images"] in
  let dest := key env (Path.join [tempDir; "OEBPS"; "images"; basename src]) in
  no_slash (basename src) = true
  /\ (dest = images ++ [basename src] /\ plain (basename src) = true
      \/ dest = images
      \/ dest = key env tempDir ++ ["OEBPS"])
  /\ key env (Path.join [tempDir; "OEBPS"; "images"; "cover" +:+ extname cover])
     = images ++ ["cover" +:+ extname cover].
Proof.
  intros images dest. split; [apply basename_no_slash |].
  split; [apply image_destination |].
  rewrite cover_destination. unfold images. by rewrite <- app_assoc.
Qed.

(** A source that climbs out of its directory stays inside the staging
    directory all the same. *)
Example traversal_stays_inside :
  key (sampleEnv []) (Path.join ["/out/t"; "OEBPS"; "images"; basename "../../etc/passwd"])
    = ["out"; "t"; "OEBPS"; "images"; "passwd"]
  /\ key (sampleEnv []) (Path.join ["/out/t"; "OEBPS"; "images"; basename ".."])
     = ["out"; "t"; "OEBPS"].
Proof. split; reflexivity. Qed.
End Paths.

(** ** What a conversion leaves alone *)

Lemma frame_ret {A} P (a : A) : frame P (mret a : M A).
Proof. by intros w k _. Qed.

Lemma frame_throw {A} P e : frame P (throw e : M A).
Proof. by intros w k _. Qed.

Lemma frame_bind {A B} P (m : M A) (f : A -> M B) :
  frame P m -> (forall a, frame P (f a)) -> frame P (m ≫= f).
Proof.
  intros Hm Hf w k Hk. unfold mbind, M_bind.
  specialize (Hm w k Hk).
  destruct (m w) as [[a | e |] w1]; simpl in *; [|exact Hm | exact Hm].
  by rewrite (Hf a w1 k Hk).
Qed.

Lemma frame_try_catch {A} P (body : M A) (handler : string -> M A) :
  frame P body -> (forall e, frame P (handler e)) -> frame P (try_catch body handler).
Proof.
  intros Hm Hh w k Hk. unfold try_catch.
  specialize (Hm w k Hk).
  destruct (body w) as [[a | e |] w1]; simpl in *; [exact Hm | | exact Hm].
  by rewrite (Hh e w1 k Hk).
Qed.

Lemma frame_for_of {A} P (xs : list A) (body : A -> M unit) :
  (forall x, x ∈ xs -> frame P (body x)) -> frame P (for_of xs body).
Proof.
  induction xs as [|x xs IH]; intros H; [by intros w k _ |].
  cbn [for_of]. apply frame_bind.
  - apply H. left.
  - intros _. apply IH. intros y Hy. apply H. by right.
Qed.

Lemma frame_console_log P s : frame P (console_log s).
Proof. by intros w k _. Qed.

Lemma frame_console_warn P s : frame P (console_warn s).
Proof. by intros w k _. Qed.

Lemma frame_writeFile env P p data : P (key env p) -> frame P (writeFile env p data).
Proof.
  intros Hp w k Hk. unfold writeFile.
  destruct (writable _ _); [|by destruct (is_dir _ _)].
  simpl. apply lookup_insert_ne. by intros <-.
Qed.

Lemma frame_copyFile env P src dest : P (key env dest) -> frame P (copyFile env src dest).
Proof.
  intros Hp w k Hk. unfold copyFile.
  destruct (w_fs w !! key env src) as [[data|]|]; try reflexivity.
  exact (frame_writeFile env P dest data Hp w k Hk).
Qed.

Lemma frame_downloadImage env P fuel dest :
  P (key env dest) -> forall url, frame P (downloadImage env fuel url dest).
Proof.
  intros Hp. induction fuel as [|fuel IH]; intros url; [by intros w k _ |].
  cbn [downloadImage].
  destruct (env_get env _ url) as [e | response]; [by intros w k _ |].
  destruct (_ && _); [apply IH |].
  destruct (negb _); [by intros w k _ |].
  by apply frame_writeFile.
Qed.

Lemma foldr_insert_other (fs : gmap (list string) Node) ks k :
  k ∉ ks -> foldr (fun k' m => <[k' := Dir]> m) fs ks !! k = fs !! k.
Proof.
  induction ks as [|k' ks IH]; intros Hk; [reflexivity |].
  apply not_elem_of_cons in Hk as [Hne Hk].
  simpl. rewrite lookup_insert_ne by done. by apply IH.
Qed.

Lemma prefixes_prefix k ks : ks ∈ prefixes k -> ks `prefix_of` k.
Proof.
  unfold prefixes. intros (n & -> & _)%list_elem_of_fmap.
  exists (drop n k). by rewrite take_drop.
Qed.

Lemma frame_mkdir env P p :
  (forall k, k `prefix_of` key env p -> P k) -> frame P (mkdir env p).
Proof.
  intros Hp w k Hk. unfold mkdir.
  destruct (is_file _ _); [reflexivity |].
  destruct (existsb _ _); [reflexivity |].
  simpl. apply foldr_insert_other.
  intros Hin%prefixes_prefix. by apply Hk, Hp.
Qed.

Lemma frame_rm env P p :
  (forall k, key env p `prefix_of` k -> P k) -> frame P (rm env p).
Proof.
  intros Hp w k Hk. unfold rm. simpl.
  destruct (w_fs w !! k) as [node|] eqn:E.
  - apply map_lookup_filter_Some. split; [exact E |]. simpl.
    intros Hpre. by apply Hk, Hp.
  - apply map_lookup_filter_None. by left.
Qed.

Lemma frame_createEpubArchive env P tempDir outputPath :
  P (key env outputPath) -> frame P (createEpubArchive env tempDir outputPath).
Proof.
  intros Hp w k Hk. unfold createEpubArchive.
  destruct (negb _); [reflexivity |].
  destruct (w_fs w !! key env (Path.join [tempDir; "mimetype"])) as [[data|]|];
    simpl; apply lookup_insert_ne; by intros <-.
Qed.

Lemma frame_uuid env P : frame P (uuid env).
Proof. by intros w k _. Qed.

(** The paths below the staging directory are touched, and so are the prefixes
    of such a path. *)
Lemma touched_below env tempDir outputPath parts :
  touched env tempDir outputPath (key env tempDir ++ parts).
Proof. left. by apply prefix_app_r. Qed.

Lemma touched_prefix env tempDir outputPath parts k :
  k `prefix_of` key env tempDir ++ parts -> touched env tempDir outputPath k.
Proof.
  intros Hk.
  destruct (prefix_weak_total k (key env tempDir) (key env tempDir ++ parts) Hk)
    as [H | H]; [by apply prefix_app_r | right; by left | by left].
Qed.

Lemma frame_mkdir_staged env tempDir outputPath parts :
  Forall (fun x => no_slash x = true /\ plain x = true) parts ->
  frame (touched env tempDir outputPath) (mkdir env (Path.join (tempDir :: parts))).
Proof.
  intros H. apply frame_mkdir. intros k Hk.
  rewrite key_join_plain in Hk by exact H. by eapply touched_prefix.
Qed.

Lemma frame_writeFile_staged env tempDir outputPath parts data :
  Forall (fun x => no_slash x = true /\ plain x = true) parts ->
  frame (touched env tempDir outputPath)
        (writeFile env (Path.join (tempDir :: parts)) data).
Proof.
  intros H. apply frame_writeFile.
  rewrite key_join_plain by exact H. apply touched_below.
Qed.

Ltac plain_parts := repeat constructor.

Lemma frame_makeDirectories env tempDir outputPath :
  frame (touched env tempDir outputPath) (makeDirectories env tempDir).
Proof.
  unfold makeDirectories.
  apply frame_bind.
  { apply frame_mkdir. intros k Hk. right. by left. }
  intros _. repeat (apply frame_bind; [by apply frame_mkdir_staged; plain_parts | intros _]).
  by apply frame_mkdir_staged; plain_parts.
Qed.

Lemma touched_image env tempDir outputPath src :
  touched env tempDir outputPath
          (key env (Path.join [tempDir; "OEBPS"; "images"; Path.basename src])).
Proof.
  pose proof (image_destination env tempDir src) as H.
  cbv zeta in H. destruct H as [[-> _] | [-> | ->]];
    rewrite <- ?app_assoc; apply touched_below.
Qed.

Lemma frame_stageImage env fuel tempDir outputPath image :
  frame (touched env tempDir outputPath) (stageImage env fuel tempDir image).
Proof.
  unfold stageImage. apply frame_try_catch.
  - destruct (is_remote _).
    + apply frame_bind; [apply frame_console_log |].
      intros _. apply frame_downloadImage, touched_image.
    + apply frame_copyFile, touched_image.
  - intros e. apply frame_console_warn.
Qed.

Lemma frame_stageCover env tempDir outputPath md :
  frame (touched env tempDir outputPath) (stageCover env tempDir md).
Proof.
  unfold stageCover. destruct (m_cover md) as [[|c s]|]; try apply frame_ret.
  apply frame_try_catch; [|intros e; apply frame_console_warn].
  apply frame_copyFile. rewrite cover_destination. apply touched_below.
Qed.

Lemma frame_stageAssets env fuel tempDir outputPath md images :
  frame (touched env tempDir outputPath)
        (for_of images (stageImage env fuel tempDir);; stageCover env tempDir md).
Proof.
  apply frame_bind.
  - apply frame_for_of. intros image _. apply frame_stageImage.
  - intros _. apply frame_stageCover.
Qed.

Lemma frame_createEpubStructure env fuel tempDir outputPath htmlContent md images :
  frame (touched env tempDir outputPath)
        (createEpubStructure env fuel tempDir htmlContent md images).
Proof.
  unfold createEpubStructure.
  apply frame_bind; [apply frame_makeDirectories | intros _].
  repeat (apply frame_bind; [by apply frame_writeFile_staged; plain_parts | intros _]).
  apply frame_stageAssets.
Qed.

(** The frame of the [try]/[catch] both generators share. *)
Lemma frame_generate env tempDir outputPath (staging : M unit) :
  frame (touched env tempDir outputPath) staging ->
  frame (touched env tempDir outputPath)
        (try_catch
           (staging;; createEpubArchive env tempDir outputPath;; rm env tempDir)
           (fun error => try_catch (rm env tempDir) (fun _ => mret tt);; throw error)).
Proof.
  intros Hs.
  assert (Hrm : frame (touched env tempDir outputPath) (rm env tempDir)).
  { apply frame_rm. intros k Hk. by left. }
  apply frame_try_catch.
  - apply frame_bind; [exact Hs | intros _].
    apply frame_bind; [|intros _; exact Hrm].
    apply frame_createEpubArchive. right. by right.
  - intros e. apply frame_bind; [|intros _; apply frame_throw].
    apply frame_try_catch; [exact Hrm | intros _; apply frame_ret].
Qed.

(** X28: a call of [generateEpub] changes nothing but what it is about.  Every
    path that is not at or below the staging directory of the call, that is no
    ancestor of that directory and that is not the output file holds after the
    call what it held before, whether the call returns, throws or does not
    settle and whatever the images are. *)
Theorem generateEpub_frame (env : Env) (fuel : nat) (htmlContent : string)
    (metadata : EpubMetadata) (images : list ImageReference) (outputPath : string)
    (w : World) (k : list string)
    (Hk : ~ touched env (tempDirOf env outputPath w) outputPath k) :
  w_fs (generateEpub env fuel htmlContent metadata images outputPath w).2 !! k
  = w_fs w !! k.
Proof.
  exact (frame_generate env (tempDirOf env outputPath w) outputPath
           (createEpubStructure env fuel (tempDirOf env outputPath w) htmlContent
              metadata images)
           (frame_createEpubStructure env fuel _ outputPath htmlContent metadata images)
           (afterToken env w) k Hk).
Qed.

Lemma generateEpub_frame_witness :
  ~ touched (sampleEnv []) (tempDirOf (sampleEnv []) "/out/doc.epub" pictureWorld)
            "/out/doc.epub" bystander
  /\ w_fs (generateEpub (sampleEnv []) 1 "<p>x</p>" sampleBook [picture] "/out/doc.epub"
             pictureWorld).2 !! bystander
     = w_fs pictureWorld !! bystander.
Proof.
  assert (H : ~ touched (sampleEnv []) (tempDirOf (sampleEnv []) "/out/doc.epub" pictureWorld)
                        "/out/doc.epub" bystander).
  { unfold touched, bystander.
    replace (key (sampleEnv []) (tempDirOf (sampleEnv []) "/out/doc.epub" pictureWorld))
      with ["out"; ".epub-temp-u0"] by reflexivity.
    replace (key (sampleEnv []) "/out/doc.epub") with ["out"; "doc.epub"] by reflexivity.
    intros [[x Hx] | [[x Hx] | Hx]]; discriminate. }
  exact (conj H (generateEpub_frame (sampleEnv []) 1 "<p>x</p>" sampleBook [picture]
                   "/out/doc.epub" pictureWorld bystander H)).
Defined.

Lemma long_plain x : 3 <= String.length x -> plain x = true.
Proof.
  destruct x as [|a [|b [|c x]]]; simpl; try lia. intros _.
  unfold plain. by rewrite !bool_decide_eq_false_2 by discriminate.
Qed.

Lemma chapter_file_plain id :
  no_slash id = true ->
  no_slash (id +:+ ".xhtml") = true /\ plain (id +:+ ".xhtml") = true.
Proof.
  intros H. split.
  - unfold no_slash in *. rewrite all_chars_app. by rewrite H.
  - apply long_plain. rewrite length_append_string. simpl. lia.
Qed.

Lemma frame_createMultiChapterEpubStructure env fuel tempDir outputPath chapters md images :
  Forall (fun c => no_slash (ch_id c) = true) chapters ->
  frame (touched env tempDir outputPath)
        (createMultiChapterEpubStructure env fuel tempDir chapters md images).
Proof.
  intros Hids. unfold createMultiChapterEpubStructure.
  apply frame_bind; [apply frame_makeDirectories | intros _].
  do 4 (apply frame_bind; [by apply frame_writeFile_staged; plain_parts | intros _]).
  apply frame_bind.
  { apply frame_for_of. intros c Hc.
    apply frame_writeFile_staged.
    rewrite Forall_forall in Hids.
    repeat constructor; by apply chapter_file_plain, Hids. }
  intros _.
  apply frame_bind; [by apply frame_writeFile_staged; plain_parts | intros _].
  apply frame_stageAssets.
Qed.

(** X29: a call of [generateMultiChapterEpub] with chapters whose ids hold no
    slash changes nothing but what it is about: every path that is not at or
    below the staging directory, no ancestor of it and not the output file holds
    after the call what it held before. *)
Theorem generateMultiChapterEpub_frame (env : Env) (fuel : nat)
    (chapters : list Chapter) (metadata : EpubMetadata)
    (images : list ImageReference) (outputPath : string) (w : World) (k : list string)
    (Hids : Forall (fun c => no_slash (ch_id c) = true) chapters)
    (Hk : ~ touched env (tempDirOf env outputPath w) outputPath k) :
  w_fs (generateMultiChapterEpub env fuel chapters metadata images outputPath w).2 !! k
  = w_fs w !! k.
Proof.
  exact (frame_generate env (tempDirOf env outputPath w) outputPath
           (createMultiChapterEpubStructure env fuel (tempDirOf env outputPath w)
              chapters metadata images)
           (frame_createMultiChapterEpubStructure env fuel _ outputPath chapters
              metadata images Hids)
           (afterToken env w) k Hk).
Qed.

Lemma generateMultiChapterEpub_frame_witness :
  Forall (fun c => no_slash (ch_id c) = true) sampleChapters
  /\ ~ touched (sampleEnv []) (tempDirOf (sampleEnv []) "/out/doc.epub" pictureWorld)
              "/out/doc.epub" bystander
  /\ w_fs (generateMultiChapterEpub (sampleEnv []) 1 sampleChapters sampleBook [picture]
             "/out/doc.epub" pictureWorld).2 !! bystander
     = w_fs pictureWorld !! bystander.
Proof.
  assert (H1 : Forall (fun c => no_slash (ch_id c) = true) sampleChapters)
    by (repeat constructor).
  assert (H2 : ~ touched (sampleEnv [])
                   (tempDirOf (sampleEnv []) "/out/doc.epub" pictureWorld)
                   "/out/doc.epub" bystander).
  { unfold touched, bystander.
    replace (key (sampleEnv []) (tempDirOf (sampleEnv []) "/out/doc.epub" pictureWorld))
      with ["out"; ".epub-temp-u0"] by reflexivity.
    replace (key (sampleEnv []) "/out/doc.epub") with ["out"; "doc.epub"] by reflexivity.
    intros [[x Hx] | [[x Hx] | Hx]]; discriminate. }
  exact (conj H1 (conj H2
           (generateMultiChapterEpub_frame (sampleEnv []) 1 sampleChapters sampleBook
              [picture] "/out/doc.epub" pictureWorld bystander H1 H2))).
Defined.

(** The ids the chapter driver makes hold no slash. *)
Lemma digits_no_slash d : no_slash (NilEmpty.string_of_uint d) = true.
Proof. induction d; simpl; try reflexivity; exact IHd. Qed.

Lemma string_of_uint_no_slash d : no_slash (NilZero.string_of_uint d) = true.
Proof. destruct d; try reflexivity; apply (digits_no_slash (_ d)). Qed.

Lemma driver_chapter_ids docs :
  Forall (fun c => no_slash (ch_id c) = true)
         (cs_chapters (chapterSteps 0 docs initialChapterState)).
Proof.
  rewrite chapterSteps_chapters. simpl app.
  apply Forall_forall. intros c (i & d & -> & _)%elem_of_lookup_imap.
  unfold chapterAt. cbn [ch_id]. unfold no_slash. rewrite all_chars_app.
  apply andb_true_iff. split; [reflexivity | apply string_of_uint_no_slash].
Qed.

(** Without that condition the frame is lost: a chapter whose id climbs out of
    the staging directory is written next to the output, and stays. *)
Example climbing_chapter_escapes :
  let r := generateMultiChapterEpub (sampleEnv []) 1 [climbingChapter] sampleBook []
             "/out/doc.epub" pictureWorld in
  r.1 = Returned tt
  /\ w_fs pictureWorld !! ["out"; "evil.xhtml"] = None
  /\ is_file (w_fs r.2) ["out"; "evil.xhtml"] = true
  /\ stagedPaths r.2 = [].
Proof. vm_compute. repeat split. Qed.

(** ** The book a conversion leaves *)

Lemma kept_after {A} target (m : M A) w a w' :
  m w = (Returned a, w') ->
  frame (fun k => k <> target) m ->
  w_fs w' !! target = w_fs w !! target.
Proof.
  intros E H. specialize (H w target). rewrite E in H. apply H. by intros Hne.
Qed.

Lemma written env p data w w' :
  writeFile env p data w = (Returned tt, w') ->
  w_fs w' !! key env p = Some (File data).
Proof.
  unfold writeFile. destruct (writable _ _).
  - intros [= <-]. simpl. apply lookup_insert_eq.
  - by destruct (is_dir _ _).
Qed.

(** The assets go to the images directory: no file staged elsewhere is written
    over by an image or by the cover. *)
Lemma stageAssets_keeps env fuel tempDir md images parts :
  parts <> ["OEBPS"] ->
  ~ ["OEBPS"; "images"] `prefix_of` parts ->
  frame (fun k => k <> key env tempDir ++ parts) (stageAssets env fuel tempDir md images).
Proof.
  intros H1 H2.
  assert (Himage : forall src,
            key env (Path.join [tempDir; "OEBPS"; "images"; Path.basename src])
            <> key env tempDir ++ parts).
  { intros src.
    pose proof (image_destination env tempDir src) as H. cbv zeta in H.
    destruct H as [[-> _] | [-> | ->]]; rewrite <- ?app_assoc;
      intros Heq%app_inv_head; subst parts.
    - apply H2. by exists [Path.basename src].
    - apply H2. by exists [].
    - by apply H1. }
  unfold stageAssets. apply frame_bind.
  - apply frame_for_of. intros image _. unfold stageImage. apply frame_try_catch.
    + destruct (is_remote _).
      * apply frame_bind; [apply frame_console_log |].
        intros _. apply frame_downloadImage, Himage.
      * apply frame_copyFile, Himage.
    + intros e. apply frame_console_warn.
  - intros _. unfold stageCover. destruct (m_cover md) as [[|c s]|]; try apply frame_ret.
    apply frame_try_catch; [|intros e; apply frame_console_warn].
    apply frame_copyFile. rewrite cover_destination.
    intros Heq%app_inv_head. subst parts. apply H2.
    by exists ["cover" +:+ Path.extname (String c s)].
Qed.

Lemma writeFile_keeps env tempDir parts parts' data :
  Forall (fun x => no_slash x = true /\ plain x = true) parts' ->
  parts' <> parts ->
  frame (fun k => k <> key env tempDir ++ parts)
        (writeFile env (Path.join (tempDir :: parts')) data).
Proof.
  intros Hp Hne. apply frame_writeFile. rewrite key_join_plain by exact Hp.
  by intros Heq%app_inv_head.
Qed.

Ltac next_step H E w :=
  match type of H with
  | (?m ≫= _) ?w0 = _ =>
      unfold mbind at 1, M_bind at 1 in H;
      destruct (m w0) as [[[] | ? |] w] eqn:E; try discriminate H
  end.

(** When the staging returns, each of the fixed files is where it was written,
    with the content it was written with. *)
Lemma createEpubStructure_files env fuel tempDir htmlContent md images w w' :
  createEpubStructure env fuel tempDir htmlContent md images w = (Returned tt, w') ->
  Forall (fun file => w_fs w' !! (key env tempDir ++ file.1) = Some (File file.2))
         (fixedFiles env htmlContent md images).
Proof.
  intros H.
  pose proof (staging_ends_with_assets env fuel tempDir htmlContent [] md images)
    as [Hs _].
  rewrite Hs in H. clear Hs.
  next_step H E0 w0. next_step H E1 w1. next_step H E2 w2. next_step H E3 w3.
  next_step H E4 w4. next_step H E5 w5. next_step H E6 w6.
  pose proof (written _ _ _ _ _ E1) as F1. pose proof (written _ _ _ _ _ E2) as F2.
  pose proof (written _ _ _ _ _ E3) as F3. pose proof (written _ _ _ _ _ E4) as F4.
  pose proof (written _ _ _ _ _ E5) as F5. pose proof (written _ _ _ _ _ E6) as F6.
  rewrite key_join_plain in F1, F2, F3, F4, F5, F6 by plain_parts.
  assert (Hassets : forall parts,
            parts <> ["OEBPS"] -> ~ ["OEBPS"; "images"] `prefix_of` parts ->
            w_fs w' !! (key env tempDir ++ parts) = w_fs w6 !! (key env tempDir ++ parts)).
  { intros parts H1 H2.
    apply (kept_after _ _ _ _ _ H), stageAssets_keeps; assumption. }
  assert (Hkeep : forall parts parts' data wa wb,
            writeFile env (Path.join (tempDir :: parts')) data wa = (Returned tt, wb) ->
            Forall (fun x => no_slash x = true /\ plain x = true) parts' ->
            parts' <> parts ->
            w_fs wb !! (key env tempDir ++ parts) = w_fs wa !! (key env tempDir ++ parts)).
  { intros parts parts' data wa wb E Hp Hne.
    apply (kept_after _ _ _ _ _ E), writeFile_keeps; assumption. }
  clear H.
  repeat constructor; cbn [fst snd];
    (rewrite Hassets by (first [discriminate | by intros [? ?]]));
    rewrite ?(Hkeep _ _ _ _ _ E6) by (first [discriminate | plain_parts]);
    rewrite ?(Hkeep _ _ _ _ _ E5) by (first [discriminate | plain_parts]);
    rewrite ?(Hkeep _ _ _ _ _ E4) by (first [discriminate | plain_parts]);
    rewrite ?(Hkeep _ _ _ _ _ E3) by (first [discriminate | plain_parts]);
    rewrite ?(Hkeep _ _ _ _ _ E2) by (first [discriminate | plain_parts]);
    assumption.
Qed.

Lemma directory_entry_in env fs tempDir dir rel data :
  no_slash dir = true -> plain dir = true ->
  fs !! (key env tempDir ++ dir :: rel) = Some (File data) ->
  entryOf (dir :: rel, data) ∈ directoryEntries env fs (Path.join [tempDir; dir]) dir.
Proof.
  intros Hd Hp H. unfold directoryEntries. apply list_elem_of_omap.
  exists (key env tempDir ++ dir :: rel, File data). split.
  - by apply elem_of_map_to_list.
  - unfold directoryEntry. cbn [fst snd].
    rewrite key_join_plain by (by repeat constructor).
    change (key env tempDir ++ dir :: rel) with (key env tempDir ++ [dir] ++ rel).
    rewrite app_assoc.
    rewrite bool_decide_eq_true_2 by (by apply prefix_app_r).
    by rewrite drop_app_length.
Qed.

(** The steps of a call that returns. *)
Lemma generateEpub_steps env fuel htmlContent md images outputPath w w' :
  generateEpub env fuel htmlContent md images outputPath w = (Returned tt, w') ->
  let tempDir := tempDirOf env outputPath w in
  exists w1 w2,
    createEpubStructure env fuel tempDir htmlContent md images (afterToken env w)
      = (Returned tt, w1)
    /\ createEpubArchive env tempDir outputPath w1 = (Returned tt, w2)
    /\ rm env tempDir w2 = (Returned tt, w').
Proof.
  intros H tempDir.
  change (generateEpub env fuel htmlContent md images outputPath w)
    with (try_catch
            (createEpubStructure env fuel tempDir htmlContent md images;;
             createEpubArchive env tempDir outputPath;;
             rm env tempDir)
            (fun error => try_catch (rm env tempDir) (fun _ => mret tt);; throw error)
            (afterToken env w)) in H.
  unfold try_catch at 1, mbind at 1 2, M_bind at 1 2 in H.
  destruct (createEpubStructure env fuel tempDir htmlContent md images (afterToken env w))
    as [[[] | e |] w1] eqn:E1; try discriminate H.
  destruct (createEpubArchive env tempDir outputPath w1) as [[[] | e |] w2] eqn:E2;
    try discriminate H.
  exists w1, w2. split; [reflexivity |]. split; [exact E2 |].
  destruct (rm env tempDir w2) as [[[] | e |] w3] eqn:E3;
    [exact H | discriminate E3 | discriminate E3].
Qed.

(** X30: the book a returning call of [generateEpub] leaves.  When the call
    returns and the output file does not lie in the staging directory, the output
    file is the archive of its entries: the first is the marker file with the
    bytes application/epub+zip, and the container file, the package document,
    the navigation file, the content document and the stylesheet are entries
    with the text their generators return, whatever the images are: no image
    and no cover is written over one of them. *)
Theorem generateEpub_output (env : Env) (fuel : nat) (htmlContent : string)
    (metadata : EpubMetadata) (images : list ImageReference) (outputPath : string)
    (w w' : World)
    (Hret : generateEpub env fuel htmlContent metadata images outputPath w
            = (Returned tt, w'))
    (Hout : ~ key env (tempDirOf env outputPath w) `prefix_of` key env outputPath) :
  exists entries,
    w_fs w' !! key env outputPath = Some (File (env_zip env entries))
    /\ head entries = Some (entryOf (["mimetype"], "application/epub+zip"))
    /\ Forall (fun file => entryOf file ∈ entries)
              (fixedFiles env htmlContent metadata images).
Proof.
  apply generateEpub_steps in Hret as (w1 & w2 & Hstage & Harchive & Hrm).
  cbv zeta in *. set (tempDir := tempDirOf env outputPath w) in *.
  pose proof (createEpubStructure_files _ _ _ _ _ _ _ _ Hstage) as Hfiles.
  apply createEpubArchive_writes in Harchive as (mimetype & Hm & Hzip).
  rewrite key_join_plain in Hm by plain_parts.
  pose proof Hfiles as Hfirst. apply Forall_cons_1 in Hfirst as [Hfirst _].
  cbn [fst snd] in Hfirst. rewrite Hfirst in Hm. injection Hm as <-.
  exists (archiveEntries env (w_fs w1) tempDir "application/epub+zip").
  split; [|split].
  - injection Hrm as <-. simpl.
    apply map_lookup_filter_Some. split; [exact Hzip | exact Hout].
  - reflexivity.
  - unfold fixedFiles in *.
    repeat match goal with
           | H : Forall _ (_ :: _) |- _ => apply Forall_cons_1 in H as [? H]
           end.
    cbn [fst snd] in *.
    unfold archiveEntries.
    apply Forall_cons_2; [apply elem_of_cons; by left |].
    apply Forall_cons_2.
    { apply elem_of_cons. right. apply elem_of_app. left.
      by apply (directory_entry_in env (w_fs w1) tempDir "META-INF" ["container.xml"]). }
    repeat (apply Forall_cons_2;
            [apply elem_of_cons; right; apply elem_of_app; right;
             by apply (directory_entry_in env (w_fs w1) tempDir "OEBPS") |]).
    apply Forall_nil_2.
Qed.

Lemma generateEpub_output_witness :
  generateEpub (sampleEnv []) 1 "<p>x</p>" sampleBook [picture] "/out/doc.epub" pictureWorld
    = (Returned tt, bookWorld)
  /\ ~ key (sampleEnv []) (tempDirOf (sampleEnv []) "/out/doc.epub" pictureWorld)
         `prefix_of` key (sampleEnv []) "/out/doc.epub"
  /\ exists entries,
       w_fs bookWorld !! key (sampleEnv []) "/out/doc.epub"
         = Some (File (env_zip (sampleEnv []) entries))
       /\ head entries = Some (entryOf (["mimetype"], "application/epub+zip"))
       /\ Forall (fun file => entryOf file ∈ entries)
                 (fixedFiles (sampleEnv []) "<p>x</p>" sampleBook [picture]).
Proof.
  assert (H1 : generateEpub (sampleEnv []) 1 "<p>x</p>" sampleBook [picture]
                 "/out/doc.epub" pictureWorld
               = (Returned tt, bookWorld)) by (vm_compute; reflexivity).
  assert (H2 : ~ key (sampleEnv []) (tempDirOf (sampleEnv []) "/out/doc.epub" pictureWorld)
                   `prefix_of` key (sampleEnv []) "/out/doc.epub").
  { replace (key (sampleEnv []) (tempDirOf (sampleEnv []) "/out/doc.epub" pictureWorld))
      with ["out"; ".epub-temp-u0"] by reflexivity.
    replace (key (sampleEnv []) "/out/doc.epub") with ["out"; "doc.epub"] by reflexivity.
    intros [x Hx]. discriminate. }
  exact (conj H1 (conj H2
           (generateEpub_output (sampleEnv []) 1 "<p>x</p>" sampleBook [picture]
              "/out/doc.epub" pictureWorld bookWorld H1 H2))).
Defined.
